(** * voca-engine: the orchestration engine and its in-memory store

    A shallow embedding of the TypeScript sources

      - [src/models/*.ts]            (ExpressionInput, Suggestion, Collection, Entry)
      - [src/utils/InMemoryStorage.ts]
      - [src/engine/VocaEngine.ts]

    followed by the properties the specification states about them.

    Conventions of the embedding.

      - A JavaScript string is a [string] whose characters are read as the
        code units 0..255 (Latin-1); [trim] and [toLowerCase] are the
        ECMAScript functions restricted to that range.
      - A number that is used as a count or an index is a [Z].
      - A [Date] is its time value, the number of milliseconds since the
        epoch, as a [Z]; the Invalid Date is not represented.
      - [Map<string, V>] is an association list in insertion order, since
        [Map.prototype.values] iterates in that order and the store sorts
        its output with a stable sort.
      - [uuidv4()] and [new Date()] read the host: the n-th call returns the
        n-th element of a sequence carried by the host state.
      - A method that may throw returns a [Result] together with the state
        reached when it returned or threw. *)

From Stdlib Require Import ZArith List String Ascii Bool Lia.
From Stdlib Require Import Sorting.Sorted Sorting.Permutation.
Import ListNotations.

Local Open Scope string_scope.
Local Open Scope Z_scope.

(* ================================================================== *)
(** * ECMAScript built-ins used by the sources                          *)
(* ================================================================== *)

Module JS.

(** ** Strings *)

(** WhiteSpace and LineTerminator code units below 256:
    TAB, LF, VT, FF, CR, SP and NBSP. *)
Definition isWhiteSpace (c : ascii) : bool :=
  let n := N_of_ascii c in
  ((9 <=? n) && (n <=? 13) || (n =? 32) || (n =? 160))%N.

(** [String.prototype.trimStart] *)
Fixpoint trimStart (s : string) : string :=
  match s with
  | EmptyString => EmptyString
  | String c s' => if isWhiteSpace c then trimStart s' else s
  end.

(** [String.prototype.trimEnd] *)
Fixpoint trimEnd (s : string) : string :=
  match s with
  | EmptyString => EmptyString
  | String c s' =>
      match trimEnd s' with
      | EmptyString => if isWhiteSpace c then EmptyString else String c EmptyString
      | r => String c r
      end
  end.

(** [String.prototype.trim] *)
Definition trim (s : string) : string := trimEnd (trimStart s).

(** Lower-case mapping of one code unit: A-Z, and the Latin-1 capitals
    U+00C0..U+00DE except the multiplication sign U+00D7. *)
Definition lowerChar (c : ascii) : ascii :=
  let n := N_of_ascii c in
  if ((65 <=? n) && (n <=? 90)
      || (192 <=? n) && (n <=? 222) && negb (n =? 215))%N
  then ascii_of_N (n + 32)
  else c.

(** [String.prototype.toLowerCase] *)
Fixpoint toLowerCase (s : string) : string :=
  match s with
  | EmptyString => EmptyString
  | String c s' => String (lowerChar c) (toLowerCase s')
  end.

(** [String.prototype.startsWith] *)
Fixpoint startsWith (s q : string) : bool :=
  match q, s with
  | EmptyString, _ => true
  | String _ _, EmptyString => false
  | String a q', String b s' => Ascii.eqb a b && startsWith s' q'
  end.

(** [String.prototype.includes]: [q] occurs in [s] at some position. *)
Fixpoint includes (s q : string) : bool :=
  startsWith s q ||
  match s with
  | EmptyString => false
  | String _ s' => includes s' q
  end.

(** Truthiness of a string, and of an optional string. *)
Definition truthy (s : string) : bool := negb (String.eqb s "").

(** [x || d] for an optional string [x]. *)
Definition orElse (x : option string) (d : string) : string :=
  match x with
  | Some s => if truthy s then s else d
  | None => d
  end.

(** [x || d] for an optional number [x]: [0] is falsy. *)
Definition numberOr (x : option Z) (d : Z) : Z :=
  match x with
  | Some n => if n =? 0 then d else n
  | None => d
  end.

(** ** Arrays *)

Section Arrays.
Context {A : Type}.

(** [Array.prototype.some] and [Array.prototype.every] *)
Definition some (f : A -> bool) (l : list A) : bool := existsb f l.
Definition every (f : A -> bool) (l : list A) : bool := forallb f l.

(** [Array.prototype.filter] with the three-argument callback
    [(value, index, array)]. *)
Fixpoint filterFrom (f : A -> Z -> list A -> bool) (arr : list A)
         (i : Z) (l : list A) : list A :=
  match l with
  | [] => []
  | x :: l' =>
      if f x i arr then x :: filterFrom f arr (i + 1) l'
      else filterFrom f arr (i + 1) l'
  end.

Definition filterIndexed (f : A -> Z -> list A -> bool) (l : list A) : list A :=
  filterFrom f l 0 l.

(** Relative index of [Array.prototype.slice]: a negative index counts
    from the end, and the result is clamped to [0, len]. *)
Definition relativeIndex (len i : Z) : Z :=
  if i <? 0 then Z.max (len + i) 0 else Z.min i len.

(** [Array.prototype.slice (start, end)] *)
Definition slice (l : list A) (start stop : Z) : list A :=
  let len := Z.of_nat (List.length l) in
  let k := relativeIndex len start in
  let final := relativeIndex len stop in
  firstn (Z.to_nat (final - k)) (skipn (Z.to_nat k) l).

(** [Array.prototype.sort (cmp)] is stable. It is modelled by the
    stable insertion sort: an element is placed before the first
    element of the sorted rest that it does not follow. *)
Fixpoint insertSorted (cmp : A -> A -> Z) (x : A) (l : list A) : list A :=
  match l with
  | [] => [x]
  | y :: l' =>
      if cmp x y <=? 0 then x :: l else y :: insertSorted cmp x l'
  end.

Definition sort (cmp : A -> A -> Z) (l : list A) : list A :=
  fold_right (insertSorted cmp) [] l.
End Arrays.

(** [Array.prototype.includes] on an array of strings *)
Definition arrayIncludes (l : list string) (x : string) : bool :=
  existsb (String.eqb x) l.

(** [Array.prototype.indexOf] on an array of strings: the first index
    holding [x], or [-1]. *)
Fixpoint indexOfFrom (l : list string) (x : string) (i : Z) : Z :=
  match l with
  | [] => -1
  | y :: l' => if String.eqb y x then i else indexOfFrom l' x (i + 1)
  end.

Definition indexOf (l : list string) (x : string) : Z := indexOfFrom l x 0.

(** ** [Map<string, V>] in insertion order *)

Section Maps.
Context {V : Type}.

Definition Map := list (string * V).

Fixpoint get (m : Map) (k : string) : option V :=
  match m with
  | [] => None
  | (k', v) :: m' => if String.eqb k' k then Some v else get m' k
  end.

(** [Map.prototype.set]: an existing key keeps its position. *)
Fixpoint set (m : Map) (k : string) (v : V) : Map :=
  match m with
  | [] => [(k, v)]
  | (k', v') :: m' =>
      if String.eqb k' k then (k, v) :: m' else (k', v') :: set m' k v
  end.

Fixpoint delete (m : Map) (k : string) : Map :=
  match m with
  | [] => []
  | (k', v') :: m' =>
      if String.eqb k' k then m' else (k', v') :: delete m' k
  end.

Definition values (m : Map) : list V := map snd m.
End Maps.

Arguments Map : clear implicits.

(** The keys of a [Map] are distinct. *)
Definition distinctKeys {V : Type} (m : Map V) : Prop := NoDup (map fst m).

(** [String.prototype.split] with a separator of one code unit. *)
Fixpoint split (s : string) (sep : ascii) : list string :=
  match s with
  | EmptyString => [EmptyString]
  | String c s' =>
      if Ascii.eqb c sep then EmptyString :: split s' sep
      else
        match split s' sep with
        | piece :: pieces => String c piece :: pieces
        | [] => [String c EmptyString]
        end
  end.

(** [Array.prototype.join] with a separator of one code unit. *)
Fixpoint join (l : list string) (sep : ascii) : string :=
  match l with
  | [] => EmptyString
  | [x] => x
  | x :: l' => x ++ String sep (join l' sep)
  end.

(** The code unit [c] occurs in [s]. *)
Fixpoint occurs (c : ascii) (s : string) : bool :=
  match s with
  | EmptyString => false
  | String c' s' => Ascii.eqb c' c || occurs c s'
  end.

End JS.

(* ================================================================== *)
(** * [Date]: time values and the ISO-8601 date-time string             *)
(* ================================================================== *)

(** [Date.prototype.toISOString] and the string form of the [Date]
    constructor, after ECMA-262 (Date objects: Day Number and Time within
    Day, Year Number, Month Number, Date Number, MakeTime, MakeDay,
    MakeDate, TimeClip, and the Date Time String Format). The abstract
    operations keep the names of the standard. *)
Module Date.

Definition msPerDay : Z := 86400000.
Definition msPerHour : Z := 3600000.
Definition msPerMinute : Z := 60000.
Definition msPerSecond : Z := 1000.

(** The time values of a valid Date: 100,000,000 days either side of
    the epoch. *)
Definition maxTime : Z := 8640000000000000.

Definition validb (t : Z) : bool := (- maxTime <=? t) && (t <=? maxTime).
Definition valid (t : Z) : Prop := - maxTime <= t <= maxTime.

Definition Day (t : Z) : Z := t / msPerDay.
Definition TimeWithinDay (t : Z) : Z := t mod msPerDay.

Definition DaysInYear (y : Z) : Z :=
  if negb (y mod 4 =? 0) then 365
  else if negb (y mod 100 =? 0) then 366
  else if negb (y mod 400 =? 0) then 365
  else 366.

(** The day number of the first day of year [y]. *)
Definition DayFromYear (y : Z) : Z :=
  365 * (y - 1970) + (y - 1969) / 4 - (y - 1901) / 100 + (y - 1601) / 400.

(** The largest [y] with [DayFromYear y <= Day t]: four hundred years
    have 146097 days, so the estimate is off by one year at most. *)
Definition YearFromTime (t : Z) : Z :=
  let d := Day t in
  let y := 1970 + (400 * d) / 146097 in
  if d <? DayFromYear y then y - 1
  else if DayFromYear (y + 1) <=? d then y + 1
  else y.

(** 1 in a leap year, else 0. *)
Definition leapDay (y : Z) : Z := if DaysInYear y =? 366 then 1 else 0.

Definition InLeapYear (t : Z) : Z := leapDay (YearFromTime t).

Definition DayWithinYear (t : Z) : Z := Day t - DayFromYear (YearFromTime t).

(** The day within the year on which month [m] (0 = January) begins;
    [monthStart leap 12] is the length of the year. *)
Definition monthStart (leap m : Z) : Z :=
  if m <=? 0 then 0
  else if m =? 1 then 31
  else if m =? 2 then 59 + leap
  else if m =? 3 then 90 + leap
  else if m =? 4 then 120 + leap
  else if m =? 5 then 151 + leap
  else if m =? 6 then 181 + leap
  else if m =? 7 then 212 + leap
  else if m =? 8 then 243 + leap
  else if m =? 9 then 273 + leap
  else if m =? 10 then 304 + leap
  else if m =? 11 then 334 + leap
  else 365 + leap.

(** The month (0 = January) of day [d] within a year. *)
Definition monthOfDay (leap d : Z) : Z :=
  if d <? 31 then 0
  else if d <? 59 + leap then 1
  else if d <? 90 + leap then 2
  else if d <? 120 + leap then 3
  else if d <? 151 + leap then 4
  else if d <? 181 + leap then 5
  else if d <? 212 + leap then 6
  else if d <? 243 + leap then 7
  else if d <? 273 + leap then 8
  else if d <? 304 + leap then 9
  else if d <? 334 + leap then 10
  else 11.

Definition MonthFromTime (t : Z) : Z := monthOfDay (InLeapYear t) (DayWithinYear t).

Definition DateFromTime (t : Z) : Z :=
  DayWithinYear t - monthStart (InLeapYear t) (MonthFromTime t) + 1.

Definition HourFromTime (t : Z) : Z := (t / msPerHour) mod 24.
Definition MinFromTime (t : Z) : Z := (t / msPerMinute) mod 60.
Definition SecFromTime (t : Z) : Z := (t / msPerSecond) mod 60.
Definition msFromTime (t : Z) : Z := t mod msPerSecond.

Definition MakeTime (hour min sec ms : Z) : Z :=
  hour * msPerHour + min * msPerMinute + sec * msPerSecond + ms.

(** [MakeDay] for a month in 0..11. *)
Definition MakeDay (year month date : Z) : Z :=
  DayFromYear year + monthStart (leapDay year) month + date - 1.

Definition MakeDate (day time : Z) : Z := day * msPerDay + time.

Definition TimeClip (t : Z) : option Z := if validb t then Some t else None.

(** The number of days of month [m] (1 = January) of year [y]. *)
Definition daysInMonth (y m : Z) : Z :=
  monthStart (leapDay y) m - monthStart (leapDay y) (m - 1).

(** Decimal digits. *)
Definition digit (n : Z) : ascii := ascii_of_N (48 + Z.to_N n).

Definition digitValue (c : ascii) : option Z :=
  let n := N_of_ascii c in
  if ((48 <=? n) && (n <=? 57))%N then Some (Z.of_N n - 48) else None.

(** [n] written with exactly [w] digits, most significant first. *)
Fixpoint pad (w : nat) (n : Z) : string :=
  match w with
  | O => EmptyString
  | S w' => String (digit (n / 10 ^ Z.of_nat w')) (pad w' (n mod 10 ^ Z.of_nat w'))
  end.

(** Read exactly [w] digits. *)
Fixpoint readDigits (w : nat) (acc : Z) (s : string) : option (Z * string) :=
  match w with
  | O => Some (acc, s)
  | S w' =>
      match s with
      | EmptyString => None
      | String c s' =>
          match digitValue c with
          | Some v => readDigits w' (acc * 10 + v) s'
          | None => None
          end
      end
  end.

(** [f] holds of the [n] integers from [i] on. *)
Fixpoint allFrom (n : nat) (i : Z) (f : Z -> bool) : bool :=
  match n with
  | O => true
  | S k => f i && allFrom k (i + 1) f
  end.

Definition expect (c : ascii) (s : string) : option string :=
  match s with
  | EmptyString => None
  | String c' s' => if Ascii.eqb c c' then Some s' else None
  end.

(** The year: four digits for 0..9999, otherwise a sign and six digits. *)
Definition yearString (y : Z) : string :=
  if (0 <=? y) && (y <=? 9999) then pad 4 y
  else String (if y <? 0 then "-"%char else "+"%char) (pad 6 (Z.abs y)).

(** [Date.prototype.toISOString] of the time value [t]:
    [YYYY-MM-DDTHH:mm:ss.sssZ]. *)
Definition toISOString (t : Z) : string :=
  yearString (YearFromTime t) ++ "-" ++ pad 2 (MonthFromTime t + 1) ++ "-"
    ++ pad 2 (DateFromTime t) ++ "T"
    ++ pad 2 (HourFromTime t) ++ ":" ++ pad 2 (MinFromTime t) ++ ":"
    ++ pad 2 (SecFromTime t) ++ "." ++ pad 3 (msFromTime t) ++ "Z".

Definition readYear (s : string) : option (Z * string) :=
  match s with
  | String "+" s' => readDigits 6 0 s'
  | String "-" s' =>
      match readDigits 6 0 s' with
      | Some (y, r) => if y =? 0 then None else Some (- y, r)
      | None => None
      end
  | _ => readDigits 4 0 s
  end.

Definition andThen {A B : Type} (x : option A) (f : A -> option B) : option B :=
  match x with
  | Some a => f a
  | None => None
  end.

Notation "'let?' x ':=' e 'in' k" := (andThen e (fun x => k))
  (at level 10, x pattern, e at level 100, k at level 200).

(** The time value of [new Date(s)] for a string in the complete
    date-time form with the [Z] offset, the form [toISOString] emits;
    an illegal field or a value out of range gives no time value. Other
    forms the constructor accepts are not modelled and give [None]. *)
Definition parse (s : string) : option Z :=
  let? (y, s) := readYear s in
  let? s := expect "-" s in
  let? (m, s) := readDigits 2 0 s in
  let? s := expect "-" s in
  let? (d, s) := readDigits 2 0 s in
  let? s := expect "T" s in
  let? (h, s) := readDigits 2 0 s in
  let? s := expect ":" s in
  let? (mi, s) := readDigits 2 0 s in
  let? s := expect ":" s in
  let? (sec, s) := readDigits 2 0 s in
  let? s := expect "." s in
  let? (milli, s) := readDigits 3 0 s in
  let? s := expect "Z" s in
  if negb (String.eqb s "") then None
  else if negb ((1 <=? m) && (m <=? 12) && (1 <=? d) && (d <=? daysInMonth y m))
  then None
  else if negb ((h <=? 23) && (mi <=? 59) && (sec <=? 59)
                || (h =? 24) && (mi =? 0) && (sec =? 0) && (milli =? 0))
  then None
  else TimeClip (MakeDate (MakeDay y (m - 1) d) (MakeTime h mi sec milli)).

End Date.

(* ================================================================== *)
(** * The host: [uuidv4()] and [new Date()]                             *)
(* ================================================================== *)

Module Host.

(** [uuids n] is what the n-th call of [uuidv4()] returns and [times n]
    is the time value the n-th [new Date()] reads. *)
Record t : Type := mk {
  uuids : nat -> string;
  uuidCalls : nat;
  times : nat -> Z;
  clockReads : nat
}.

Definition uuidv4 (h : t) : string * t :=
  (uuids h (uuidCalls h),
   mk (uuids h) (S (uuidCalls h)) (times h) (clockReads h)).

(** [new Date()] *)
Definition now (h : t) : Z * t :=
  (times h (clockReads h),
   mk (uuids h) (uuidCalls h) (times h) (S (clockReads h))).

(** What a later host state keeps of an earlier one: the sequence of ids,
    of which it has consumed at least as many. *)
Definition advances (h h' : t) : Prop :=
  uuids h' = uuids h /\ (uuidCalls h <= uuidCalls h')%nat.

(** [id || uuidv4()]: the generator is called only for a falsy [id]. *)
Definition idOr (id : option string) (h : t) : string * t :=
  match id with
  | Some s => if JS.truthy s then (s, h) else uuidv4 h
  | None => uuidv4 h
  end.

End Host.

(* ================================================================== *)
(** * [src/types/index.ts] and [src/models]                             *)
(* ================================================================== *)

Inductive InputType : Type := Expression | Explanation | Image.

Module ExpressionInput.

Record t : Type := mk {
  id : string;
  type : InputType;
  content : string;
  createdAt : Z
}.

(** What [toJSON] returns. *)
Record json : Type := mkJson {
  json_id : string;
  json_type : InputType;
  json_content : string;
  json_createdAt : string
}.

(** [constructor(type, content, id?)] *)
Definition new (ty : InputType) (c : string) (i : option string)
           (h : Host.t) : t * Host.t :=
  let '(i', h1) := Host.idOr i h in
  let '(now, h2) := Host.now h1 in
  (mk i' ty c now, h2).

Definition createExpression (c : string) := new Expression c None.
Definition createExplanation (c : string) := new Explanation c None.
Definition createImage (c : string) := new Image c None.

Definition toJSON (x : t) : json :=
  mkJson (id x) (type x) (content x) (Date.toISOString (createdAt x)).

(** [fromJSON(data)]: the constructor, then [createdAt] is overwritten
    with [new Date(data.createdAt)]. The result is [None] when that
    string has no time value in [Date.parse]. *)
Definition fromJSON (data : json) (h : Host.t) : option t * Host.t :=
  let '(x, h1) := new (json_type data) (json_content data) (Some (json_id data)) h in
  (option_map (mk (id x) (type x) (content x)) (Date.parse (json_createdAt data)), h1).

End ExpressionInput.

Module Suggestion.

Record t : Type := mk {
  id : string;
  inputId : string;
  candidates : list string;
  generatedAt : Z
}.

Record json : Type := mkJson {
  json_id : string;
  json_inputId : string;
  json_candidates : list string;
  json_generatedAt : string
}.

(** [constructor(inputId, candidates, id?)] *)
Definition new (inp : string) (cs : list string) (i : option string)
           (h : Host.t) : t * Host.t :=
  let '(i', h1) := Host.idOr i h in
  let '(now, h2) := Host.now h1 in
  (mk i' inp cs now, h2).

Definition create (inp : string) (cs : list string) := new inp cs None.

Definition toJSON (x : t) : json :=
  mkJson (id x) (inputId x) (candidates x) (Date.toISOString (generatedAt x)).

Definition fromJSON (data : json) (h : Host.t) : option t * Host.t :=
  let '(x, h1) := new (json_inputId data) (json_candidates data) (Some (json_id data)) h in
  (option_map (mk (id x) (inputId x) (candidates x)) (Date.parse (json_generatedAt data)), h1).

Definition getCandidateCount (x : t) : Z := Z.of_nat (List.length (candidates x)).
Definition hasCandidates (x : t) : bool := getCandidateCount x >? 0.

Definition addCandidate (x : t) (c : string) :=
  new (inputId x) (candidates x ++ [c])%list (Some (id x)).

Definition filterCandidates (x : t) (p : string -> bool) :=
  new (inputId x) (filter p (candidates x)) (Some (id x)).

End Suggestion.

Module Collection.

Record t : Type := mk {
  id : string;
  name : string;
  createdAt : Z
}.

Record json : Type := mkJson {
  json_id : string;
  json_name : string;
  json_createdAt : string
}.

(** [Partial<Collection>]: each property may be absent. *)
Record partial : Type := mkPartial {
  partial_id : option string;
  partial_name : option string;
  partial_createdAt : option Z
}.

(** [constructor(name, id?)] *)
Definition new (n : string) (i : option string) (h : Host.t) : t * Host.t :=
  let '(i', h1) := Host.idOr i h in
  let '(now, h2) := Host.now h1 in
  (mk i' n now, h2).

Definition create (n : string) := new n None.

Definition toJSON (x : t) : json :=
  mkJson (id x) (name x) (Date.toISOString (createdAt x)).

Definition fromJSON (data : json) (h : Host.t) : option t * Host.t :=
  let '(x, h1) := new (json_name data) (Some (json_id data)) h in
  (option_map (mk (id x) (name x)) (Date.parse (json_createdAt data)), h1).

(** The object spread [{...existing, ...updates}]. *)
Definition spread (existing : t) (updates : partial) : t :=
  mk (match partial_id updates with Some i => i | None => id existing end)
     (match partial_name updates with Some n => n | None => name existing end)
     (match partial_createdAt updates with Some c => c | None => createdAt existing end).

(** [rename(newName)] *)
Definition rename (x : t) (newName : string) := new newName (Some (id x)).

Definition isValidName (x : t) : bool :=
  Z.of_nat (String.length (JS.trim (name x))) >? 0.

Definition getDisplayName (x : t) : string := JS.trim (name x).

End Collection.

Module Entry.

Record t : Type := mk {
  id : string;
  input : ExpressionInput.t;
  suggestion : Suggestion.t;
  collectionId : string;
  tags : list string;
  savedAt : Z
}.

(** [toJSON] embeds [input] and [suggestion] as they are. *)
Record json : Type := mkJson {
  json_id : string;
  json_input : ExpressionInput.t;
  json_suggestion : Suggestion.t;
  json_collectionId : string;
  json_tags : list string;
  json_savedAt : string
}.

(** [constructor(input, suggestion, collectionId, tags = [], id?)] *)
Definition new (inp : ExpressionInput.t) (sug : Suggestion.t) (cid : string)
           (tgs : option (list string)) (i : option string)
           (h : Host.t) : t * Host.t :=
  let '(i', h1) := Host.idOr i h in
  let '(now, h2) := Host.now h1 in
  (mk i' inp sug cid (match tgs with Some l => l | None => [] end) now, h2).

Definition create (inp : ExpressionInput.t) (sug : Suggestion.t) (cid : string)
           (tgs : option (list string)) :=
  new inp sug cid tgs None.

Definition toJSON (x : t) : json :=
  mkJson (id x) (input x) (suggestion x) (collectionId x) (tags x)
         (Date.toISOString (savedAt x)).

Definition fromJSON (data : json) (h : Host.t) : option t * Host.t :=
  let '(x, h1) := new (json_input data) (json_suggestion data)
                      (json_collectionId data) (Some (json_tags data))
                      (Some (json_id data)) h in
  (option_map (mk (id x) (input x) (suggestion x) (collectionId x) (tags x))
              (Date.parse (json_savedAt data)), h1).

Definition getTags (x : t) : list string := tags x.

Definition hasTag (x : t) (tag : string) : bool := JS.arrayIncludes (tags x) tag.

Definition hasTags (x : t) (tgs : list string) : bool := JS.every (hasTag x) tgs.

(** [addTag(tag)]: the same entry when the tag is present, otherwise a
    new one with the tag appended. *)
Definition addTag (x : t) (tag : string) (h : Host.t) : t * Host.t :=
  if hasTag x tag then (x, h)
  else new (input x) (suggestion x) (collectionId x)
           (Some (tags x ++ [tag])%list) (Some (id x)) h.

Definition removeTag (x : t) (tag : string) :=
  new (input x) (suggestion x) (collectionId x)
      (Some (filter (fun t => negb (String.eqb t tag)) (tags x))) (Some (id x)).

Definition updateTags (x : t) (tgs : list string) :=
  new (input x) (suggestion x) (collectionId x) (Some tgs) (Some (id x)).

Definition matchesQuery (x : t) (query : string) : bool :=
  let lowerQuery := JS.toLowerCase query in
  if JS.includes (JS.toLowerCase (ExpressionInput.content (input x))) lowerQuery
  then true
  else if JS.some (fun candidate => JS.includes (JS.toLowerCase candidate) lowerQuery)
                  (Suggestion.candidates (suggestion x))
  then true
  else if JS.some (fun tag => JS.includes (JS.toLowerCase tag) lowerQuery) (tags x)
  then true
  else false.

Definition getCandidateCount (x : t) : Z :=
  Z.of_nat (List.length (Suggestion.candidates (suggestion x))).

End Entry.

Module SearchOptions.

Record t : Type := mk {
  query : string;
  collectionId : option string;
  tags : option (list string);
  limit : option Z;
  offset : option Z
}.

End SearchOptions.

(* ================================================================== *)
(** * Errors                                                            *)
(* ================================================================== *)

(** Every failure in the sources is [throw new Error(message)]; one
    constructor stands for each message. [ProviderRejected] is the value a
    provider call rejects with, known by its string rendering. *)
Inductive Error : Type :=
| InputContentEmpty
| CollectionNameEmpty
| InputNotFound (id : string)
| SuggestionNotFound (id : string)
| CollectionNotFound (id : string)
| EntryNotFound (id : string)
| SuggestionNotOfInput
| NoSuggestionsGenerated
| GenerationFailed (cause : string)
| ProviderRejected (shown : string).

Definition message (e : Error) : string :=
  match e with
  | InputContentEmpty => "Input content cannot be empty"
  | CollectionNameEmpty => "Collection name cannot be empty"
  | InputNotFound id => "Input with id " ++ id ++ " not found"
  | SuggestionNotFound id => "Suggestion with id " ++ id ++ " not found"
  | CollectionNotFound id => "Collection with id " ++ id ++ " not found"
  | EntryNotFound id => "Entry with id " ++ id ++ " not found"
  | SuggestionNotOfInput => "Suggestion does not belong to the specified input"
  | NoSuggestionsGenerated => "No suggestions generated"
  | GenerationFailed cause => "Failed to generate suggestions: " ++ cause
  | ProviderRejected shown => shown
  end.

(** The template rendering of a caught value. *)
Definition show (e : Error) : string :=
  match e with
  | ProviderRejected shown => shown
  | _ => "Error: " ++ message e
  end.

Inductive Result (A : Type) : Type :=
| Ok (a : A)
| Throw (e : Error).

Arguments Ok {A} a.
Arguments Throw {A} e.

(** The error kinds of the specification (section 7). The sources raise
    plain [Error] values; the kind of each is read off its message. *)
Inductive ErrorKind : Type :=
| ValidationError
| NotFoundError
| ReferentialIntegrityError
| ProviderError.

Definition kindOf (e : Error) : ErrorKind :=
  match e with
  | InputContentEmpty | CollectionNameEmpty => ValidationError
  | InputNotFound _ | SuggestionNotFound _
  | CollectionNotFound _ | EntryNotFound _ => NotFoundError
  | SuggestionNotOfInput => ReferentialIntegrityError
  | NoSuggestionsGenerated | GenerationFailed _ | ProviderRejected _ => ProviderError
  end.

(* ================================================================== *)
(** * [src/utils/InMemoryStorage.ts]                                    *)
(* ================================================================== *)

Module InMemoryStorage.

Record t : Type := mk {
  inputs : JS.Map ExpressionInput.t;
  suggestions : JS.Map Suggestion.t;
  collections : JS.Map Collection.t;
  entries : JS.Map Entry.t
}.

Definition empty : t := mk [] [] [] [].

Definition saveInput (s : t) (x : ExpressionInput.t) : ExpressionInput.t * t :=
  (x, mk (JS.set (inputs s) (ExpressionInput.id x) x)
         (suggestions s) (collections s) (entries s)).

Definition getInput (s : t) (id : string) : option ExpressionInput.t :=
  JS.get (inputs s) id.

Definition saveSuggestion (s : t) (x : Suggestion.t) : Suggestion.t * t :=
  (x, mk (inputs s) (JS.set (suggestions s) (Suggestion.id x) x)
         (collections s) (entries s)).

Definition getSuggestion (s : t) (id : string) : option Suggestion.t :=
  JS.get (suggestions s) id.

Definition saveCollection (s : t) (x : Collection.t) : Collection.t * t :=
  (x, mk (inputs s) (suggestions s)
         (JS.set (collections s) (Collection.id x) x) (entries s)).

Definition getCollection (s : t) (id : string) : option Collection.t :=
  JS.get (collections s) id.

Definition listCollections (s : t) : list Collection.t :=
  JS.sort (fun a b => Collection.createdAt a - Collection.createdAt b)
          (JS.values (collections s)).

Definition saveEntry (s : t) (x : Entry.t) : Entry.t * t :=
  (x, mk (inputs s) (suggestions s) (collections s)
         (JS.set (entries s) (Entry.id x) x)).

Definition getEntry (s : t) (id : string) : option Entry.t :=
  JS.get (entries s) id.

(** Most recent first. *)
Definition bySavedAtDesc (a b : Entry.t) : Z := Entry.savedAt b - Entry.savedAt a.

Definition listEntries (s : t) (collectionId : string) : list Entry.t :=
  JS.sort bySavedAtDesc
    (filter (fun entry => String.eqb (Entry.collectionId entry) collectionId)
            (JS.values (entries s))).

Definition deleteEntry (s : t) (entryId : string) : t :=
  mk (inputs s) (suggestions s) (collections s) (JS.delete (entries s) entryId).

(** The callback of the query filter in [searchEntries]. *)
Definition queryMatches (query : string) (entry : Entry.t) : bool :=
  if JS.includes (JS.toLowerCase (ExpressionInput.content (Entry.input entry))) query
  then true
  else if JS.some (fun candidate => JS.includes (JS.toLowerCase candidate) query)
                  (Suggestion.candidates (Entry.suggestion entry))
  then true
  else if JS.some (fun tag => JS.includes (JS.toLowerCase tag) query) (Entry.tags entry)
  then true
  else false.

Definition searchEntries (s : t) (options : SearchOptions.t) : list Entry.t :=
  let results := JS.values (entries s) in
  (* Filter by collection if specified *)
  let results :=
    match SearchOptions.collectionId options with
    | Some c =>
        if JS.truthy c
        then filter (fun entry => String.eqb (Entry.collectionId entry) c) results
        else results
    | None => results
    end in
  (* Filter by query *)
  let results :=
    if JS.truthy (SearchOptions.query options)
    then filter (queryMatches (JS.toLowerCase (SearchOptions.query options))) results
    else results in
  (* Filter by tags if specified *)
  let results :=
    match SearchOptions.tags options with
    | Some tgs =>
        if Z.of_nat (List.length tgs) >? 0
        then filter (fun entry =>
                       JS.every (fun tag => JS.arrayIncludes (Entry.tags entry) tag) tgs)
                    results
        else results
    | None => results
    end in
  (* Sort by most recent first *)
  let results := JS.sort bySavedAtDesc results in
  (* Apply pagination *)
  let offset := JS.numberOr (SearchOptions.offset options) 0 in
  let limit := JS.numberOr (SearchOptions.limit options)
                           (Z.of_nat (List.length results)) in
  JS.slice results offset (offset + limit).

Definition updateCollection (s : t) (id : string) (updates : Collection.partial)
  : Result Collection.t * t :=
  match JS.get (collections s) id with
  | None => (Throw (CollectionNotFound id), s)
  | Some existing =>
      let merged := Collection.spread existing updates in
      let updated :=
        Collection.mk (Collection.id existing)   (* Ensure ID cannot be changed *)
                      (Collection.name merged)
                      (Collection.createdAt existing) in
      (Ok updated,
       mk (inputs s) (suggestions s) (JS.set (collections s) id updated) (entries s))
  end.

Definition clear (s : t) : t := empty.

(** Every record is held under its own id, as the save methods store it. *)
Definition keyedBy {V : Type} (id : V -> string) (m : JS.Map V) : Prop :=
  Forall (fun kv => id (snd kv) = fst kv) m.

Definition keyed (s : t) : Prop :=
  keyedBy ExpressionInput.id (inputs s) /\
  keyedBy Suggestion.id (suggestions s) /\
  keyedBy Collection.id (collections s) /\
  keyedBy Entry.id (entries s).

(** What [getStats] returns: the sizes of the four maps. *)
Record stats : Type := mkStats {
  stats_inputs : Z;
  stats_suggestions : Z;
  stats_collections : Z;
  stats_entries : Z
}.

Definition size {V : Type} (m : JS.Map V) : Z := Z.of_nat (List.length m).

Definition getStats (s : t) : stats :=
  mkStats (size (inputs s)) (size (suggestions s))
          (size (collections s)) (size (entries s)).

(** The object [exportData] returns and [importData] reads; a property
    that is absent is [None]. *)
Record data : Type := mkData {
  data_inputs : option (list ExpressionInput.t);
  data_suggestions : option (list Suggestion.t);
  data_collections : option (list Collection.t);
  data_entries : option (list Entry.t)
}.

Definition exportData (s : t) : data :=
  mkData (Some (JS.values (inputs s))) (Some (JS.values (suggestions s)))
         (Some (JS.values (collections s))) (Some (JS.values (entries s))).

(** [records.forEach(x => map.set(x.id, x))] *)
Definition setAll {V : Type} (id : V -> string) (records : list V) (m : JS.Map V)
  : JS.Map V :=
  fold_left (fun acc x => JS.set acc (id x) x) records m.

(** [if (data.records) { data.records.forEach(...) }] *)
Definition importInto {V : Type} (id : V -> string) (records : option (list V))
           (m : JS.Map V) : JS.Map V :=
  match records with
  | Some l => setAll id l m
  | None => m
  end.

(** [importData(data)]: [clear()], then the four imports. *)
Definition importData (s : t) (d : data) : t :=
  let cleared := clear s in
  mk (importInto ExpressionInput.id (data_inputs d) (inputs cleared))
     (importInto Suggestion.id (data_suggestions d) (suggestions cleared))
     (importInto Collection.id (data_collections d) (collections cleared))
     (importInto Entry.id (data_entries d) (entries cleared)).

(** No map holds two records under one key. *)
Definition distinct (s : t) : Prop :=
  JS.distinctKeys (inputs s) /\ JS.distinctKeys (suggestions s) /\
  JS.distinctKeys (collections s) /\ JS.distinctKeys (entries s).

End InMemoryStorage.

(* ================================================================== *)
(** * The suggestion provider                                           *)
(* ================================================================== *)

Module LLMProvider.

(** A call resolves with a candidate list ([None] for [null]) or rejects
    with a value known by its rendering. *)
Inductive outcome : Type :=
| Resolves (candidates : option (list string))
| Rejects (shown : string).

(** [answers n input] is the outcome of the n-th call. *)
Record t : Type := mk {
  answers : nat -> ExpressionInput.t -> outcome;
  calls : nat
}.

Definition generateVocabularySuggestions (p : t) (input : ExpressionInput.t)
  : outcome * t :=
  (answers p (calls p) input, mk (answers p) (S (calls p))).

End LLMProvider.

(* ================================================================== *)
(** * [src/engine/VocaEngine.ts]                                        *)
(* ================================================================== *)

Module VocaEngine.

(** An engine with the host it runs on. *)
Record t : Type := mk {
  host : Host.t;
  llmProvider : LLMProvider.t;
  storage : InMemoryStorage.t
}.

(** A method body: it ends with a value or a thrown error, in the state
    reached at that point. *)
Definition M (A : Type) : Type := t -> Result A * t.

Definition ret {A : Type} (a : A) : M A := fun w => (Ok a, w).

Definition throw {A : Type} (e : Error) : M A := fun w => (Throw e, w).

Definition bind {A B : Type} (m : M A) (k : A -> M B) : M B :=
  fun w =>
    match m w with
    | (Ok a, w') => k a w'
    | (Throw e, w') => (Throw e, w')
    end.

(** [try { body } catch (error) { handler }] *)
Definition tryCatch {A : Type} (body : M A) (handler : Error -> M A) : M A :=
  fun w =>
    match body w with
    | (Ok a, w') => (Ok a, w')
    | (Throw e, w') => handler e w'
    end.

(** A constructor call or a builder, running on the host. *)
Definition construct {A : Type} (f : Host.t -> A * Host.t) : M A :=
  fun w =>
    let '(a, h) := f (host w) in
    (Ok a, mk h (llmProvider w) (storage w)).

(** A storage method that reads. *)
Definition reading {A : Type} (f : InMemoryStorage.t -> A) : M A :=
  fun w => (Ok (f (storage w)), w).

(** A storage method that writes. *)
Definition writing {A : Type} (f : InMemoryStorage.t -> A * InMemoryStorage.t) : M A :=
  fun w =>
    let '(a, s) := f (storage w) in
    (Ok a, mk (host w) (llmProvider w) s).

(** [await this.llmProvider.generateVocabularySuggestions(input)] *)
Definition askProvider (input : ExpressionInput.t) : M (option (list string)) :=
  fun w =>
    let '(o, p) := LLMProvider.generateVocabularySuggestions (llmProvider w) input in
    let w' := mk (host w) p (storage w) in
    match o with
    | LLMProvider.Resolves cs => (Ok cs, w')
    | LLMProvider.Rejects shown => (Throw (ProviderRejected shown), w')
    end.

Notation "x <- m ;; k" := (bind m (fun x => k))
  (at level 61, m at next level, right associativity).

(** [!s || s.trim().length === 0] *)
Definition blank (s : string) : bool :=
  negb (JS.truthy s) || (Z.of_nat (String.length (JS.trim s)) =? 0).

Definition addInput (type : InputType) (content : string) : M ExpressionInput.t :=
  if blank content then throw InputContentEmpty
  else
    input <- construct (ExpressionInput.new type (JS.trim content) None) ;;
    writing (fun s => InMemoryStorage.saveInput s input).

Definition generateSuggestions (inputId : string) : M Suggestion.t :=
  input <- reading (fun s => InMemoryStorage.getInput s inputId) ;;
  match input with
  | None => throw (InputNotFound inputId)
  | Some input =>
      tryCatch
        (candidates <- askProvider input ;;
         match candidates with
         | None | Some [] => throw NoSuggestionsGenerated
         | Some candidates =>
             suggestion <- construct (Suggestion.new inputId candidates None) ;;
             writing (fun s => InMemoryStorage.saveSuggestion s suggestion)
         end)
        (fun error => throw (GenerationFailed (show error)))
  end.

Definition createCollection (name : string) : M Collection.t :=
  if blank name then throw CollectionNameEmpty
  else
    collection <- construct (Collection.new (JS.trim name) None) ;;
    writing (fun s => InMemoryStorage.saveCollection s collection).

Definition listCollections : M (list Collection.t) :=
  reading InMemoryStorage.listCollections.

(** [tags.map(trim).filter(nonempty).filter(first occurrence)] *)
Definition cleanTags (tags : list string) : list string :=
  JS.filterIndexed
    (fun tag index arr => JS.indexOf arr tag =? index)
    (filter (fun tag => Z.of_nat (String.length tag) >? 0)
            (map JS.trim tags)).

Definition saveEntry (inputId suggestionId collectionId : string)
           (tags : option (list string)) : M Entry.t :=
  (* Validate all required entities exist *)
  input <- reading (fun s => InMemoryStorage.getInput s inputId) ;;
  match input with
  | None => throw (InputNotFound inputId)
  | Some input =>
      suggestion <- reading (fun s => InMemoryStorage.getSuggestion s suggestionId) ;;
      match suggestion with
      | None => throw (SuggestionNotFound suggestionId)
      | Some suggestion =>
          collection <- reading (fun s => InMemoryStorage.getCollection s collectionId) ;;
          match collection with
          | None => throw (CollectionNotFound collectionId)
          | Some _ =>
              (* Validate that the suggestion belongs to the input *)
              if negb (String.eqb (Suggestion.inputId suggestion) inputId)
              then throw SuggestionNotOfInput
              else
                let cleaned :=
                  match tags with
                  | Some tags => cleanTags tags
                  | None => []
                  end in
                entry <- construct (Entry.new input suggestion collectionId
                                              (Some cleaned) None) ;;
                writing (fun s => InMemoryStorage.saveEntry s entry)
          end
      end
  end.

Definition listEntries (collectionId : string) : M (list Entry.t) :=
  collection <- reading (fun s => InMemoryStorage.getCollection s collectionId) ;;
  match collection with
  | None => throw (CollectionNotFound collectionId)
  | Some _ => reading (fun s => InMemoryStorage.listEntries s collectionId)
  end.

Definition deleteEntry (entryId : string) : M unit :=
  entry <- reading (fun s => InMemoryStorage.getEntry s entryId) ;;
  match entry with
  | None => throw (EntryNotFound entryId)
  | Some _ => writing (fun s => (tt, InMemoryStorage.deleteEntry s entryId))
  end.

Definition searchEntries (collectionId query : string) : M (list Entry.t) :=
  if blank query then listEntries collectionId
  else
    collection <- reading (fun s => InMemoryStorage.getCollection s collectionId) ;;
    match collection with
    | None => throw (CollectionNotFound collectionId)
    | Some _ =>
        reading (fun s =>
          InMemoryStorage.searchEntries s
            (SearchOptions.mk (JS.trim query) (Some collectionId) None None None))
    end.

Definition renameCollection (collectionId newName : string) : M Collection.t :=
  if blank newName then throw CollectionNameEmpty
  else
    collection <- reading (fun s => InMemoryStorage.getCollection s collectionId) ;;
    match collection with
    | None => throw (CollectionNotFound collectionId)
    | Some _ =>
        fun w =>
          let '(r, s) :=
            InMemoryStorage.updateCollection (storage w) collectionId
              (Collection.mkPartial None (Some (JS.trim newName)) None) in
          (r, mk (host w) (llmProvider w) s)
    end.

Definition getInputById (id : string) : M (option ExpressionInput.t) :=
  reading (fun s => InMemoryStorage.getInput s id).

Definition getSuggestionById (id : string) : M (option Suggestion.t) :=
  reading (fun s => InMemoryStorage.getSuggestion s id).

Definition getCollectionById (id : string) : M (option Collection.t) :=
  reading (fun s => InMemoryStorage.getCollection s id).

Definition getEntryById (id : string) : M (option Entry.t) :=
  reading (fun s => InMemoryStorage.getEntry s id).

Definition updateEntryTags (entryId : string) (tags : list string) : M Entry.t :=
  entry <- reading (fun s => InMemoryStorage.getEntry s entryId) ;;
  match entry with
  | None => throw (EntryNotFound entryId)
  | Some entry =>
      updatedEntry <- construct (Entry.new (Entry.input entry) (Entry.suggestion entry)
                                           (Entry.collectionId entry)
                                           (Some (cleanTags tags))
                                           (Some (Entry.id entry))) ;;
      writing (fun s => InMemoryStorage.saveEntry s updatedEntry)
  end.

Definition searchAllEntries (query : string) (tags : option (list string))
           (limit : option Z) : M (list Entry.t) :=
  reading (fun s =>
    InMemoryStorage.searchEntries s
      (SearchOptions.mk (JS.trim query) None tags limit None)).

(** [exportData] and [importData]: the storage of this embedding is
    always an [InMemoryStorage], so the [instanceof] test holds. *)
Definition exportData : M InMemoryStorage.data :=
  reading InMemoryStorage.exportData.

Definition importData (d : InMemoryStorage.data) : M unit :=
  writing (fun s => (tt, InMemoryStorage.importData s d)).

(** What [getStats] returns. *)
Record stats : Type := mkStats {
  stats_collections : Z;
  stats_entries : Z;
  stats_totalSuggestions : Z
}.

(** [entries.reduce((sum, entry) => sum + entry.suggestion.candidates.length, 0)] *)
Definition candidateTotal (entries : list Entry.t) : Z :=
  fold_left (fun sum entry =>
               sum + Z.of_nat (List.length (Suggestion.candidates (Entry.suggestion entry))))
            entries 0.

(** The loop [for (const collection of collections)] of [getStats]. *)
Fixpoint statsLoop (collections : list Collection.t) (totalEntries totalSuggestions : Z)
  : M (Z * Z) :=
  match collections with
  | [] => ret (totalEntries, totalSuggestions)
  | collection :: rest =>
      entries <- listEntries (Collection.id collection) ;;
      statsLoop rest (totalEntries + Z.of_nat (List.length entries))
                (totalSuggestions + candidateTotal entries)
  end.

Definition getStats : M stats :=
  collections <- listCollections ;;
  totals <- statsLoop collections 0 0 ;;
  ret (mkStats (Z.of_nat (List.length collections)) (fst totals) (snd totals)).

(** [Math.max(1, Math.min(10, count))], the value
    [setDefaultSuggestionCount] stores. *)
Definition clampSuggestionCount (count : Z) : Z := Z.max 1 (Z.min 10 count).

(** ** Properties of method bodies *)

(** The host only advances under [m]. *)
Definition hostAdvances {A : Type} (m : M A) : Prop :=
  forall w, Host.advances (host w) (host (snd (m w))).

(** The store stays keyed under [m]. *)
Definition staysKeyed {A : Type} (m : M A) : Prop :=
  forall w, InMemoryStorage.keyed (storage w) ->
            InMemoryStorage.keyed (storage (snd (m w))).

End VocaEngine.

(* ================================================================== *)
(** * Sessions: sequences of calls on one engine                        *)
(* ================================================================== *)

Module Session.

Inductive request : Type :=
| AddInput (type : InputType) (content : string)
| GenerateSuggestions (inputId : string)
| CreateCollection (name : string)
| ListCollections
| SaveEntry (inputId suggestionId collectionId : string) (tags : option (list string))
| ListEntries (collectionId : string)
| DeleteEntry (entryId : string)
| SearchEntries (collectionId query : string)
| RenameCollection (collectionId newName : string)
| UpdateEntryTags (entryId : string) (tags : list string)
| SearchAllEntries (query : string) (tags : option (list string)) (limit : option Z).

Inductive response : Type :=
| InputResponse (r : Result ExpressionInput.t)
| SuggestionResponse (r : Result Suggestion.t)
| CollectionResponse (r : Result Collection.t)
| CollectionsResponse (r : Result (list Collection.t))
| EntryResponse (r : Result Entry.t)
| EntriesResponse (r : Result (list Entry.t))
| DoneResponse (r : Result unit).

Definition answer {A : Type} (wrap : Result A -> response) (m : VocaEngine.M A)
           (w : VocaEngine.t) : response * VocaEngine.t :=
  let '(r, w') := m w in (wrap r, w').

Definition perform (rq : request) : VocaEngine.t -> response * VocaEngine.t :=
  match rq with
  | AddInput ty c => answer InputResponse (VocaEngine.addInput ty c)
  | GenerateSuggestions i => answer SuggestionResponse (VocaEngine.generateSuggestions i)
  | CreateCollection n => answer CollectionResponse (VocaEngine.createCollection n)
  | ListCollections => answer CollectionsResponse VocaEngine.listCollections
  | SaveEntry i s c tgs => answer EntryResponse (VocaEngine.saveEntry i s c tgs)
  | ListEntries c => answer EntriesResponse (VocaEngine.listEntries c)
  | DeleteEntry e => answer DoneResponse (VocaEngine.deleteEntry e)
  | SearchEntries c q => answer EntriesResponse (VocaEngine.searchEntries c q)
  | RenameCollection c n => answer CollectionResponse (VocaEngine.renameCollection c n)
  | UpdateEntryTags e tgs => answer EntryResponse (VocaEngine.updateEntryTags e tgs)
  | SearchAllEntries q tgs l => answer EntriesResponse (VocaEngine.searchAllEntries q tgs l)
  end.

(** The calls of [rqs] in order, each awaited before the next. The
    requests are the nine operations of [VocaEngineOperations] and the two
    further methods that write or search, [updateEntryTags] and
    [searchAllEntries]. *)
Fixpoint run (rqs : list request) (w : VocaEngine.t) : list response * VocaEngine.t :=
  match rqs with
  | [] => ([], w)
  | rq :: rqs' =>
      let '(r, w1) := perform rq w in
      let '(rs, w2) := run rqs' w1 in
      (r :: rs, w2)
  end.

End Session.

(* ================================================================== *)
(** * The specification's wording, for comparison with the sources      *)
(* ================================================================== *)

Module Spec.

(** ** Section 4.2: the search procedure, stage by stage *)

(** "the lowercase query is a substring of [field] (case-insensitive)" *)
Definition occursIn (query field : string) : bool :=
  JS.includes (JS.toLowerCase field) (JS.toLowerCase query).

(** Stage 2: if [collectionId] is present, keep the entries whose
    [collectionId] matches exactly. *)
Definition byCollection (collectionId : option string) (l : list Entry.t) :=
  match collectionId with
  | Some c => filter (fun e => String.eqb (Entry.collectionId e) c) l
  | None => l
  end.

(** Stage 3: if [query] is non-empty, keep the entries where it occurs
    in the content, or in some candidate, or in some tag. *)
Definition byQuery (query : string) (l : list Entry.t) :=
  if String.eqb query "" then l
  else filter (fun e =>
                 occursIn query (ExpressionInput.content (Entry.input e))
                 || existsb (occursIn query) (Suggestion.candidates (Entry.suggestion e))
                 || existsb (occursIn query) (Entry.tags e)) l.

(** Stage 4: if [tags] is present and non-empty, keep the entries whose
    tags include every requested tag, by string equality. *)
Definition byTags (tags : option (list string)) (l : list Entry.t) :=
  match tags with
  | Some ((_ :: _) as requested) =>
      filter (fun e =>
                forallb (fun t => existsb (String.eqb t) (Entry.tags e)) requested) l
  | _ => l
  end.

(** Stage 5: most recent first; entries saved at the same time keep
    their order. *)
Definition mostRecentFirst (l : list Entry.t) : list Entry.t :=
  JS.sort (fun a b => Entry.savedAt b - Entry.savedAt a) l.

(** Stage 6: skip [offset] (default 0), then take at most [limit]
    (default: all that remain). *)
Definition paginate (offset limit : option Z) (l : list Entry.t) :=
  let rest := skipn (Z.to_nat (match offset with Some n => n | None => 0 end)) l in
  match limit with
  | Some n => firstn (Z.to_nat n) rest
  | None => rest
  end.

Definition searchEntries (s : InMemoryStorage.t) (o : SearchOptions.t) : list Entry.t :=
  paginate (SearchOptions.offset o) (SearchOptions.limit o)
    (mostRecentFirst
       (byTags (SearchOptions.tags o)
          (byQuery (SearchOptions.query o)
             (byCollection (SearchOptions.collectionId o)
                (JS.values (InMemoryStorage.entries s)))))).

(** The options as the store reads them: an empty [collectionId] and a
    [limit] of 0 count as absent. *)
Definition asRead (o : SearchOptions.t) : SearchOptions.t :=
  SearchOptions.mk
    (SearchOptions.query o)
    (match SearchOptions.collectionId o with
     | Some c => if String.eqb c "" then None else Some c
     | None => None
     end)
    (SearchOptions.tags o)
    (match SearchOptions.limit o with
     | Some n => if n =? 0 then None else Some n
     | None => None
     end)
    (SearchOptions.offset o).

(** Offsets and limits are counts. *)
Definition counts (o : SearchOptions.t) : Prop :=
  (forall n, SearchOptions.offset o = Some n -> 0 <= n) /\
  (forall n, SearchOptions.limit o = Some n -> 0 <= n).

(** ** Section 3: the tag set of an entry *)

Definition trimmed (s : string) : Prop := JS.trim s = s.

(** "case-sensitive, duplicate-free, trimmed, empty strings excluded" *)
Definition tagSet (tags : list string) : Prop :=
  NoDup tags /\ Forall (fun t => trimmed t /\ t <> "") tags.

(** The first occurrence of every element, in order. *)
Fixpoint firstOccurrences (l : list string) : list string :=
  match l with
  | [] => []
  | x :: l' => x :: filter (fun y => negb (String.eqb y x)) (firstOccurrences l')
  end.

(** "normalizes tags (trim, drop empties, de-duplicate preserving first
    occurrence)" *)
Definition normalizeTags (tags : list string) : list string :=
  firstOccurrences (filter (fun t => negb (String.eqb t "")) (map JS.trim tags)).

(** A string of white space only. *)
Fixpoint whiteSpaceOnly (s : string) : bool :=
  match s with
  | EmptyString => true
  | String c s' => JS.isWhiteSpace c && whiteSpaceOnly s'
  end.

End Spec.

(* ================================================================== *)
(** * [src/cli/index.ts]: the argument parsers                          *)
(* ================================================================== *)

Module Cli.

(** The string value of each member of the enum [InputType]. *)
Definition inputTypeValue (type : InputType) : string :=
  match type with
  | Expression => "expression"
  | Explanation => "explanation"
  | Image => "image"
  end.

(** [parseInputType(type)]: the input type, or the message of the error
    it throws. *)
Definition parseInputType (type : string) : string + InputType :=
  let lowered := JS.toLowerCase type in
  if String.eqb lowered "expression" || String.eqb lowered "expr" then inr Expression
  else if String.eqb lowered "explanation" || String.eqb lowered "explain"
  then inr Explanation
  else if String.eqb lowered "image" || String.eqb lowered "img" then inr Image
  else inl ("Invalid input type: " ++ type
            ++ ". Use 'expression', 'explanation', or 'image'").

(** [parseTags(tagsString?)] *)
Definition parseTags (tagsString : option string) : list string :=
  match tagsString with
  | None => []
  | Some s =>
      if negb (JS.truthy s) then []
      else filter (fun tag => Z.of_nat (String.length tag) >? 0)
                  (map JS.trim (JS.split s ","))
  end.

End Cli.

(* ================================================================== *)
(** * [src/providers/OpenAIProvider.ts]: reading the model's answer     *)
(* ================================================================== *)

Module OpenAIProvider.

(** [Math.max(1, Math.min(10, count))], the value [setSuggestionCount]
    stores. *)
Definition clampSuggestionCount (count : Z) : Z := Z.max 1 (Z.min 10 count).

Definition isDigit (c : ascii) : bool :=
  let n := N_of_ascii c in ((48 <=? n) && (n <=? 57))%N.

(** The rest of a match of [/^\d+\./] after its first digit. *)
Fixpoint digitsThenDot (s : string) : bool :=
  match s with
  | EmptyString => false
  | String c s' =>
      if Ascii.eqb c "." then true
      else if isDigit c then digitsThenDot s'
      else false
  end.

(** [line.match(/^\d+\./)] is not [null]. *)
Definition numbered (line : string) : bool :=
  match line with
  | EmptyString => false
  | String c s' => isDigit c && digitsThenDot s'
  end.

(** The [while] loop that pads [lines]; [generic n] stands for the
    template string with the number [n], which holds text outside the
    code units 0..255. Five rounds are enough: the loop stops at five
    lines at the latest. *)
Fixpoint padLoop (generic : Z -> string) (suggestionCount : Z) (rounds : nat)
         (lines : list string) : list string :=
  match rounds with
  | O => lines
  | S rounds' =>
      let len := Z.of_nat (List.length lines) in
      if (len <? suggestionCount) && (len <? 5)
      then padLoop generic suggestionCount rounds' (lines ++ [generic (len + 1)])
      else lines
  end.

(** The lines of the answer that are kept, before padding. *)
Definition keptLines (suggestionCount : Z) (content : string) : list string :=
  JS.slice
    (filter (fun line => negb (JS.includes line ":"))
       (filter (fun line => negb (numbered line))
          (filter (fun line => Z.of_nat (String.length line) >? 0)
             (map JS.trim (JS.split content (ascii_of_nat 10))))))
    0 suggestionCount.

(** [parseSuggestions(content)] with [this.config.suggestionCount]. *)
Definition parseSuggestions (generic : Z -> string) (suggestionCount : Z)
           (content : string) : list string :=
  padLoop generic suggestionCount 5 (keptLines suggestionCount content).

End OpenAIProvider.

(* ================================================================== *)
(** * What a store built by the engine satisfies                        *)
(* ================================================================== *)

Module Integrity.

(** An entry as [saveEntry] admits it: its suggestion was generated for
    its input, its collection is in the store, its tags are a tag set. *)
Definition entryIntact (s : InMemoryStorage.t) (e : Entry.t) : Prop :=
  Suggestion.inputId (Entry.suggestion e) = ExpressionInput.id (Entry.input e) /\
  InMemoryStorage.getCollection s (Entry.collectionId e) <> None /\
  Spec.tagSet (Entry.tags e).

Definition intact (s : InMemoryStorage.t) : Prop :=
  InMemoryStorage.keyed s /\
  Forall (entryIntact s) (JS.values (InMemoryStorage.entries s)).

(** What a later store keeps of an earlier one: every input, suggestion
    and collection id that resolved still resolves. *)
Definition retains (s s' : InMemoryStorage.t) : Prop :=
  (forall i, InMemoryStorage.getInput s i <> None ->
             InMemoryStorage.getInput s' i <> None) /\
  (forall i, InMemoryStorage.getSuggestion s i <> None ->
             InMemoryStorage.getSuggestion s' i <> None) /\
  (forall i, InMemoryStorage.getCollection s i <> None ->
             InMemoryStorage.getCollection s' i <> None).

(** A response that carries a thrown error. *)
Definition failed (r : Session.response) : Prop :=
  match r with
  | Session.InputResponse (Throw _) | Session.SuggestionResponse (Throw _)
  | Session.CollectionResponse (Throw _) | Session.CollectionsResponse (Throw _)
  | Session.EntryResponse (Throw _) | Session.EntriesResponse (Throw _)
  | Session.DoneResponse (Throw _) => True
  | _ => False
  end.

(** The requests that only read. *)
Definition readOnly (rq : Session.request) : bool :=
  match rq with
  | Session.ListCollections | Session.ListEntries _
  | Session.SearchEntries _ _ | Session.SearchAllEntries _ _ _ => true
  | _ => false
  end.

End Integrity.

(* ================================================================== *)
(** * Sample data                                                       *)
(* ================================================================== *)

Module Sample.

(** A unary rendering of the call number: distinct calls, distinct ids. *)
Fixpoint tally (n : nat) : string :=
  match n with
  | O => EmptyString
  | S k => String "i" (tally k)
  end.

Definition uuids (n : nat) : string := String "u" (tally n).

Definition times (n : nat) : Z := 5000 + Z.of_nat n.

Definition host : Host.t := Host.mk uuids 0 times 0.

(** A stub provider that answers [["a", "b"]]. *)
Definition provider : LLMProvider.t :=
  LLMProvider.mk (fun _ _ => LLMProvider.Resolves (Some ["a"; "b"])) 0.

Definition input1 : ExpressionInput.t :=
  ExpressionInput.mk "i1" Expression "hello world" 1000.

Definition input2 : ExpressionInput.t :=
  ExpressionInput.mk "i2" Explanation "a quiet cafe" 1500.

Definition suggestion1 : Suggestion.t :=
  Suggestion.mk "s1" "i1" ["Greetings"; "salutations"] 1001.

Definition collection1 : Collection.t := Collection.mk "c1" "C1" 900.

Definition entry1 : Entry.t :=
  Entry.mk "e1" input1 suggestion1 "c1" ["x"; "y"] 2000.

Definition entry2 : Entry.t :=
  Entry.mk "e2" input1 suggestion1 "c1" ["y"] 3000.

Definition entry3 : Entry.t :=
  Entry.mk "e3" input1 suggestion1 "c2" ["x"] 2500.

Definition store : InMemoryStorage.t :=
  InMemoryStorage.mk
    [("i1", input1); ("i2", input2)]
    [("s1", suggestion1)]
    [("c1", collection1)]
    [("e1", entry1); ("e2", entry2); ("e3", entry3)].

Definition engine : VocaEngine.t := VocaEngine.mk host provider store.

(** A fourth entry, and [entry1] with other tags. *)
Definition entry4 : Entry.t :=
  Entry.mk "e4" input1 suggestion1 "c1" [] 4000.

Definition entry1b : Entry.t :=
  Entry.mk "e1" input1 suggestion1 "c1" ["z"] 2000.

(** Search options: a limit of 0, and a page of one entry. *)
Definition unlimited : SearchOptions.t :=
  SearchOptions.mk "" None None (Some 0) None.

Definition page : SearchOptions.t :=
  SearchOptions.mk "GREET" (Some "c1") (Some ["y"]) (Some 1) (Some 1).

(** An engine as it starts, with an empty store, and the calls of the
    usual workflow on it; its ids are ["u"], ["ui"], ["uii"], ... *)
Definition fresh : VocaEngine.t := VocaEngine.mk host provider InMemoryStorage.empty.

Definition workflow : list Session.request :=
  [Session.CreateCollection "C1";
   Session.AddInput Expression "hello world";
   Session.GenerateSuggestions "ui";
   Session.SaveEntry "ui" "uii" "u" (Some ["x"; "x"; "y"]);
   Session.UpdateEntryTags "uiii" [" z "]].

(** A search by collection, query and tag without pagination. *)
Definition byTag : SearchOptions.t :=
  SearchOptions.mk "Hello" (Some "c1") (Some ["x"]) None None.

(** A session with two calls of [addInput]. *)
Definition session : list Session.request :=
  [Session.AddInput Expression "  test  ";
   Session.CreateCollection "C";
   Session.AddInput Image "pic"].

(** SP, TAB, NBSP, SP. *)
Definition spaces : string :=
  String " " (String (ascii_of_nat 9) (String (ascii_of_nat 160) " ")).

End Sample.

(* ================================================================== *)
(** * Strings                                                           *)
(* ================================================================== *)

Section StringFacts.

Lemma trimStart_head (s : string) :
  JS.trimStart s = "" \/
  exists c r, JS.trimStart s = String c r /\ JS.isWhiteSpace c = false.
Proof.
  induction s as [|c s IH]; simpl; [now left|].
  destruct (JS.isWhiteSpace c) eqn:E; [exact IH|].
  right. now exists c, s.
Qed.

Lemma trimEnd_head (c : ascii) (s : string) :
  JS.isWhiteSpace c = false ->
  exists r, JS.trimEnd (String c s) = String c r.
Proof.
  intros H. simpl. rewrite H.
  destruct (JS.trimEnd s); eauto.
Qed.

Lemma trimEnd_idem (s : string) : JS.trimEnd (JS.trimEnd s) = JS.trimEnd s.
Proof.
  induction s as [|c s IH]; simpl; [reflexivity|].
  destruct (JS.trimEnd s) as [|a r] eqn:E.
  - destruct (JS.isWhiteSpace c) eqn:W; simpl; [reflexivity|].
    now rewrite W.
  - change (JS.trimEnd (String c (String a r)))
      with (match JS.trimEnd (String a r) with
            | EmptyString =>
                if JS.isWhiteSpace c then EmptyString else String c EmptyString
            | r' => String c r'
            end).
    now rewrite IH.
Qed.

Lemma trimStart_trimmed (s : string) :
  JS.trimStart (JS.trim s) = JS.trim s.
Proof.
  unfold JS.trim.
  destruct (trimStart_head s) as [E | (c & r & E & W)]; rewrite E.
  - reflexivity.
  - destruct (trimEnd_head c r W) as [r' E']. rewrite E'.
    simpl. now rewrite W.
Qed.

Lemma trim_idem (s : string) : JS.trim (JS.trim s) = JS.trim s.
Proof.
  unfold JS.trim at 1. rewrite trimStart_trimmed.
  unfold JS.trim. apply trimEnd_idem.
Qed.

Lemma trimEnd_empty (s : string) :
  JS.trimEnd s = "" <-> Spec.whiteSpaceOnly s = true.
Proof.
  induction s as [|c s IH]; simpl; [tauto|].
  destruct (JS.trimEnd s) as [|a r].
  - destruct (JS.isWhiteSpace c); simpl.
    + split; intros _; [now apply IH | reflexivity].
    + split; discriminate.
  - split; [discriminate|].
    rewrite andb_true_iff. intros [_ H]. apply IH in H. discriminate.
Qed.

Lemma trimStart_whiteSpaceOnly (s : string) :
  Spec.whiteSpaceOnly (JS.trimStart s) = Spec.whiteSpaceOnly s.
Proof.
  induction s as [|c s IH]; simpl; [reflexivity|].
  destruct (JS.isWhiteSpace c) eqn:W; simpl; [exact IH|].
  now rewrite W.
Qed.

Lemma trim_empty (s : string) :
  JS.trim s = "" <-> Spec.whiteSpaceOnly s = true.
Proof.
  unfold JS.trim. rewrite trimEnd_empty. now rewrite trimStart_whiteSpaceOnly.
Qed.

Lemma length_zero (s : string) :
  (Z.of_nat (String.length s) =? 0) = String.eqb s "".
Proof. destruct s; reflexivity. Qed.

Lemma length_positive (s : string) :
  (Z.of_nat (String.length s) >? 0) = negb (String.eqb s "").
Proof.
  destruct s; [reflexivity|].
  simpl String.length. rewrite Z.gtb_ltb.
  destruct (Z.ltb_spec 0 (Z.of_nat (S (String.length s)))); [reflexivity | lia].
Qed.

(** [!s || s.trim().length === 0] holds exactly when [s] trims to the
    empty string. *)
Lemma blank_trim (s : string) :
  VocaEngine.blank s = String.eqb (JS.trim s) "".
Proof.
  unfold VocaEngine.blank, JS.truthy. rewrite length_zero, negb_involutive.
  destruct (String.eqb_spec s ""); [now subst | reflexivity].
Qed.

Lemma blank_true (s : string) : VocaEngine.blank s = true <-> JS.trim s = "".
Proof. rewrite blank_trim. apply String.eqb_eq. Qed.

Lemma blank_false (s : string) : VocaEngine.blank s = false <-> JS.trim s <> "".
Proof. rewrite blank_trim. apply String.eqb_neq. Qed.

End StringFacts.

(* ================================================================== *)
(** * Arrays                                                            *)
(* ================================================================== *)

Section ArrayFacts.

Context {A : Type}.

Lemma insertSorted_perm (cmp : A -> A -> Z) (x : A) (l : list A) :
  Permutation (JS.insertSorted cmp x l) (x :: l).
Proof.
  induction l as [|y l IH]; simpl; [reflexivity|].
  destruct (cmp x y <=? 0); [reflexivity|].
  rewrite IH. apply perm_swap.
Qed.

Lemma sort_perm (cmp : A -> A -> Z) (l : list A) :
  Permutation (JS.sort cmp l) l.
Proof.
  induction l as [|x l IH]; simpl; [reflexivity|].
  unfold JS.sort in *. rewrite insertSorted_perm. now constructor.
Qed.

(** Sorting by a key, largest first: the comparator of both store
    listings has the form [key b - key a]. *)
Variable key : A -> Z.

Let desc (a b : A) : Z := key b - key a.

Lemma insertSorted_desc (x : A) (l : list A) :
  StronglySorted (fun a b => key b <= key a) l ->
  StronglySorted (fun a b => key b <= key a) (JS.insertSorted desc x l).
Proof.
  induction 1 as [|y l Hs IH Hy]; simpl.
  - repeat constructor.
  - unfold desc at 1. destruct (Z.leb_spec (key y - key x) 0) as [Hle|Hgt].
    + constructor; [now constructor|].
      constructor; [lia|].
      eapply Forall_impl; [|exact Hy]. simpl. intros; lia.
    + constructor; [exact IH|].
      eapply Permutation_Forall; [symmetry; apply insertSorted_perm|].
      constructor; [lia | exact Hy].
Qed.

Lemma sort_desc (l : list A) :
  StronglySorted (fun a b => key b <= key a) (JS.sort desc l).
Proof.
  induction l as [|x l IH]; simpl; [constructor|].
  now apply insertSorted_desc.
Qed.

(** Stability: the elements with one key keep their order. *)
Lemma insertSorted_stable (k : Z) (x : A) (l : list A) :
  filter (fun a => key a =? k) (JS.insertSorted desc x l)
  = filter (fun a => key a =? k) (x :: l).
Proof.
  induction l as [|y l IH]; [reflexivity|].
  simpl JS.insertSorted. unfold desc at 1.
  destruct (Z.leb_spec (key y - key x) 0) as [Hle|Hgt]; [reflexivity|].
  simpl in *. rewrite IH.
  destruct (Z.eqb_spec (key x) k), (Z.eqb_spec (key y) k); try reflexivity.
  lia.
Qed.

Lemma sort_stable (k : Z) (l : list A) :
  filter (fun a => key a =? k) (JS.sort desc l) = filter (fun a => key a =? k) l.
Proof.
  induction l as [|x l IH]; [reflexivity|].
  change (JS.sort desc (x :: l)) with (JS.insertSorted desc x (JS.sort desc l)).
  rewrite insertSorted_stable. simpl. now rewrite IH.
Qed.

(** A slice with a start and a length that are counts skips and takes. *)
Lemma slice_skip_take (l : list A) (start n : Z) :
  0 <= start -> 0 <= n ->
  JS.slice l start (start + n) = firstn (Z.to_nat n) (skipn (Z.to_nat start) l).
Proof.
  intros Hs Hn. unfold JS.slice, JS.relativeIndex.
  destruct (Z.ltb_spec start 0); [lia|].
  destruct (Z.ltb_spec (start + n) 0); [lia|].
  set (len := Z.of_nat (List.length l)).
  destruct (Z.le_gt_cases start len) as [Hle|Hgt].
  - rewrite (Z.min_l start len) by lia.
    destruct (Z.le_gt_cases (start + n) len) as [Hle'|Hgt'].
    + rewrite Z.min_l by lia. f_equal. lia.
    + rewrite Z.min_r by lia.
      rewrite !firstn_all2; try reflexivity; rewrite length_skipn; subst len; lia.
  - rewrite !Z.min_r by lia. rewrite Z.sub_diag. simpl.
    rewrite (skipn_all2 (n := Z.to_nat start)) by (subst len; lia).
    now rewrite firstn_nil.
Qed.

(** With the array's length as the limit, the slice is what remains. *)
Lemma slice_skip_all (l : list A) (start : Z) :
  0 <= start ->
  JS.slice l start (start + Z.of_nat (List.length l)) = skipn (Z.to_nat start) l.
Proof.
  intros Hs. rewrite slice_skip_take by lia.
  apply firstn_all2. rewrite length_skipn. lia.
Qed.

End ArrayFacts.

(* ================================================================== *)
(** * The store's search                                                *)
(* ================================================================== *)

Section SearchFacts.

(** The store's listings are sorted permutations of what they sort, and
    entries saved at the same time keep their insertion order. *)
Lemma mostRecentFirst_sorted (l : list Entry.t) :
  Permutation (Spec.mostRecentFirst l) l /\
  StronglySorted (fun a b => Entry.savedAt b <= Entry.savedAt a) (Spec.mostRecentFirst l) /\
  forall k, filter (fun e => Entry.savedAt e =? k) (Spec.mostRecentFirst l)
            = filter (fun e => Entry.savedAt e =? k) l.
Proof.
  unfold Spec.mostRecentFirst. split; [apply sort_perm|]. split.
  - apply (sort_desc Entry.savedAt).
  - intros k. apply (sort_stable Entry.savedAt).
Qed.

Lemma queryMatches_occursIn (query : string) (e : Entry.t) :
  InMemoryStorage.queryMatches (JS.toLowerCase query) e
  = Spec.occursIn query (ExpressionInput.content (Entry.input e))
    || existsb (Spec.occursIn query) (Suggestion.candidates (Entry.suggestion e))
    || existsb (Spec.occursIn query) (Entry.tags e).
Proof.
  unfold InMemoryStorage.queryMatches, Spec.occursIn, JS.some.
  destruct (JS.includes _ _); [reflexivity|].
  destruct (existsb _ (Suggestion.candidates _)); [reflexivity|].
  now destruct (existsb _ (Entry.tags _)).
Qed.

(** The method [Entry.matchesQuery] is the same test. *)
Lemma matchesQuery_queryMatches (query : string) (e : Entry.t) :
  Entry.matchesQuery e query = InMemoryStorage.queryMatches (JS.toLowerCase query) e.
Proof. reflexivity. Qed.

Lemma search_paginate (l : list Entry.t) (offset limit : option Z) :
  (forall n, offset = Some n -> 0 <= n) ->
  (forall n, limit = Some n -> 0 <= n) ->
  JS.slice l (JS.numberOr offset 0)
           (JS.numberOr offset 0 + JS.numberOr limit (Z.of_nat (List.length l)))
  = Spec.paginate offset
      (match limit with
       | Some n => if n =? 0 then None else Some n
       | None => None
       end) l.
Proof.
  intros Ho Hl.
  assert (Hoff : JS.numberOr offset 0 = match offset with Some n => n | None => 0 end).
  { destruct offset as [n|]; simpl; [|reflexivity].
    destruct (Z.eqb_spec n 0); congruence. }
  assert (H0 : 0 <= JS.numberOr offset 0).
  { rewrite Hoff. destruct offset as [n|]; [now apply Ho | lia]. }
  unfold Spec.paginate. rewrite <- Hoff.
  destruct limit as [n|]; simpl JS.numberOr at 3.
  - destruct (Z.eqb_spec n 0).
    + now apply slice_skip_all.
    + apply slice_skip_take; [exact H0 | now apply Hl].
  - now apply slice_skip_all.
Qed.

End SearchFacts.

(** ** The search procedure *)

Section SearchProcedure.

(** C1, as amended. A collection filter is applied when [collectionId] is
    supplied and non-empty, and a limit when [limit] is supplied and not
    0: read so, [InMemoryStorage.searchEntries] is the procedure of
    section 4.2 for every store and all options whose offset and limit
    are counts. It keeps the entries of the collection, then those the
    lower-cased query occurs in (content, a candidate or a tag), then
    those carrying every requested tag, sorts by [savedAt] descending,
    skips [offset] and takes at most [limit]. *)
Theorem searchEntries_procedure (s : InMemoryStorage.t) (o : SearchOptions.t) :
  Spec.counts o ->
  InMemoryStorage.searchEntries s o = Spec.searchEntries s (Spec.asRead o).
Proof.
  intros [Hoff Hlim].
  destruct o as [query collectionId tags limit offset]; simpl in *.
  unfold InMemoryStorage.searchEntries, Spec.searchEntries, Spec.asRead.
  cbn [SearchOptions.query SearchOptions.collectionId SearchOptions.tags
       SearchOptions.limit SearchOptions.offset].
  set (l0 := JS.values (InMemoryStorage.entries s)).
  (* stage 2 *)
  set (l1 := match collectionId with
             | Some c => if JS.truthy c then filter _ l0 else l0
             | None => l0
             end).
  assert (E1 : l1 = Spec.byCollection
                      (match collectionId with
                       | Some c => if String.eqb c "" then None else Some c
                       | None => None
                       end) l0).
  { subst l1. destruct collectionId as [c|]; [|reflexivity].
    unfold JS.truthy. now destruct (String.eqb c ""). }
  rewrite <- E1. clearbody l1. clear E1 l0.
  (* stage 3 *)
  set (l2 := if JS.truthy query then filter _ l1 else l1).
  assert (E2 : l2 = Spec.byQuery query l1).
  { subst l2. unfold Spec.byQuery, JS.truthy.
    destruct (String.eqb query ""); [reflexivity|]. simpl.
    apply filter_ext. intros e. apply queryMatches_occursIn. }
  rewrite <- E2. clearbody l2. clear E2 l1.
  (* stage 4 *)
  set (l3 := match tags with
             | Some tgs => if Z.of_nat (List.length tgs) >? 0 then filter _ l2 else l2
             | None => l2
             end).
  assert (E3 : l3 = Spec.byTags tags l2).
  { subst l3. destruct tags as [[|t tgs]|]; reflexivity. }
  rewrite <- E3. clearbody l3. clear E3 l2.
  (* stages 5 and 6 *)
  change (JS.sort InMemoryStorage.bySavedAtDesc l3) with (Spec.mostRecentFirst l3).
  now apply search_paginate.
Qed.

(** C1 as stated fails for a limit of 0: the store returns every entry
    where the procedure takes none. *)
Lemma searchEntries_limit_zero :
  InMemoryStorage.searchEntries Sample.store Sample.unlimited
  <> Spec.searchEntries Sample.store Sample.unlimited.
Proof. vm_compute. discriminate. Qed.

Lemma searchEntries_procedure_witness :
  Spec.counts Sample.page /\
  InMemoryStorage.searchEntries Sample.store Sample.page = [Sample.entry1].
Proof.
  assert (H : Spec.counts Sample.page).
  { split; intros n E; inversion E; lia. }
  split; [exact H|].
  rewrite (searchEntries_procedure Sample.store Sample.page H). reflexivity.
Defined.

End SearchProcedure.

(* ================================================================== *)
(** * The engine                                                        *)
(* ================================================================== *)

Ltac engine_unfold :=
  unfold VocaEngine.bind, VocaEngine.tryCatch, VocaEngine.reading,
    VocaEngine.writing, VocaEngine.construct, VocaEngine.askProvider,
    VocaEngine.throw, VocaEngine.ret in *.

Section Listing.

Lemma listEntries_existing (w : VocaEngine.t) (collectionId : string) :
  InMemoryStorage.getCollection (VocaEngine.storage w) collectionId <> None ->
  VocaEngine.listEntries collectionId w
  = (Ok (InMemoryStorage.listEntries (VocaEngine.storage w) collectionId), w).
Proof.
  intros H. unfold VocaEngine.listEntries. engine_unfold.
  destruct (InMemoryStorage.getCollection _ _); [reflexivity | congruence].
Qed.

Lemma listEntries_missing (w : VocaEngine.t) (collectionId : string) :
  InMemoryStorage.getCollection (VocaEngine.storage w) collectionId = None ->
  VocaEngine.listEntries collectionId w = (Throw (CollectionNotFound collectionId), w).
Proof.
  intros H. unfold VocaEngine.listEntries. engine_unfold. now rewrite H.
Qed.

(** C2. For a collection id that resolves, [searchEntries(collectionId, "")]
    is the call [listEntries(collectionId)]: it returns the same ordered
    list, the store's listing of that collection, and leaves the engine
    as it was. *)
Theorem searchEntries_empty_query (w : VocaEngine.t) (collectionId : string) :
  InMemoryStorage.getCollection (VocaEngine.storage w) collectionId <> None ->
  VocaEngine.searchEntries collectionId "" w = VocaEngine.listEntries collectionId w /\
  VocaEngine.listEntries collectionId w
  = (Ok (InMemoryStorage.listEntries (VocaEngine.storage w) collectionId), w).
Proof.
  intros H. split; [reflexivity | now apply listEntries_existing].
Qed.

Lemma searchEntries_empty_query_witness :
  VocaEngine.searchEntries "c1" "" Sample.engine
  = (Ok [Sample.entry2; Sample.entry1], Sample.engine).
Proof.
  destruct (searchEntries_empty_query Sample.engine "c1") as [E1 E2].
  - discriminate.
  - rewrite E1, E2. reflexivity.
Defined.

(** C10. For a collection id that resolves: a query of white space only
    gives the same ordered list as [listEntries(collectionId)], and any
    other query is passed to the store trimmed, together with the
    collection id. *)
Theorem searchEntries_trims_query (w : VocaEngine.t) (collectionId query : string) :
  InMemoryStorage.getCollection (VocaEngine.storage w) collectionId <> None ->
  (Spec.whiteSpaceOnly query = true ->
   VocaEngine.searchEntries collectionId query w = VocaEngine.listEntries collectionId w /\
   VocaEngine.listEntries collectionId w
   = (Ok (InMemoryStorage.listEntries (VocaEngine.storage w) collectionId), w)) /\
  (Spec.whiteSpaceOnly query = false ->
   VocaEngine.searchEntries collectionId query w
   = (Ok (InMemoryStorage.searchEntries (VocaEngine.storage w)
            (SearchOptions.mk (JS.trim query) (Some collectionId) None None None)), w)).
Proof.
  intros H. split; intros Hq.
  - split; [|now apply listEntries_existing].
    unfold VocaEngine.searchEntries.
    now rewrite (proj2 (blank_true query) (proj2 (trim_empty query) Hq)).
  - unfold VocaEngine.searchEntries.
    assert (Hb : VocaEngine.blank query = false).
    { apply blank_false. intros E. apply trim_empty in E. congruence. }
    rewrite Hb. engine_unfold.
    destruct (InMemoryStorage.getCollection _ _); [reflexivity | congruence].
Qed.

Lemma searchEntries_trims_query_witness :
  VocaEngine.searchEntries "c1" Sample.spaces Sample.engine
  = (Ok [Sample.entry2; Sample.entry1], Sample.engine) /\
  VocaEngine.searchEntries "c1" "  X " Sample.engine
  = (Ok [Sample.entry1], Sample.engine).
Proof.
  assert (H : InMemoryStorage.getCollection (VocaEngine.storage Sample.engine) "c1"
              <> None) by discriminate.
  destruct (searchEntries_trims_query Sample.engine "c1" Sample.spaces H) as [Hw _].
  destruct (searchEntries_trims_query Sample.engine "c1" "  X " H) as [_ Hn].
  split.
  - destruct (Hw eq_refl) as [E1 E2]. rewrite E1, E2. reflexivity.
  - rewrite (Hn eq_refl). reflexivity.
Defined.

End Listing.

Section SavingEntries.

(** What [saveEntry] does, by cases on the three lookups and the
    ownership test. *)
Lemma saveEntry_cases (w : VocaEngine.t) (inputId suggestionId collectionId : string)
      (tags : option (list string)) :
  VocaEngine.saveEntry inputId suggestionId collectionId tags w =
  match InMemoryStorage.getInput (VocaEngine.storage w) inputId with
  | None => (Throw (InputNotFound inputId), w)
  | Some input =>
      match InMemoryStorage.getSuggestion (VocaEngine.storage w) suggestionId with
      | None => (Throw (SuggestionNotFound suggestionId), w)
      | Some suggestion =>
          match InMemoryStorage.getCollection (VocaEngine.storage w) collectionId with
          | None => (Throw (CollectionNotFound collectionId), w)
          | Some _ =>
              if String.eqb (Suggestion.inputId suggestion) inputId
              then
                let '(entry, h) :=
                  Entry.new input suggestion collectionId
                    (Some (match tags with
                           | Some tags => VocaEngine.cleanTags tags
                           | None => []
                           end)) None (VocaEngine.host w) in
                (Ok entry,
                 VocaEngine.mk h (VocaEngine.llmProvider w)
                   (snd (InMemoryStorage.saveEntry (VocaEngine.storage w) entry)))
              else (Throw SuggestionNotOfInput, w)
          end
      end
  end.
Proof.
  unfold VocaEngine.saveEntry. engine_unfold.
  destruct (InMemoryStorage.getInput _ _); [|reflexivity].
  destruct (InMemoryStorage.getSuggestion _ _) as [sg|]; [|reflexivity].
  destruct (InMemoryStorage.getCollection _ _); [|reflexivity].
  destruct (String.eqb (Suggestion.inputId sg) inputId); reflexivity.
Qed.



(** C9. A call of [saveEntry] that fails leaves the engine as it was, and
    with it the store's entries: nothing is written before the error is
    raised. The error is one of the four the method raises. *)
Theorem saveEntry_atomic (w w' : VocaEngine.t)
        (inputId suggestionId collectionId : string) (tags : option (list string))
        (e : Error) :
  VocaEngine.saveEntry inputId suggestionId collectionId tags w = (Throw e, w') ->
  w' = w /\
  InMemoryStorage.entries (VocaEngine.storage w')
  = InMemoryStorage.entries (VocaEngine.storage w) /\
  (e = InputNotFound inputId \/ e = SuggestionNotFound suggestionId \/
   e = CollectionNotFound collectionId \/ e = SuggestionNotOfInput).
Proof.
  rewrite saveEntry_cases.
  destruct (InMemoryStorage.getInput _ _) as [i|].
  2: { intros E; inversion E; subst; auto. }
  destruct (InMemoryStorage.getSuggestion _ _) as [sg|].
  2: { intros E; inversion E; subst; auto. }
  destruct (InMemoryStorage.getCollection _ _) as [c|].
  2: { intros E; inversion E; subst; auto 6. }
  destruct (String.eqb (Suggestion.inputId sg) inputId).
  - destruct (Entry.new _ _ _ _ _ _). discriminate.
  - intros E; inversion E; subst; auto 6.
Qed.

Lemma saveEntry_atomic_witness :
  VocaEngine.saveEntry "i1" "s1" "c9" None Sample.engine
  = (Throw (CollectionNotFound "c9"), Sample.engine) /\
  InMemoryStorage.entries (VocaEngine.storage Sample.engine)
  = [("e1", Sample.entry1); ("e2", Sample.entry2); ("e3", Sample.entry3)].
Proof.
  assert (E : VocaEngine.saveEntry "i1" "s1" "c9" None Sample.engine
              = (Throw (CollectionNotFound "c9"), Sample.engine)) by reflexivity.
  split; [exact E|].
  destruct (saveEntry_atomic Sample.engine Sample.engine "i1" "s1" "c9" None
              (CollectionNotFound "c9") E) as (_ & H & _).
  exact (eq_trans H eq_refl).
Defined.

End SavingEntries.

(* ================================================================== *)
(** * Maps and the store                                                *)
(* ================================================================== *)

Section MapFacts.

Context {V : Type}.

Lemma get_set_same (m : JS.Map V) (k : string) (v : V) :
  JS.get (JS.set m k v) k = Some v.
Proof.
  induction m as [|[k' v'] m IH]; simpl.
  - now rewrite String.eqb_refl.
  - destruct (String.eqb k' k) eqn:E; simpl.
    + now rewrite String.eqb_refl.
    + now rewrite E.
Qed.

Lemma get_set_other (m : JS.Map V) (k k0 : string) (v : V) :
  k0 <> k -> JS.get (JS.set m k v) k0 = JS.get m k0.
Proof.
  intros Hne. induction m as [|[k' v'] m IH]; simpl.
  - apply String.eqb_neq in Hne. rewrite String.eqb_sym. now rewrite Hne.
  - destruct (String.eqb_spec k' k) as [->|Hk]; simpl.
    + destruct (String.eqb_spec k k0); [congruence|].
      destruct (String.eqb_spec k k0); [congruence | reflexivity].
    + now rewrite IH.
Qed.

Lemma get_keyed (id : V -> string) (m : JS.Map V) (k : string) (v : V) :
  InMemoryStorage.keyedBy id m -> JS.get m k = Some v -> id v = k.
Proof.
  unfold InMemoryStorage.keyedBy.
  induction 1 as [|[k' v'] m Hk _ IH]; simpl; [discriminate|].
  destruct (String.eqb_spec k' k) as [->|]; [|exact IH].
  intros E. inversion E; subst. exact Hk.
Qed.

Lemma set_keyed (id : V -> string) (m : JS.Map V) (k : string) (v : V) :
  id v = k -> InMemoryStorage.keyedBy id m -> InMemoryStorage.keyedBy id (JS.set m k v).
Proof.
  unfold InMemoryStorage.keyedBy. intros Hv.
  induction 1 as [|[k' v'] m Hk Hm IH]; simpl.
  - now repeat constructor.
  - destruct (String.eqb k' k); constructor; auto.
Qed.

Lemma delete_keyed (id : V -> string) (m : JS.Map V) (k : string) :
  InMemoryStorage.keyedBy id m -> InMemoryStorage.keyedBy id (JS.delete m k).
Proof.
  unfold InMemoryStorage.keyedBy.
  induction 1 as [|[k' v'] m Hk Hm IH]; simpl; [constructor|].
  destruct (String.eqb k' k); [exact Hm | now constructor].
Qed.

End MapFacts.

Section Suggestions.

(** C7. [generateSuggestions(inputId)] on a store that holds its records
    under their ids: it fails with a NotFoundError when the input id does
    not resolve; it fails with a ProviderError, writing nothing, when the
    provider rejects or resolves with no candidates; otherwise it returns
    a suggestion with the provider's candidates, which are not empty, and
    with the input's id as [inputId], and the store holds that suggestion
    under its id. *)
Theorem generateSuggestions_outcomes (w : VocaEngine.t) (inputId : string) :
  InMemoryStorage.keyed (VocaEngine.storage w) ->
  (InMemoryStorage.getInput (VocaEngine.storage w) inputId = None ->
   exists e,
     VocaEngine.generateSuggestions inputId w = (Throw e, w) /\
     kindOf e = NotFoundError /\ e = InputNotFound inputId) /\
  (forall input,
     InMemoryStorage.getInput (VocaEngine.storage w) inputId = Some input ->
     let outcome :=
       fst (LLMProvider.generateVocabularySuggestions (VocaEngine.llmProvider w) input) in
     ((exists shown, outcome = LLMProvider.Rejects shown)
      \/ outcome = LLMProvider.Resolves None
      \/ outcome = LLMProvider.Resolves (Some []) ->
      exists e w',
        VocaEngine.generateSuggestions inputId w = (Throw e, w') /\
        kindOf e = ProviderError /\
        (exists cause, e = GenerationFailed cause) /\
        VocaEngine.storage w' = VocaEngine.storage w) /\
     (forall c candidates,
        outcome = LLMProvider.Resolves (Some (c :: candidates)) ->
        exists suggestion w',
          VocaEngine.generateSuggestions inputId w = (Ok suggestion, w') /\
          Suggestion.inputId suggestion = ExpressionInput.id input /\
          Suggestion.candidates suggestion = c :: candidates /\
          Suggestion.candidates suggestion <> [] /\
          InMemoryStorage.getSuggestion (VocaEngine.storage w')
            (Suggestion.id suggestion) = Some suggestion)).
Proof.
  intros (Hin & _). split.
  - intros Hnone. exists (InputNotFound inputId).
    unfold VocaEngine.generateSuggestions. engine_unfold. rewrite Hnone. auto.
  - intros input Hsome outcome.
    assert (Hid : ExpressionInput.id input = inputId)
      by (eapply get_keyed; eassumption).
    unfold VocaEngine.generateSuggestions. engine_unfold. rewrite Hsome.
    subst outcome. simpl.
    destruct (LLMProvider.answers _ _ input) as [[[|c cs]|]|shown]; split.
    + intros _. eexists _, _. split; [reflexivity|]. eauto.
    + discriminate.
    + intros [[? H]|[H|H]]; discriminate.
    + intros c' cs' E. inversion E; subst c' cs'.
      destruct (Suggestion.new inputId (c :: cs) None (VocaEngine.host w))
        as [sg h] eqn:En.
      unfold Suggestion.new in En.
      destruct (Host.idOr None (VocaEngine.host w)) as [i h1].
      destruct (Host.now h1) as [now h2]. inversion En; subst sg h. clear En.
      eexists _, _. split; [reflexivity|]. simpl.
      repeat split; auto; try discriminate.
      unfold InMemoryStorage.getSuggestion. simpl. apply get_set_same.
    + intros _. eexists _, _. split; [reflexivity|]. eauto.
    + discriminate.
    + intros _. eexists _, _. split; [reflexivity|]. eauto.
    + discriminate.
Qed.

Lemma sample_store_keyed : InMemoryStorage.keyed Sample.store.
Proof. repeat split; repeat constructor. Qed.

Lemma generateSuggestions_outcomes_witness :
  exists suggestion w',
    VocaEngine.generateSuggestions "i1" Sample.engine = (Ok suggestion, w') /\
    Suggestion.inputId suggestion = "i1" /\
    Suggestion.candidates suggestion = ["a"; "b"] /\
    Suggestion.candidates suggestion <> [] /\
    InMemoryStorage.getSuggestion (VocaEngine.storage w') (Suggestion.id suggestion)
    = Some suggestion.
Proof.
  destruct (generateSuggestions_outcomes Sample.engine "i1" sample_store_keyed)
    as [_ H].
  destruct (H Sample.input1 eq_refl) as [_ Hok].
  exact (Hok "a" ["b"] eq_refl).
Defined.

End Suggestions.

(* ================================================================== *)
(** * Identifiers across calls                                          *)
(* ================================================================== *)

Section Identifiers.

Lemma advances_refl (h : Host.t) : Host.advances h h.
Proof. split; [reflexivity | lia]. Qed.

Lemma advances_trans (h1 h2 h3 : Host.t) :
  Host.advances h1 h2 -> Host.advances h2 h3 -> Host.advances h1 h3.
Proof. intros [E1 L1] [E2 L2]. split; [congruence | lia]. Qed.

Lemma idOr_advances (i : option string) (h : Host.t) :
  Host.advances h (snd (Host.idOr i h)).
Proof.
  unfold Host.idOr, Host.uuidv4.
  destruct i as [s|]; [destruct (JS.truthy s)|]; split; simpl; auto; lia.
Qed.

Lemma now_advances (h : Host.t) : Host.advances h (snd (Host.now h)).
Proof. split; simpl; auto. Qed.

(** Every constructor reads an id or generates one, then reads the clock. *)
Lemma stamped_advances (i : option string) (h : Host.t) :
  Host.advances h (snd (Host.now (snd (Host.idOr i h)))).
Proof.
  eapply advances_trans; [apply idOr_advances | apply now_advances].
Qed.

Lemma input_new_advances ty c i h :
  Host.advances h (snd (ExpressionInput.new ty c i h)).
Proof.
  unfold ExpressionInput.new. generalize (stamped_advances i h).
  destruct (Host.idOr i h) as [i' h1]. unfold Host.now. simpl. auto.
Qed.

Lemma suggestion_new_advances inp cs i h :
  Host.advances h (snd (Suggestion.new inp cs i h)).
Proof.
  unfold Suggestion.new. generalize (stamped_advances i h).
  destruct (Host.idOr i h) as [i' h1]. unfold Host.now. simpl. auto.
Qed.

Lemma collection_new_advances n i h :
  Host.advances h (snd (Collection.new n i h)).
Proof.
  unfold Collection.new. generalize (stamped_advances i h).
  destruct (Host.idOr i h) as [i' h1]. unfold Host.now. simpl. auto.
Qed.

Lemma entry_new_advances inp sug cid tgs i h :
  Host.advances h (snd (Entry.new inp sug cid tgs i h)).
Proof.
  unfold Entry.new. generalize (stamped_advances i h).
  destruct (Host.idOr i h) as [i' h1]. unfold Host.now. simpl. auto.
Qed.

Lemma ret_host {A : Type} (a : A) : VocaEngine.hostAdvances (VocaEngine.ret a).
Proof. intros w. apply advances_refl. Qed.

Lemma throw_host {A : Type} (e : Error) : VocaEngine.hostAdvances (@VocaEngine.throw A e).
Proof. intros w. apply advances_refl. Qed.

Lemma reading_host {A : Type} (f : InMemoryStorage.t -> A) :
  VocaEngine.hostAdvances (VocaEngine.reading f).
Proof. intros w. apply advances_refl. Qed.

Lemma writing_host {A : Type} (f : InMemoryStorage.t -> A * InMemoryStorage.t) :
  VocaEngine.hostAdvances (VocaEngine.writing f).
Proof.
  intros w. unfold VocaEngine.writing. destruct (f _). apply advances_refl.
Qed.

Lemma askProvider_host (input : ExpressionInput.t) :
  VocaEngine.hostAdvances (VocaEngine.askProvider input).
Proof.
  intros w. unfold VocaEngine.askProvider. simpl.
  destruct (LLMProvider.answers _ _ _); apply advances_refl.
Qed.

Lemma construct_host {A : Type} (f : Host.t -> A * Host.t) :
  (forall h, Host.advances h (snd (f h))) -> VocaEngine.hostAdvances (VocaEngine.construct f).
Proof.
  intros H w. unfold VocaEngine.construct. specialize (H (VocaEngine.host w)).
  now destruct (f _).
Qed.

Lemma bind_host {A B : Type} (m : VocaEngine.M A) (k : A -> VocaEngine.M B) :
  VocaEngine.hostAdvances m -> (forall a, VocaEngine.hostAdvances (k a)) -> VocaEngine.hostAdvances (VocaEngine.bind m k).
Proof.
  intros Hm Hk w. unfold VocaEngine.bind. specialize (Hm w).
  destruct (m w) as [[a|e] w1]; simpl in *; [|exact Hm].
  eapply advances_trans; [exact Hm | apply Hk].
Qed.

Lemma tryCatch_host {A : Type} (m : VocaEngine.M A) (k : Error -> VocaEngine.M A) :
  VocaEngine.hostAdvances m -> (forall e, VocaEngine.hostAdvances (k e)) -> VocaEngine.hostAdvances (VocaEngine.tryCatch m k).
Proof.
  intros Hm Hk w. unfold VocaEngine.tryCatch. specialize (Hm w).
  destruct (m w) as [[a|e] w1]; simpl in *; [exact Hm|].
  eapply advances_trans; [exact Hm | apply Hk].
Qed.

End Identifiers.

Create HintDb host discriminated.

#[export] Hint Resolve ret_host throw_host reading_host writing_host
  askProvider_host construct_host bind_host tryCatch_host
  input_new_advances suggestion_new_advances collection_new_advances
  entry_new_advances : host.

Ltac host_step :=
  match goal with
  | |- VocaEngine.hostAdvances (match ?x with _ => _ end) => destruct x
  | |- VocaEngine.hostAdvances (if ?x then _ else _) => destruct x
  | |- forall _, _ => intro
  | _ => progress eauto with host
  end.

Section IdentifiersOfCalls.

Lemma addInput_host ty c : VocaEngine.hostAdvances (VocaEngine.addInput ty c).
Proof. unfold VocaEngine.addInput. repeat host_step. Qed.

Lemma generateSuggestions_host i : VocaEngine.hostAdvances (VocaEngine.generateSuggestions i).
Proof.
  unfold VocaEngine.generateSuggestions.
  apply bind_host; [auto with host|]. intros [input|]; [|auto with host].
  apply tryCatch_host; [|auto with host].
  apply bind_host; [auto with host|]. intros [[|c cs]|]; auto with host.
Qed.

Lemma createCollection_host n : VocaEngine.hostAdvances (VocaEngine.createCollection n).
Proof. unfold VocaEngine.createCollection. repeat host_step. Qed.

Lemma saveEntry_host i s c tgs : VocaEngine.hostAdvances (VocaEngine.saveEntry i s c tgs).
Proof.
  unfold VocaEngine.saveEntry.
  apply bind_host; [auto with host|]. intros [input|]; [|auto with host].
  apply bind_host; [auto with host|]. intros [sg|]; [|auto with host].
  apply bind_host; [auto with host|]. intros [col|]; [|auto with host].
  destruct (negb _); auto with host.
Qed.

Lemma listEntries_host c : VocaEngine.hostAdvances (VocaEngine.listEntries c).
Proof.
  unfold VocaEngine.listEntries.
  apply bind_host; [auto with host|]. intros [col|]; auto with host.
Qed.

Lemma deleteEntry_host e : VocaEngine.hostAdvances (VocaEngine.deleteEntry e).
Proof.
  unfold VocaEngine.deleteEntry.
  apply bind_host; [auto with host|]. intros [x|]; auto with host.
Qed.

Lemma searchEntries_host c q : VocaEngine.hostAdvances (VocaEngine.searchEntries c q).
Proof.
  unfold VocaEngine.searchEntries.
  destruct (VocaEngine.blank q); [apply listEntries_host|].
  apply bind_host; [auto with host|]. intros [col|]; auto with host.
Qed.

Lemma renameCollection_host c n : VocaEngine.hostAdvances (VocaEngine.renameCollection c n).
Proof.
  unfold VocaEngine.renameCollection.
  destruct (VocaEngine.blank n); [auto with host|].
  apply bind_host; [auto with host|]. intros [col|]; [|auto with host].
  intros w. destruct (InMemoryStorage.updateCollection _ _ _). apply advances_refl.
Qed.

Lemma updateEntryTags_host e tgs : VocaEngine.hostAdvances (VocaEngine.updateEntryTags e tgs).
Proof.
  unfold VocaEngine.updateEntryTags.
  apply bind_host; [auto with host|]. intros [x|]; auto with host.
Qed.

Lemma perform_advances (rq : Session.request) (w : VocaEngine.t) :
  Host.advances (VocaEngine.host w) (VocaEngine.host (snd (Session.perform rq w))).
Proof.
  assert (H : forall A (wrap : Result A -> Session.response) (m : VocaEngine.M A),
             VocaEngine.hostAdvances m ->
             Host.advances (VocaEngine.host w)
               (VocaEngine.host (snd (Session.answer wrap m w)))).
  { intros A wrap m Hm. unfold Session.answer. specialize (Hm w).
    now destruct (m w). }
  destruct rq; unfold Session.perform; apply H.
  - apply addInput_host.
  - apply generateSuggestions_host.
  - apply createCollection_host.
  - apply reading_host.
  - apply saveEntry_host.
  - apply listEntries_host.
  - apply deleteEntry_host.
  - apply searchEntries_host.
  - apply renameCollection_host.
  - apply updateEntryTags_host.
  - apply reading_host.
Qed.

End IdentifiersOfCalls.

Section AddingInputs.

(** The input [addInput] builds for content that does not trim to the
    empty string, and the state it leaves. *)
Lemma addInput_ok (w : VocaEngine.t) (type : InputType) (content : string) :
  JS.trim content <> "" ->
  let h := VocaEngine.host w in
  let input :=
    ExpressionInput.mk (Host.uuids h (Host.uuidCalls h)) type (JS.trim content)
                       (Host.times h (Host.clockReads h)) in
  VocaEngine.addInput type content w
  = (Ok input,
     VocaEngine.mk
       (Host.mk (Host.uuids h) (S (Host.uuidCalls h))
                (Host.times h) (S (Host.clockReads h)))
       (VocaEngine.llmProvider w)
       (snd (InMemoryStorage.saveInput (VocaEngine.storage w) input))).
Proof.
  intros Hne. unfold VocaEngine.addInput.
  rewrite (proj2 (blank_false content) Hne). reflexivity.
Qed.

Lemma addInput_blank (w : VocaEngine.t) (type : InputType) (content : string) :
  JS.trim content = "" ->
  VocaEngine.addInput type content w = (Throw InputContentEmpty, w).
Proof.
  intros He. unfold VocaEngine.addInput.
  rewrite (proj2 (blank_true content) He). reflexivity.
Qed.

(** Only [addInput] answers with an input; its id is the next one of the
    host's sequence, which the call consumes. *)
Lemma perform_input (rq : Session.request) (w w1 : VocaEngine.t)
      (a : ExpressionInput.t) :
  Session.perform rq w = (Session.InputResponse (Ok a), w1) ->
  ExpressionInput.id a
  = Host.uuids (VocaEngine.host w) (Host.uuidCalls (VocaEngine.host w)) /\
  Host.uuidCalls (VocaEngine.host w1) = S (Host.uuidCalls (VocaEngine.host w)).
Proof.
  destruct rq; unfold Session.perform, Session.answer;
    try (match goal with |- context [let '(_, _) := ?m w in _] => destruct (m w) end;
         discriminate).
  destruct (String.eqb_spec (JS.trim content) "") as [He|Hne].
  - rewrite (addInput_blank w type content He). discriminate.
  - rewrite (addInput_ok w type content Hne). intros E. inversion E. subst. auto.
Qed.

Lemma run_cons (rq : Session.request) (rqs : list Session.request) (w : VocaEngine.t) :
  Session.run (rq :: rqs) w
  = (fst (Session.perform rq w) :: fst (Session.run rqs (snd (Session.perform rq w))),
     snd (Session.run rqs (snd (Session.perform rq w)))).
Proof.
  simpl. destruct (Session.perform rq w) as [r w1]. simpl.
  now destruct (Session.run rqs w1).
Qed.

(** An input returned anywhere in a session carries an id the host had
    not yet handed out when the session began. *)
Lemma run_ids (rqs : list Session.request) :
  forall (w : VocaEngine.t) (i : nat) (a : ExpressionInput.t),
    nth_error (fst (Session.run rqs w)) i = Some (Session.InputResponse (Ok a)) ->
    exists n, (Host.uuidCalls (VocaEngine.host w) <= n)%nat /\
              ExpressionInput.id a = Host.uuids (VocaEngine.host w) n.
Proof.
  induction rqs as [|rq rqs IH]; intros w i a.
  - destruct i; discriminate.
  - rewrite run_cons. simpl fst.
    pose proof (perform_advances rq w) as [Eu Le].
    destruct i as [|i]; simpl.
    + intros E. inversion E as [E'].
      destruct (perform_input rq w (snd (Session.perform rq w)) a) as [Hid _].
      { rewrite <- E'. now destruct (Session.perform rq w). }
      eauto.
    + intros E. destruct (IH _ _ _ E) as (n & Hn & Hid).
      exists n. split; [lia | congruence].
Qed.

Lemma run_ids_increase (rqs : list Session.request) :
  forall (w : VocaEngine.t) (i j : nat) (a b : ExpressionInput.t),
    (forall m n, Host.uuids (VocaEngine.host w) m = Host.uuids (VocaEngine.host w) n
                 -> m = n) ->
    (i < j)%nat ->
    nth_error (fst (Session.run rqs w)) i = Some (Session.InputResponse (Ok a)) ->
    nth_error (fst (Session.run rqs w)) j = Some (Session.InputResponse (Ok b)) ->
    ExpressionInput.id a <> ExpressionInput.id b.
Proof.
  induction rqs as [|rq rqs IH]; intros w i j a b Hinj Hlt.
  - destruct i; discriminate.
  - rewrite run_cons. simpl fst.
    pose proof (perform_advances rq w) as [Eu Le].
    destruct j as [|j]; [lia|]. destruct i as [|i]; simpl.
    + intros Ea Eb. inversion Ea as [Ea'].
      destruct (perform_input rq w (snd (Session.perform rq w)) a) as [Hid Hs].
      { rewrite <- Ea'. now destruct (Session.perform rq w). }
      destruct (run_ids _ _ _ _ Eb) as (n & Hn & Hb).
      rewrite Hid, Hb, Eu. intros E. apply Hinj in E. lia.
    + apply IH; [|lia]. now rewrite Eu.
Qed.

(** C8. For content that does not trim to the empty string [addInput]
    returns an input whose content is the trimmed content, and stores it;
    for content that trims to the empty string it fails with a
    ValidationError and changes nothing. When the host's generator never
    repeats an id, the inputs returned by two different calls in any
    session of calls on the engine have different ids. *)
Theorem addInput_content_and_id (w : VocaEngine.t) (type : InputType) (content : string) :
  (JS.trim content <> "" ->
   exists input w',
     VocaEngine.addInput type content w = (Ok input, w') /\
     ExpressionInput.content input = JS.trim content /\
     ExpressionInput.type input = type /\
     InMemoryStorage.getInput (VocaEngine.storage w') (ExpressionInput.id input)
     = Some input) /\
  (JS.trim content = "" ->
   exists e,
     VocaEngine.addInput type content w = (Throw e, w) /\
     kindOf e = ValidationError /\
     message e = "Input content cannot be empty") /\
  ((forall m n, Host.uuids (VocaEngine.host w) m = Host.uuids (VocaEngine.host w) n
                -> m = n) ->
   forall (rqs : list Session.request) (i j : nat) (a b : ExpressionInput.t),
     i <> j ->
     nth_error (fst (Session.run rqs w)) i = Some (Session.InputResponse (Ok a)) ->
     nth_error (fst (Session.run rqs w)) j = Some (Session.InputResponse (Ok b)) ->
     ExpressionInput.id a <> ExpressionInput.id b).
Proof.
  split; [|split].
  - intros Hne. eexists _, _. split; [now apply addInput_ok|].
    simpl. repeat split. apply get_set_same.
  - intros He. exists InputContentEmpty. split; [now apply addInput_blank | auto].
  - intros Hinj rqs i j a b Hij Ha Hb.
    destruct (Nat.lt_total i j) as [Hlt|[->|Hgt]]; [|congruence|].
    + eapply run_ids_increase; eassumption.
    + apply not_eq_sym. eapply run_ids_increase; eassumption.
Qed.

Lemma tally_injective (m n : nat) : Sample.tally m = Sample.tally n -> m = n.
Proof.
  revert n. induction m as [|m IH]; intros [|n]; simpl; try discriminate; auto.
  intros E. inversion E. f_equal. auto.
Qed.

Lemma sample_uuids_injective (m n : nat) : Sample.uuids m = Sample.uuids n -> m = n.
Proof. unfold Sample.uuids. intros E. inversion E. now apply tally_injective. Qed.

Lemma addInput_content_and_id_witness :
  (exists input w',
     VocaEngine.addInput Expression "  test  " Sample.engine = (Ok input, w') /\
     ExpressionInput.content input = "test") /\
  (exists e,
     VocaEngine.addInput Expression Sample.spaces Sample.engine
     = (Throw e, Sample.engine) /\
     kindOf e = ValidationError) /\
  "u" <> "uii".
Proof.
  split; [|split].
  - destruct (addInput_content_and_id Sample.engine Expression "  test  ")
      as (H & _ & _).
    destruct H as (input & w' & E & Hc & _); [discriminate|].
    exists input, w'. split; [exact E | exact Hc].
  - destruct (addInput_content_and_id Sample.engine Expression Sample.spaces)
      as (_ & H & _).
    destruct H as (e & E & Hk & _); [reflexivity|].
    exists e. split; [exact E | exact Hk].
  - destruct (addInput_content_and_id Sample.engine Expression "")
      as (_ & _ & H).
    apply (H sample_uuids_injective Sample.session 0%nat 2%nat
             (ExpressionInput.mk "u" Expression "test" 5000)
             (ExpressionInput.mk "uii" Image "pic" 5002));
      [discriminate | reflexivity | reflexivity].
Defined.

End AddingInputs.

(* ================================================================== *)
(** * Tags                                                              *)
(* ================================================================== *)

Section Tags.

Lemma indexOfFrom_lower (l : list string) (x : string) (i : Z) :
  In x l -> i <= JS.indexOfFrom l x i < i + Z.of_nat (List.length l).
Proof.
  revert i. induction l as [|y l IH]; intros i; simpl; [tauto|].
  destruct (String.eqb_spec y x) as [->|Hne]; [lia|].
  intros [E|Hin]; [congruence|]. specialize (IH (i + 1) Hin). lia.
Qed.

Lemma indexOfFrom_app (pre l : list string) (x : string) (i : Z) :
  ~ In x pre ->
  JS.indexOfFrom (pre ++ x :: l) x i = i + Z.of_nat (List.length pre).
Proof.
  revert i. induction pre as [|y pre IH]; intros i Hn; simpl.
  - rewrite String.eqb_refl. lia.
  - destruct (String.eqb_spec y x) as [->|Hne]; [simpl in Hn; tauto|].
    rewrite IH by (simpl in Hn; tauto). lia.
Qed.

Lemma indexOfFrom_app_in (pre l : list string) (x : string) (i : Z) :
  In x pre -> JS.indexOfFrom (pre ++ l) x i = JS.indexOfFrom pre x i.
Proof.
  revert i. induction pre as [|y pre IH]; intros i; simpl; [tauto|].
  destruct (String.eqb_spec y x) as [->|Hne]; [reflexivity|].
  intros [E|Hin]; [congruence | now apply IH].
Qed.

(** An element is at its first index exactly when it has not occurred
    before. *)
Lemma first_index_test (pre l : list string) (x : string) :
  (JS.indexOf (pre ++ x :: l) x =? Z.of_nat (List.length pre))
  = negb (existsb (String.eqb x) pre).
Proof.
  unfold JS.indexOf.
  destruct (existsb (String.eqb x) pre) eqn:E; simpl.
  - apply existsb_exists in E. destruct E as (y & Hin & Hy).
    apply String.eqb_eq in Hy. subst y.
    rewrite indexOfFrom_app_in by assumption.
    pose proof (indexOfFrom_lower pre x 0 Hin).
    apply Z.eqb_neq. lia.
  - rewrite indexOfFrom_app; [apply Z.eqb_eq; lia|].
    intros Hin. apply Bool.not_true_iff_false in E. apply E.
    apply existsb_exists. exists x. split; [assumption | apply String.eqb_refl].
Qed.

Lemma filter_twice {A : Type} (f g : A -> bool) (l : list A) :
  filter f (filter g l) = filter (fun x => g x && f x) l.
Proof.
  induction l as [|x l IH]; simpl; [reflexivity|].
  destruct (g x); simpl; [|exact IH].
  destruct (f x); now rewrite IH.
Qed.

Lemma filter_first_index (l pre : list string) :
  JS.filterFrom (fun tag index arr => JS.indexOf arr tag =? index)
                (pre ++ l) (Z.of_nat (List.length pre)) l
  = filter (fun y => negb (existsb (String.eqb y) pre)) (Spec.firstOccurrences l).
Proof.
  revert pre. induction l as [|x l IH]; intros pre; [reflexivity|].
  simpl JS.filterFrom. rewrite first_index_test.
  assert (E : JS.filterFrom (fun tag index arr => JS.indexOf arr tag =? index)
                (pre ++ x :: l) (Z.of_nat (List.length pre) + 1) l
              = filter (fun y => negb (existsb (String.eqb y) pre))
                  (filter (fun y => negb (String.eqb y x)) (Spec.firstOccurrences l))).
  { specialize (IH (pre ++ [x])%list).
    rewrite <- app_assoc, length_app in IH. simpl in IH.
    replace (Z.of_nat (List.length pre + 1)) with (Z.of_nat (List.length pre) + 1)
      in IH by lia.
    rewrite IH.
    rewrite filter_twice. apply filter_ext. intros y.
    rewrite existsb_app. simpl. rewrite orb_false_r, negb_orb.
    apply andb_comm. }
  rewrite E. simpl. now destruct (existsb (String.eqb x) pre).
Qed.

Lemma filter_all {A : Type} (f : A -> bool) (l : list A) :
  (forall x, f x = true) -> filter f l = l.
Proof.
  intros H. induction l as [|x l IH]; simpl; [reflexivity|].
  now rewrite H, IH.
Qed.

(** The engine's tag cleaning is the normalization the specification
    describes. *)
Lemma cleanTags_normalizeTags (tags : list string) :
  VocaEngine.cleanTags tags = Spec.normalizeTags tags.
Proof.
  unfold VocaEngine.cleanTags, Spec.normalizeTags, JS.filterIndexed.
  rewrite (filter_ext _ (fun t => negb (String.eqb t ""))) by apply length_positive.
  set (l := filter _ (map JS.trim tags)).
  change (JS.filterFrom ?f l 0 l)
    with (JS.filterFrom f ([] ++ l) (Z.of_nat (List.length (@nil string))) l).
  rewrite filter_first_index. now apply filter_all.
Qed.

Lemma firstOccurrences_In (l : list string) (x : string) :
  In x (Spec.firstOccurrences l) <-> In x l.
Proof.
  induction l as [|y l IH]; simpl; [tauto|].
  rewrite filter_In, IH, negb_true_iff, String.eqb_neq.
  destruct (String.eqb_spec y x); [subst; tauto|].
  intuition congruence.
Qed.

Lemma firstOccurrences_NoDup (l : list string) : NoDup (Spec.firstOccurrences l).
Proof.
  induction l as [|y l IH]; simpl; constructor.
  - rewrite filter_In, negb_true_iff, String.eqb_neq. tauto.
  - now apply NoDup_filter.
Qed.

Lemma normalizeTags_tagSet (tags : list string) : Spec.tagSet (Spec.normalizeTags tags).
Proof.
  unfold Spec.tagSet, Spec.normalizeTags. split; [apply firstOccurrences_NoDup|].
  apply Forall_forall. intros t Ht.
  apply firstOccurrences_In, filter_In in Ht. destruct Ht as [Hin Hne].
  apply in_map_iff in Hin. destruct Hin as (t0 & <- & _).
  split; [apply trim_idem|].
  now apply String.eqb_neq, negb_true_iff.
Qed.

(** A tag set stays one when a new tag, trimmed and not empty, is put at
    its end, and when tags are filtered out. *)
Lemma tagSet_snoc (tags : list string) (tag : string) :
  Spec.tagSet tags -> ~ In tag tags -> Spec.trimmed tag -> tag <> "" ->
  Spec.tagSet (tags ++ [tag]).
Proof.
  intros [Hnd Hall] Hnin Ht Hne. split.
  - apply NoDup_app; auto.
    + repeat constructor. simpl. tauto.
    + intros x Hx [<-|[]]. contradiction.
  - apply Forall_app. split; [assumption | now repeat constructor].
Qed.

Lemma tagSet_filter (f : string -> bool) (tags : list string) :
  Spec.tagSet tags -> Spec.tagSet (filter f tags).
Proof.
  intros [Hnd Hall]. split; [now apply NoDup_filter|].
  apply Forall_forall. intros t Ht. apply filter_In in Ht.
  rewrite Forall_forall in Hall. now apply Hall.
Qed.

Lemma arrayIncludes_In (l : list string) (x : string) :
  JS.arrayIncludes l x = true <-> In x l.
Proof.
  unfold JS.arrayIncludes. rewrite existsb_exists. split.
  - intros (y & Hin & E). apply String.eqb_eq in E. now subst.
  - intros Hin. exists x. split; [assumption | apply String.eqb_refl].
Qed.

Lemma entry_new_tags inp sug cid tgs i h :
  Entry.tags (fst (Entry.new inp sug cid (Some tgs) i h)) = tgs.
Proof.
  unfold Entry.new. destruct (Host.idOr i h) as [i' h1]. reflexivity.
Qed.

End Tags.

Section TagSets.

Lemma saveEntry_tags (w w' : VocaEngine.t) (inputId suggestionId collectionId : string)
      (tags : option (list string)) (e : Entry.t) :
  VocaEngine.saveEntry inputId suggestionId collectionId tags w = (Ok e, w') ->
  Entry.tags e = match tags with
                 | Some tags => VocaEngine.cleanTags tags
                 | None => []
                 end.
Proof.
  rewrite saveEntry_cases.
  destruct (InMemoryStorage.getInput _ _) as [i|]; [|discriminate].
  destruct (InMemoryStorage.getSuggestion _ _) as [sg|]; [|discriminate].
  destruct (InMemoryStorage.getCollection _ _) as [c|]; [|discriminate].
  destruct (String.eqb _ _); [|discriminate].
  match goal with
  | |- context [Entry.new ?a ?b ?c (Some ?t) ?i ?h] =>
      pose proof (entry_new_tags a b c t i h) as Ht;
      destruct (Entry.new a b c (Some t) i h) as [x h']
  end.
  intros E. inversion E; subst. exact Ht.
Qed.

Lemma updateEntryTags_tags (w w' : VocaEngine.t) (entryId : string)
      (tags : list string) (e : Entry.t) :
  VocaEngine.updateEntryTags entryId tags w = (Ok e, w') ->
  Entry.tags e = VocaEngine.cleanTags tags.
Proof.
  unfold VocaEngine.updateEntryTags. engine_unfold.
  destruct (InMemoryStorage.getEntry _ _) as [x|]; [|discriminate].
  match goal with
  | |- context [Entry.new ?a ?b ?c (Some ?t) ?i ?h] =>
      pose proof (entry_new_tags a b c t i h) as Ht;
      destruct (Entry.new a b c (Some t) i h) as [y h']
  end.
  intros E. inversion E; subst. exact Ht.
Qed.

(** C6, as amended. The tags of an entry that [saveEntry] or
    [updateEntryTags] returns are the given tags normalized (trimmed,
    empty ones dropped, first occurrences kept in order) and so form a tag
    set. The builders of [Entry] do not normalize: [removeTag] keeps a tag
    set a tag set; [addTag] does when the tag is trimmed and not empty;
    [updateTags] stores the list it is given. *)
Theorem tags_of_entries :
  (forall w w' inputId suggestionId collectionId tags e,
     VocaEngine.saveEntry inputId suggestionId collectionId tags w = (Ok e, w') ->
     Entry.tags e = Spec.normalizeTags (match tags with Some l => l | None => [] end) /\
     Spec.tagSet (Entry.tags e)) /\
  (forall w w' entryId tags e,
     VocaEngine.updateEntryTags entryId tags w = (Ok e, w') ->
     Entry.tags e = Spec.normalizeTags tags /\ Spec.tagSet (Entry.tags e)) /\
  (forall x tag h,
     Spec.tagSet (Entry.tags x) ->
     Spec.tagSet (Entry.tags (fst (Entry.removeTag x tag h)))) /\
  (forall x tag h,
     Spec.tagSet (Entry.tags x) -> Spec.trimmed tag -> tag <> "" ->
     Spec.tagSet (Entry.tags (fst (Entry.addTag x tag h)))) /\
  (forall x tags h, Entry.tags (fst (Entry.updateTags x tags h)) = tags).
Proof.
  split; [|split; [|split; [|split]]].
  - intros w w' inputId suggestionId collectionId tags e H.
    apply saveEntry_tags in H.
    assert (E : Entry.tags e
                = Spec.normalizeTags (match tags with Some l => l | None => [] end)).
    { rewrite H. destruct tags; [apply cleanTags_normalizeTags | reflexivity]. }
    split; [exact E|]. rewrite E. apply normalizeTags_tagSet.
  - intros w w' entryId tags e H.
    apply updateEntryTags_tags in H. rewrite H, cleanTags_normalizeTags.
    split; [reflexivity | apply normalizeTags_tagSet].
  - intros x tag h H.
    unfold Entry.removeTag. rewrite entry_new_tags. now apply tagSet_filter.
  - intros x tag h H Ht Hne. unfold Entry.addTag, Entry.hasTag.
    destruct (JS.arrayIncludes (Entry.tags x) tag) eqn:E; [exact H|].
    rewrite entry_new_tags. apply tagSet_snoc; auto.
    intros Hin. apply arrayIncludes_In in Hin. congruence.
  - intros. unfold Entry.updateTags. apply entry_new_tags.
Qed.

(** C6 as stated fails for the builders: [updateTags] keeps duplicates and
    [addTag] accepts the empty string. *)
Lemma entry_builders_keep_raw_tags :
  ~ Spec.tagSet (Entry.tags (fst (Entry.updateTags Sample.entry1 ["x"; "x"] Sample.host)))
  /\ ~ Spec.tagSet (Entry.tags (fst (Entry.addTag Sample.entry1 "" Sample.host))).
Proof.
  split; intros [Hnd Hall]; vm_compute in Hnd, Hall.
  - inversion Hnd as [|? ? Hnin _]. apply Hnin. now left.
  - inversion Hall as [|? ? _ H1]. inversion H1 as [|? ? _ H2].
    inversion H2 as [|? ? [_ Hne] _]. now apply Hne.
Qed.

Lemma tags_of_entries_witness :
  Spec.tagSet ["x"; "y"] /\
  Spec.tagSet (Entry.tags (fst (Entry.addTag Sample.entry2 "z" Sample.host))).
Proof.
  destruct tags_of_entries as (Hsave & _ & _ & Hadd & _).
  assert (Hy : Spec.tagSet (Entry.tags Sample.entry2)).
  { split; repeat constructor; simpl; auto; discriminate. }
  split.
  - assert (E : VocaEngine.saveEntry "i1" "s1" "c1" (Some ["x"; "x"; "y"]) Sample.engine
                = (Ok (Entry.mk "u" Sample.input1 Sample.suggestion1 "c1" ["x"; "y"] 5000),
                   snd (VocaEngine.saveEntry "i1" "s1" "c1" (Some ["x"; "x"; "y"])
                          Sample.engine))) by reflexivity.
    exact (proj2 (Hsave _ _ _ _ _ _ _ E)).
  - apply (Hadd Sample.entry2 "z" Sample.host Hy); [reflexivity | discriminate].
Defined.

End TagSets.

(* ================================================================== *)
(** * Renaming a collection                                             *)
(* ================================================================== *)

Section Renaming.

(** The store's update keeps the id and the creation time of the stored
    collection, whatever the payload holds. *)
Lemma updateCollection_keeps (s s' : InMemoryStorage.t) (id : string)
      (updates : Collection.partial) (c : Collection.t) :
  InMemoryStorage.updateCollection s id updates = (Ok c, s') ->
  exists existing,
    InMemoryStorage.getCollection s id = Some existing /\
    Collection.id c = Collection.id existing /\
    Collection.createdAt c = Collection.createdAt existing /\
    Collection.name c = match Collection.partial_name updates with
                        | Some n => n
                        | None => Collection.name existing
                        end /\
    InMemoryStorage.getCollection s' id = Some c.
Proof.
  unfold InMemoryStorage.updateCollection, InMemoryStorage.getCollection.
  destruct (JS.get (InMemoryStorage.collections s) id) as [existing|]; [|discriminate].
  intros E. inversion E; subst. exists existing. simpl.
  repeat split. apply get_set_same.
Qed.

Lemma updateCollection_missing (s : InMemoryStorage.t) (id : string)
      (updates : Collection.partial) :
  InMemoryStorage.getCollection s id = None ->
  InMemoryStorage.updateCollection s id updates = (Throw (CollectionNotFound id), s).
Proof.
  unfold InMemoryStorage.updateCollection, InMemoryStorage.getCollection.
  now intros ->.
Qed.

(** So does the engine's [renameCollection], which sets the trimmed name. *)
Lemma renameCollection_keeps (w w' : VocaEngine.t) (collectionId newName : string)
      (c : Collection.t) :
  VocaEngine.renameCollection collectionId newName w = (Ok c, w') ->
  exists existing,
    InMemoryStorage.getCollection (VocaEngine.storage w) collectionId = Some existing /\
    Collection.id c = Collection.id existing /\
    Collection.createdAt c = Collection.createdAt existing /\
    Collection.name c = JS.trim newName.
Proof.
  unfold VocaEngine.renameCollection.
  destruct (VocaEngine.blank newName); [discriminate|]. engine_unfold.
  destruct (InMemoryStorage.getCollection _ collectionId) eqn:G; [|discriminate].
  destruct (InMemoryStorage.updateCollection _ _ _) as [r s'] eqn:U.
  intros E. inversion E; subst.
  apply updateCollection_keeps in U. destruct U as (ex & G' & Hi & Hc & Hn & _).
  simpl in Hn. exists ex. repeat split; congruence.
Qed.

(** C5, where the code departs from it. The builder [Collection.rename]
    calls the constructor, which stamps the new value with the current
    time: the id is kept, the creation time is not. The collection
    created at 900 and renamed at 5000 comes back created at 5000. *)
Theorem rename_builder_restamps :
  (forall (c : Collection.t) (newName : string) (h : Host.t),
     Collection.id c <> "" ->
     let renamed := fst (Collection.rename c newName h) in
     Collection.id renamed = Collection.id c /\
     Collection.name renamed = newName /\
     Collection.createdAt renamed = Host.times h (Host.clockReads h)) /\
  Collection.createdAt (fst (Collection.rename Sample.collection1 "C2" Sample.host))
  <> Collection.createdAt Sample.collection1.
Proof.
  split; [|discriminate].
  intros c newName h Hid. unfold Collection.rename, Collection.new, Host.idOr, JS.truthy.
  apply String.eqb_neq in Hid. rewrite Hid. simpl. auto.
Qed.

Lemma rename_builder_restamps_witness :
  fst (Collection.rename Sample.collection1 "C2" Sample.host)
  = Collection.mk "c1" "C2" 5000.
Proof.
  destruct rename_builder_restamps as [H _].
  destruct (H Sample.collection1 "C2" Sample.host) as (Hi & Hn & Hc); [discriminate|].
  destruct (fst (Collection.rename Sample.collection1 "C2" Sample.host)) as [i n c].
  simpl in *. now subst.
Defined.

End Renaming.

(* ================================================================== *)
(** * Dates and their ISO strings                                       *)
(* ================================================================== *)

Section DateFacts.

(** [YearFromTime] is the year whose days include [Day t]. *)
Lemma year_bounds (t : Z) :
  Date.DayFromYear (Date.YearFromTime t) <= Date.Day t
  < Date.DayFromYear (Date.YearFromTime t + 1).
Proof.
  unfold Date.YearFromTime. set (d := Date.Day t). clearbody d.
  set (y := 1970 + 400 * d / 146097).
  assert (Hy : 146097 * (y - 1970) <= 400 * d < 146097 * (y - 1970) + 146097).
  { subst y. Z.to_euclidean_division_equations. lia. }
  clearbody y.
  destruct (Z.ltb_spec d (Date.DayFromYear y)) as [H1|H1].
  - replace (y - 1 + 1) with y by lia. split; [|lia].
    unfold Date.DayFromYear in *. Z.to_euclidean_division_equations; lia.
  - destruct (Z.leb_spec (Date.DayFromYear (y + 1)) d) as [H2|H2].
    + split; [lia|]. unfold Date.DayFromYear in *.
      Z.to_euclidean_division_equations; lia.
    + lia.
Qed.

(** A check that passes on a range holds of each of its members. *)
Lemma allFrom_spec (f : Z -> bool) (n : nat) :
  forall i, Date.allFrom n i f = true ->
            forall k, i <= k < i + Z.of_nat n -> f k = true.
Proof.
  induction n as [|n IH]; intros i H k Hk; [lia|].
  simpl in H. apply andb_true_iff in H. destruct H as [H0 H1].
  destruct (Z.eq_dec k i) as [->|Hne]; [exact H0|].
  apply (IH (i + 1) H1). lia.
Qed.

(** Shifting by 400 years shifts by 146097 days and keeps year lengths. *)
Lemma DayFromYear_shift (y q : Z) :
  Date.DayFromYear (y + 400 * q) = Date.DayFromYear y + 146097 * q.
Proof.
  unfold Date.DayFromYear.
  replace (y + 400 * q - 1969) with ((y - 1969) + (100 * q) * 4) by lia.
  replace (y + 400 * q - 1901) with ((y - 1901) + (4 * q) * 100) by lia.
  replace (y + 400 * q - 1601) with ((y - 1601) + q * 400) by lia.
  rewrite !Z.div_add by lia. lia.
Qed.

Lemma DaysInYear_shift (y q : Z) :
  Date.DaysInYear (y + 400 * q) = Date.DaysInYear y.
Proof.
  unfold Date.DaysInYear.
  replace ((y + 400 * q) mod 4) with (y mod 4)
    by (replace (400 * q) with ((100 * q) * 4) by lia; now rewrite Z.mod_add by lia).
  replace ((y + 400 * q) mod 100) with (y mod 100)
    by (replace (400 * q) with ((4 * q) * 100) by lia; now rewrite Z.mod_add by lia).
  replace ((y + 400 * q) mod 400) with (y mod 400)
    by (replace (400 * q) with (q * 400) by lia; now rewrite Z.mod_add by lia).
  reflexivity.
Qed.

(** Over one cycle of 400 years, consecutive first days differ by the
    length of the year. *)
Lemma days_in_year_cycle :
  Date.allFrom 400 0
    (fun r => Date.DayFromYear (r + 1) - Date.DayFromYear r =? Date.DaysInYear r)
  = true.
Proof. vm_compute. reflexivity. Qed.

Lemma days_in_year (y : Z) :
  Date.DayFromYear (y + 1) - Date.DayFromYear y = Date.DaysInYear y.
Proof.
  pose proof (Z.div_mod y 400 ltac:(lia)) as Hy.
  pose proof (Z.mod_pos_bound y 400 ltac:(lia)) as Hr.
  set (r := y mod 400) in *. set (q := y / 400) in *. clearbody r q.
  replace y with (r + 400 * q) by lia.
  replace (r + 400 * q + 1) with ((r + 1) + 400 * q) by lia.
  rewrite !DayFromYear_shift, DaysInYear_shift.
  pose proof (allFrom_spec _ _ _ days_in_year_cycle r ltac:(lia)) as H.
  apply Z.eqb_eq in H. lia.
Qed.

Lemma leapDay_range (y : Z) : Date.leapDay y = 0 \/ Date.leapDay y = 1.
Proof. unfold Date.leapDay. destruct (_ =? _); auto. Qed.

Lemma leapDay_year (y : Z) : Date.DaysInYear y = 365 + Date.leapDay y.
Proof.
  unfold Date.leapDay, Date.DaysInYear.
  repeat (destruct (negb _); simpl; try reflexivity).
Qed.

Lemma dayWithinYear_range (t : Z) :
  0 <= Date.DayWithinYear t < 365 + Date.InLeapYear t.
Proof.
  unfold Date.DayWithinYear, Date.InLeapYear.
  pose proof (year_bounds t). pose proof (days_in_year (Date.YearFromTime t)).
  rewrite leapDay_year in *. lia.
Qed.

(** The month of a day within the year contains that day. *)
Lemma monthOfDay_range (leap d : Z) :
  leap = 0 \/ leap = 1 -> 0 <= d < 365 + leap ->
  0 <= Date.monthOfDay leap d <= 11 /\
  Date.monthStart leap (Date.monthOfDay leap d) <= d
  < Date.monthStart leap (Date.monthOfDay leap d + 1).
Proof.
  intros Hl Hd. unfold Date.monthOfDay.
  repeat match goal with
         | |- context [if ?a <? ?b then _ else _] =>
             destruct (Z.ltb_spec a b); [destruct Hl; subst leap; cbn; lia|]
         end.
  destruct Hl; subst leap; cbn; lia.
Qed.

(** Month and date are legal calendar fields, and [MakeDay] of year,
    month and date is the day number again. *)
Lemma month_date (t : Z) :
  0 <= Date.MonthFromTime t <= 11 /\
  1 <= Date.DateFromTime t
    <= Date.daysInMonth (Date.YearFromTime t) (Date.MonthFromTime t + 1) /\
  Date.MakeDay (Date.YearFromTime t) (Date.MonthFromTime t) (Date.DateFromTime t)
  = Date.Day t.
Proof.
  pose proof (dayWithinYear_range t) as Hd.
  destruct (monthOfDay_range (Date.InLeapYear t) (Date.DayWithinYear t)
              (leapDay_range _) Hd) as (Hm & Hs).
  unfold Date.MakeDay, Date.daysInMonth, Date.DateFromTime.
  fold (Date.InLeapYear t). fold (Date.MonthFromTime t) in *.
  replace (Date.MonthFromTime t + 1 - 1) with (Date.MonthFromTime t) by lia.
  unfold Date.DayWithinYear in *. lia.
Qed.

(** The years of valid time values have at most six digits. *)
Lemma year_range (t : Z) :
  Date.valid t -> -271821 <= Date.YearFromTime t <= 275760.
Proof.
  intros Hv. pose proof (year_bounds t) as Hb.
  assert (Hd : -100000000 <= Date.Day t <= 100000000).
  { unfold Date.valid, Date.maxTime, Date.Day, Date.msPerDay in *.
    Z.to_euclidean_division_equations. lia. }
  unfold Date.DayFromYear in Hb. Z.to_euclidean_division_equations. lia.
Qed.

(** Hour, minute, second and millisecond are legal and [MakeTime] of them
    is the time within the day again. *)
Lemma time_fields (t : Z) :
  0 <= Date.HourFromTime t <= 23 /\ 0 <= Date.MinFromTime t <= 59 /\
  0 <= Date.SecFromTime t <= 59 /\ 0 <= Date.msFromTime t <= 999 /\
  Date.MakeTime (Date.HourFromTime t) (Date.MinFromTime t)
                (Date.SecFromTime t) (Date.msFromTime t)
  = Date.TimeWithinDay t.
Proof.
  unfold Date.HourFromTime, Date.MinFromTime, Date.SecFromTime, Date.msFromTime,
    Date.MakeTime, Date.TimeWithinDay, Date.msPerHour, Date.msPerMinute,
    Date.msPerSecond, Date.msPerDay.
  Z.to_euclidean_division_equations. lia.
Qed.

(** The ten digits, checked one by one: each reads back as its value and
    is neither sign. *)
Lemma digits_checked :
  Date.allFrom 10 0
    (fun n => match Date.digitValue (Date.digit n) with
              | Some v => (v =? n) && negb (Ascii.eqb (Date.digit n) "+")
                          && negb (Ascii.eqb (Date.digit n) "-")
              | None => false
              end)
  = true.
Proof. vm_compute. reflexivity. Qed.

Lemma digit_checked (n : Z) :
  0 <= n <= 9 ->
  Date.digitValue (Date.digit n) = Some n /\
  Date.digit n <> "+"%char /\ Date.digit n <> "-"%char.
Proof.
  intros H. pose proof (allFrom_spec _ _ _ digits_checked n ltac:(lia)) as C.
  cbv beta in C. destruct (Date.digitValue (Date.digit n)) as [v|]; [|discriminate].
  rewrite !andb_true_iff, !negb_true_iff, Z.eqb_eq, !Ascii.eqb_neq in C.
  destruct C as [[-> Hp] Hm]. auto.
Qed.

Lemma digitValue_digit (n : Z) :
  0 <= n <= 9 -> Date.digitValue (Date.digit n) = Some n.
Proof. intros H. now apply digit_checked. Qed.

(** Reading [w] digits off a number padded to [w] digits gives the number. *)
Lemma readDigits_pad (w : nat) :
  forall (n acc : Z) (rest : string),
    0 <= n < 10 ^ Z.of_nat w ->
    Date.readDigits w acc (Date.pad w n ++ rest) = Some (acc * 10 ^ Z.of_nat w + n, rest).
Proof.
  induction w as [|w IH]; intros n acc rest Hn.
  - simpl in *. f_equal. f_equal. lia.
  - rewrite Nat2Z.inj_succ, Z.pow_succ_r in * by lia.
    set (p := 10 ^ Z.of_nat w) in *.
    assert (Hp : 0 < p) by (subst p; apply Z.pow_pos_nonneg; lia).
    simpl Date.pad. fold p. simpl append.
    assert (Hq : 0 <= n / p <= 9).
    { split; [apply Z.div_pos; lia|].
      assert (n / p < 10); [apply Z.div_lt_upper_bound; lia | lia]. }
    simpl Date.readDigits. rewrite (digitValue_digit _ Hq).
    rewrite IH by (apply Z.mod_pos_bound; lia).
    f_equal. f_equal. fold p. pose proof (Z.div_mod n p ltac:(lia)). nia.
Qed.

Lemma expect_head (c : ascii) (s : string) : Date.expect c (String c s) = Some s.
Proof. simpl. now rewrite Ascii.eqb_refl. Qed.

Lemma readYear_unsigned (c : ascii) (s : string) :
  c <> "+"%char -> c <> "-"%char ->
  Date.readYear (String c s) = Date.readDigits 4 0 (String c s).
Proof.
  intros Hp Hm.
  destruct c as [[] [] [] [] [] [] [] []]; try reflexivity; congruence.
Qed.

Lemma readYear_digits (n : Z) (s : string) :
  0 <= n <= 9 ->
  Date.readYear (String (Date.digit n) s) = Date.readDigits 4 0 (String (Date.digit n) s).
Proof.
  intros H. destruct (digit_checked n H) as (_ & Hp & Hm).
  now apply readYear_unsigned.
Qed.

Lemma readYear_yearString (y : Z) (rest : string) :
  -999999 <= y <= 999999 ->
  Date.readYear (Date.yearString y ++ rest) = Some (y, rest).
Proof.
  intros Hy. unfold Date.yearString.
  destruct (Z.leb_spec 0 y) as [H0|H0]; simpl andb.
  - destruct (Z.leb_spec y 9999) as [H1|H1].
    + assert (Hq : 0 <= y / 1000 <= 9).
      { split; [apply Z.div_pos; lia|].
        assert (y / 1000 < 10); [apply Z.div_lt_upper_bound; lia | lia]. }
      pose proof (readDigits_pad 4 y 0 rest ltac:(simpl; lia)) as E.
      change (Date.pad 4 y) with
        (String (Date.digit (y / 1000)) (Date.pad 3 (y mod 1000))) in *.
      simpl append in *. rewrite readYear_digits by assumption.
      rewrite E. reflexivity.
    + destruct (Z.ltb_spec y 0); [lia|]. cbn [append].
      change (Date.readYear (String "+" ?s)) with (Date.readDigits 6 0 s).
      rewrite (readDigits_pad 6 (Z.abs y) 0 rest) by (simpl; lia).
      f_equal. f_equal. lia.
  - destruct (Z.ltb_spec y 0); [|lia]. cbn [append].
    change (Date.readYear (String "-" ?s))
      with (match Date.readDigits 6 0 s with
            | Some (y, r) => if y =? 0 then None else Some (- y, r)
            | None => None
            end).
    rewrite (readDigits_pad 6 (Z.abs y) 0 rest) by (simpl; lia).
    change (0 * 10 ^ Z.of_nat 6 + Z.abs y) with (Z.abs y).
    destruct (Z.eqb_spec (Z.abs y) 0); [lia|].
    f_equal. f_equal. lia.
Qed.

Lemma daysInMonth_le (y m : Z) : 1 <= m <= 12 -> Date.daysInMonth y m <= 31.
Proof.
  intros Hm. unfold Date.daysInMonth.
  assert (E : m = 1 \/ m = 2 \/ m = 3 \/ m = 4 \/ m = 5 \/ m = 6 \/ m = 7
              \/ m = 8 \/ m = 9 \/ m = 10 \/ m = 11 \/ m = 12) by lia.
  destruct (leapDay_range y) as [-> | ->];
    repeat (destruct E as [->|E]; [cbn; lia|]); subst; cbn; lia.
Qed.

(** The string [toISOString] gives for a valid time value parses to that
    time value: the format keeps milliseconds. *)
Lemma parse_toISOString (t : Z) :
  Date.valid t -> Date.parse (Date.toISOString t) = Some t.
Proof.
  intros Hv.
  pose proof (year_range t Hv) as Hy.
  destruct (month_date t) as (Hm & Hd & Hday).
  destruct (time_fields t) as (Hh & Hmi & Hs & Hms & Htime).
  assert (Hdim : Date.daysInMonth (Date.YearFromTime t) (Date.MonthFromTime t + 1) <= 31)
    by (apply daysInMonth_le; lia).
  unfold Date.parse, Date.toISOString.
  rewrite readYear_yearString by lia. cbn [Date.andThen append].
  rewrite expect_head. cbn [Date.andThen].
  rewrite readDigits_pad by (simpl; lia). cbn [Date.andThen append].
  rewrite expect_head. cbn [Date.andThen].
  rewrite readDigits_pad by (simpl; lia). cbn [Date.andThen append].
  rewrite expect_head. cbn [Date.andThen].
  rewrite readDigits_pad by (simpl; lia). cbn [Date.andThen append].
  rewrite expect_head. cbn [Date.andThen].
  rewrite readDigits_pad by (simpl; lia). cbn [Date.andThen append].
  rewrite expect_head. cbn [Date.andThen].
  rewrite readDigits_pad by (simpl; lia). cbn [Date.andThen append].
  rewrite expect_head. cbn [Date.andThen].
  rewrite (readDigits_pad 3 _ 0 "Z") by (simpl; lia). cbn [Date.andThen append].
  rewrite expect_head. cbn [Date.andThen].
  change (negb ("" =? "")%string) with false. cbv iota.
  change (0 * 10 ^ Z.of_nat 2 + ?x) with x.
  change (0 * 10 ^ Z.of_nat 3 + ?x) with x.
  replace (Date.MonthFromTime t + 1 - 1) with (Date.MonthFromTime t) by lia.
  rewrite Hday, Htime.
  replace ((1 <=? Date.MonthFromTime t + 1) && (Date.MonthFromTime t + 1 <=? 12)
           && (1 <=? Date.DateFromTime t)
           && (Date.DateFromTime t
               <=? Date.daysInMonth (Date.YearFromTime t) (Date.MonthFromTime t + 1)))
    with true
    by (symmetry; rewrite !andb_true_iff, !Z.leb_le; lia).
  replace ((Date.HourFromTime t <=? 23) && (Date.MinFromTime t <=? 59)
           && (Date.SecFromTime t <=? 59))
    with true
    by (symmetry; rewrite !andb_true_iff, !Z.leb_le; lia).
  cbn [negb orb].
  unfold Date.TimeClip, Date.MakeDate, Date.Day, Date.TimeWithinDay, Date.msPerDay.
  rewrite Z.mul_comm, <- Z.div_mod by lia.
  unfold Date.validb, Date.valid in *.
  destruct Hv as [Hv1 Hv2]. apply Z.leb_le in Hv1, Hv2. now rewrite Hv1, Hv2.
Qed.

End DateFacts.

(* ================================================================== *)
(** * Serialization                                                     *)
(* ================================================================== *)

Section Serialization.

Lemma idOr_given (i : string) (h : Host.t) :
  i <> "" -> Host.idOr (Some i) h = (i, h).
Proof.
  intros H. unfold Host.idOr, JS.truthy.
  apply String.eqb_neq in H. now rewrite H.
Qed.



End Serialization.

(* ================================================================== *)
(** * The store keeps its records under their ids                       *)
(* ================================================================== *)

Section Keys.

Lemma empty_keyed : InMemoryStorage.keyed InMemoryStorage.empty.
Proof. repeat split; constructor. Qed.

Lemma saveInput_keyed s x :
  InMemoryStorage.keyed s -> InMemoryStorage.keyed (snd (InMemoryStorage.saveInput s x)).
Proof.
  intros (Hi & Hs & Hc & He). repeat split; simpl; auto. now apply set_keyed.
Qed.

Lemma saveSuggestion_keyed s x :
  InMemoryStorage.keyed s ->
  InMemoryStorage.keyed (snd (InMemoryStorage.saveSuggestion s x)).
Proof.
  intros (Hi & Hs & Hc & He). repeat split; simpl; auto. now apply set_keyed.
Qed.

Lemma saveCollection_keyed s x :
  InMemoryStorage.keyed s ->
  InMemoryStorage.keyed (snd (InMemoryStorage.saveCollection s x)).
Proof.
  intros (Hi & Hs & Hc & He). repeat split; simpl; auto. now apply set_keyed.
Qed.

Lemma saveEntry_keyed s x :
  InMemoryStorage.keyed s -> InMemoryStorage.keyed (snd (InMemoryStorage.saveEntry s x)).
Proof.
  intros (Hi & Hs & Hc & He). repeat split; simpl; auto. now apply set_keyed.
Qed.

Lemma deleteEntry_keyed s i :
  InMemoryStorage.keyed s -> InMemoryStorage.keyed (InMemoryStorage.deleteEntry s i).
Proof.
  intros (Hi & Hs & Hc & He). repeat split; simpl; auto. now apply delete_keyed.
Qed.

Lemma updateCollection_keyed s i u :
  InMemoryStorage.keyed s ->
  InMemoryStorage.keyed (snd (InMemoryStorage.updateCollection s i u)).
Proof.
  intros (Hi & Hs & Hc & He). unfold InMemoryStorage.updateCollection.
  destruct (JS.get (InMemoryStorage.collections s) i) as [existing|] eqn:G;
    [|now repeat split].
  repeat split; simpl; auto. apply set_keyed; [|assumption].
  simpl. eapply get_keyed; eassumption.
Qed.

Lemma ret_keyed {A : Type} (a : A) : VocaEngine.staysKeyed (VocaEngine.ret a).
Proof. now intros w. Qed.

Lemma throw_keyed {A : Type} (e : Error) : VocaEngine.staysKeyed (@VocaEngine.throw A e).
Proof. now intros w. Qed.

Lemma reading_keyed {A : Type} (f : InMemoryStorage.t -> A) :
  VocaEngine.staysKeyed (VocaEngine.reading f).
Proof. now intros w. Qed.

Lemma construct_keyed {A : Type} (f : Host.t -> A * Host.t) :
  VocaEngine.staysKeyed (VocaEngine.construct f).
Proof. intros w. unfold VocaEngine.construct. now destruct (f _). Qed.

Lemma askProvider_keyed (input : ExpressionInput.t) :
  VocaEngine.staysKeyed (VocaEngine.askProvider input).
Proof.
  intros w. unfold VocaEngine.askProvider. simpl.
  now destruct (LLMProvider.answers _ _ _).
Qed.

Lemma writing_keyed {A : Type} (f : InMemoryStorage.t -> A * InMemoryStorage.t) :
  (forall s, InMemoryStorage.keyed s -> InMemoryStorage.keyed (snd (f s))) ->
  VocaEngine.staysKeyed (VocaEngine.writing f).
Proof.
  intros H w Hk. unfold VocaEngine.writing. specialize (H _ Hk).
  now destruct (f _).
Qed.

Lemma bind_keyed {A B : Type} (m : VocaEngine.M A) (k : A -> VocaEngine.M B) :
  VocaEngine.staysKeyed m -> (forall a, VocaEngine.staysKeyed (k a)) -> VocaEngine.staysKeyed (VocaEngine.bind m k).
Proof.
  intros Hm Hk w Hw. unfold VocaEngine.bind. specialize (Hm w Hw).
  destruct (m w) as [[a|e] w1]; simpl in *; [now apply Hk | exact Hm].
Qed.

Lemma tryCatch_keyed {A : Type} (m : VocaEngine.M A) (k : Error -> VocaEngine.M A) :
  VocaEngine.staysKeyed m -> (forall e, VocaEngine.staysKeyed (k e)) -> VocaEngine.staysKeyed (VocaEngine.tryCatch m k).
Proof.
  intros Hm Hk w Hw. unfold VocaEngine.tryCatch. specialize (Hm w Hw).
  destruct (m w) as [[a|e] w1]; simpl in *; [exact Hm | now apply Hk].
Qed.

End Keys.

Create HintDb keyed discriminated.

#[export] Hint Resolve ret_keyed throw_keyed reading_keyed construct_keyed
  askProvider_keyed writing_keyed bind_keyed tryCatch_keyed
  saveInput_keyed saveSuggestion_keyed saveCollection_keyed saveEntry_keyed
  deleteEntry_keyed updateCollection_keyed : keyed.

Ltac keyed_step :=
  match goal with
  | |- VocaEngine.staysKeyed (match ?x with _ => _ end) => destruct x
  | |- VocaEngine.staysKeyed (if ?x then _ else _) => destruct x
  | |- VocaEngine.staysKeyed (VocaEngine.bind _ _) => apply bind_keyed
  | |- VocaEngine.staysKeyed (VocaEngine.tryCatch _ _) => apply tryCatch_keyed
  | |- forall _, _ => intro
  | _ => solve [auto with keyed]
  end.

Section KeysOfCalls.

(** Every call of the engine leaves a keyed store keyed. *)
Lemma perform_keyed (rq : Session.request) (w : VocaEngine.t) :
  InMemoryStorage.keyed (VocaEngine.storage w) ->
  InMemoryStorage.keyed (VocaEngine.storage (snd (Session.perform rq w))).
Proof.
  assert (H : forall A (wrap : Result A -> Session.response) (m : VocaEngine.M A),
             VocaEngine.staysKeyed m ->
             InMemoryStorage.keyed (VocaEngine.storage w) ->
             InMemoryStorage.keyed
               (VocaEngine.storage (snd (Session.answer wrap m w)))).
  { intros A wrap m Hm Hw. unfold Session.answer. specialize (Hm w Hw).
    now destruct (m w). }
  destruct rq; unfold Session.perform; apply H.
  - unfold VocaEngine.addInput. repeat keyed_step.
  - unfold VocaEngine.generateSuggestions. repeat keyed_step.
  - unfold VocaEngine.createCollection. repeat keyed_step.
  - apply reading_keyed.
  - unfold VocaEngine.saveEntry. repeat keyed_step.
  - unfold VocaEngine.listEntries. repeat keyed_step.
  - unfold VocaEngine.deleteEntry. repeat keyed_step.
    apply writing_keyed. intros s Hs. now apply deleteEntry_keyed.
  - unfold VocaEngine.searchEntries, VocaEngine.listEntries. repeat keyed_step.
  - unfold VocaEngine.renameCollection. repeat keyed_step.
    intros w0 Hw0.
    pose proof (updateCollection_keyed _ collectionId
                  (Collection.mkPartial None (Some (JS.trim newName)) None) Hw0).
    now destruct (InMemoryStorage.updateCollection _ _ _).
  - unfold VocaEngine.updateEntryTags. repeat keyed_step.
  - apply reading_keyed.
Qed.

(** So does every session; in particular the store of an engine that
    started empty is keyed. *)
Lemma run_keyed (rqs : list Session.request) :
  forall w, InMemoryStorage.keyed (VocaEngine.storage w) ->
            InMemoryStorage.keyed (VocaEngine.storage (snd (Session.run rqs w))).
Proof.
  induction rqs as [|rq rqs IH]; intros w Hw; [exact Hw|].
  rewrite run_cons. simpl snd. apply IH. now apply perform_keyed.
Qed.

End KeysOfCalls.

(* ================================================================== *)
(** * More on maps                                                      *)
(* ================================================================== *)

Section MoreMapFacts.

Context {V : Type}.

Lemma get_absent_keys (m : JS.Map V) (k : string) :
  JS.get m k = None <-> ~ In k (map fst m).
Proof.
  induction m as [|[k' v'] m IH]; simpl; [tauto|].
  destruct (String.eqb_spec k' k) as [->|Hne].
  - split; [discriminate | tauto].
  - rewrite IH. tauto.
Qed.

Lemma set_fresh (m : JS.Map V) (k : string) (v : V) :
  JS.get m k = None -> JS.set m k v = (m ++ [(k, v)])%list.
Proof.
  induction m as [|[k' v'] m IH]; simpl; [reflexivity|].
  destruct (String.eqb k' k); [discriminate|].
  intros H. now rewrite IH.
Qed.

Lemma set_keys_present (m : JS.Map V) (k : string) (v : V) :
  JS.get m k <> None -> map fst (JS.set m k v) = map fst m.
Proof.
  induction m as [|[k' v'] m IH]; simpl; [congruence|].
  destruct (String.eqb_spec k' k) as [->|Hne]; simpl; [reflexivity|].
  intros H. now rewrite IH.
Qed.

Lemma set_distinct (m : JS.Map V) (k : string) (v : V) :
  JS.distinctKeys m -> JS.distinctKeys (JS.set m k v).
Proof.
  unfold JS.distinctKeys. intros Hd.
  destruct (JS.get m k) eqn:G.
  - rewrite set_keys_present; [assumption | congruence].
  - rewrite set_fresh, map_app by assumption. simpl.
    apply NoDup_app; auto.
    + repeat constructor. simpl. tauto.
    + intros x Hx [<-|[]]. now apply get_absent_keys in G.
Qed.

Lemma delete_absent (m : JS.Map V) (k : string) :
  JS.get m k = None -> JS.delete m k = m.
Proof.
  induction m as [|[k' v'] m IH]; simpl; [reflexivity|].
  destruct (String.eqb k' k); [discriminate|].
  intros H. now rewrite IH.
Qed.

Lemma delete_keys (m : JS.Map V) (k x : string) :
  In x (map fst (JS.delete m k)) -> In x (map fst m).
Proof.
  induction m as [|[k' v'] m IH]; simpl; [tauto|].
  destruct (String.eqb k' k); simpl; tauto.
Qed.

Lemma delete_distinct (m : JS.Map V) (k : string) :
  JS.distinctKeys m -> JS.distinctKeys (JS.delete m k).
Proof.
  unfold JS.distinctKeys.
  induction m as [|[k' v'] m IH]; simpl; intros Hd; [constructor|].
  inversion Hd as [|? ? Hn Hd']; subst.
  destruct (String.eqb k' k); [assumption|]. simpl. constructor; auto.
  intros Hin. apply Hn. eapply delete_keys. eassumption.
Qed.

Lemma get_delete_same (m : JS.Map V) (k : string) :
  JS.distinctKeys m -> JS.get (JS.delete m k) k = None.
Proof.
  unfold JS.distinctKeys.
  induction m as [|[k' v'] m IH]; simpl; intros Hd; [reflexivity|].
  inversion Hd as [|? ? Hn Hd']; subst.
  destruct (String.eqb_spec k' k) as [->|Hne].
  - now apply get_absent_keys.
  - simpl. destruct (String.eqb_spec k' k); [congruence | auto].
Qed.

Lemma get_delete_other (m : JS.Map V) (k k0 : string) :
  k0 <> k -> JS.get (JS.delete m k) k0 = JS.get m k0.
Proof.
  intros Hne. induction m as [|[k' v'] m IH]; simpl; [reflexivity|].
  destruct (String.eqb_spec k' k) as [->|Hk]; simpl.
  - destruct (String.eqb_spec k k0); [congruence | reflexivity].
  - now rewrite IH.
Qed.

Lemma values_set (m : JS.Map V) (k : string) (v x : V) :
  In x (JS.values (JS.set m k v)) -> x = v \/ In x (JS.values m).
Proof.
  unfold JS.values.
  induction m as [|[k' v'] m IH]; simpl; [intuition congruence|].
  destruct (String.eqb k' k); simpl; intuition congruence.
Qed.

Lemma values_delete (m : JS.Map V) (k : string) (x : V) :
  In x (JS.values (JS.delete m k)) -> In x (JS.values m).
Proof.
  unfold JS.values.
  induction m as [|[k' v'] m IH]; simpl; [tauto|].
  destruct (String.eqb k' k); simpl; tauto.
Qed.

Lemma get_values (m : JS.Map V) (k : string) (v : V) :
  JS.get m k = Some v -> In v (JS.values m).
Proof.
  unfold JS.values.
  induction m as [|[k' v'] m IH]; simpl; [discriminate|].
  destruct (String.eqb k' k); [intros E; inversion E; auto | auto].
Qed.

Lemma values_get (id : V -> string) (m : JS.Map V) (v : V) :
  InMemoryStorage.keyedBy id m -> In v (JS.values m) -> JS.get m (id v) <> None.
Proof.
  unfold InMemoryStorage.keyedBy, JS.values.
  induction 1 as [|[k' v'] m Hk _ IH]; simpl; [tauto|].
  intros [->|Hin]; simpl in *.
  - rewrite Hk, String.eqb_refl. discriminate.
  - destruct (String.eqb k' (id v)); [discriminate | auto].
Qed.

Lemma set_present (m : JS.Map V) (k k0 : string) (v : V) :
  JS.get m k0 <> None -> JS.get (JS.set m k v) k0 <> None.
Proof.
  destruct (String.eqb_spec k0 k) as [->|Hne].
  - rewrite get_set_same. discriminate.
  - now rewrite get_set_other.
Qed.

End MoreMapFacts.

(* ================================================================== *)
(** * The store: saving, deleting, exporting                            *)
(* ================================================================== *)

Section StoreFacts.

Lemma sample_store_distinct : InMemoryStorage.distinct Sample.store.
Proof.
  repeat split; unfold JS.distinctKeys; simpl;
    repeat (constructor; [simpl; intuition discriminate|]); constructor.
Qed.

(** X1. A record that is saved is found again under its id, and saving it
    changes what no other id of its kind resolves to; this holds of
    inputs, suggestions, collections and entries. *)
Theorem saved_record_is_found (s : InMemoryStorage.t) :
  (forall x,
     InMemoryStorage.getInput (snd (InMemoryStorage.saveInput s x)) (ExpressionInput.id x)
     = Some x /\
     forall i, i <> ExpressionInput.id x ->
               InMemoryStorage.getInput (snd (InMemoryStorage.saveInput s x)) i
               = InMemoryStorage.getInput s i) /\
  (forall x,
     InMemoryStorage.getSuggestion (snd (InMemoryStorage.saveSuggestion s x))
       (Suggestion.id x) = Some x /\
     forall i, i <> Suggestion.id x ->
               InMemoryStorage.getSuggestion (snd (InMemoryStorage.saveSuggestion s x)) i
               = InMemoryStorage.getSuggestion s i) /\
  (forall x,
     InMemoryStorage.getCollection (snd (InMemoryStorage.saveCollection s x))
       (Collection.id x) = Some x /\
     forall i, i <> Collection.id x ->
               InMemoryStorage.getCollection (snd (InMemoryStorage.saveCollection s x)) i
               = InMemoryStorage.getCollection s i) /\
  (forall x,
     InMemoryStorage.getEntry (snd (InMemoryStorage.saveEntry s x)) (Entry.id x)
     = Some x /\
     forall i, i <> Entry.id x ->
               InMemoryStorage.getEntry (snd (InMemoryStorage.saveEntry s x)) i
               = InMemoryStorage.getEntry s i).
Proof.
  split; [|split; [|split]]; intros x; split;
    try (apply get_set_same); intros i Hi; now apply get_set_other.
Qed.



(** X3. [deleteEntry] of the store: deleting an id that is not stored
    changes nothing (it is no error); in a store whose entry ids are
    distinct the id no longer resolves afterwards and deleting it again
    changes nothing; every other id resolves as before. *)
Theorem deleteEntry_removes (s : InMemoryStorage.t) (entryId : string) :
  (InMemoryStorage.getEntry s entryId = None ->
   InMemoryStorage.deleteEntry s entryId = s) /\
  (JS.distinctKeys (InMemoryStorage.entries s) ->
   InMemoryStorage.getEntry (InMemoryStorage.deleteEntry s entryId) entryId = None /\
   InMemoryStorage.deleteEntry (InMemoryStorage.deleteEntry s entryId) entryId
   = InMemoryStorage.deleteEntry s entryId) /\
  (forall i, i <> entryId ->
             InMemoryStorage.getEntry (InMemoryStorage.deleteEntry s entryId) i
             = InMemoryStorage.getEntry s i).
Proof.
  unfold InMemoryStorage.getEntry, InMemoryStorage.deleteEntry.
  destruct s as [ins sgs cls ens]. simpl. split; [|split].
  - intros H. now rewrite delete_absent.
  - intros Hd. pose proof (get_delete_same ens entryId Hd) as G.
    split; [exact G|]. now rewrite (delete_absent _ _ G).
  - intros i Hi. now apply get_delete_other.
Qed.

Lemma deleteEntry_removes_witness :
  InMemoryStorage.deleteEntry Sample.store "e9" = Sample.store /\
  InMemoryStorage.getEntry (InMemoryStorage.deleteEntry Sample.store "e2") "e2" = None.
Proof.
  destruct (deleteEntry_removes Sample.store "e9") as [H9 _].
  destruct (deleteEntry_removes Sample.store "e2") as (_ & H2 & _).
  split; [now apply H9|].
  destruct sample_store_distinct as (_ & _ & _ & Hd). now apply H2.
Defined.

Lemma setAll_rebuilds {V : Type} (id : V -> string) (m2 : JS.Map V) :
  forall m1,
    InMemoryStorage.keyedBy id m2 -> JS.distinctKeys (m1 ++ m2)%list ->
    InMemoryStorage.setAll id (JS.values m2) m1 = (m1 ++ m2)%list.
Proof.
  unfold InMemoryStorage.setAll, InMemoryStorage.keyedBy, JS.distinctKeys.
  induction m2 as [|[k v] m2 IH]; intros m1 Hk Hd; simpl.
  - now rewrite app_nil_r.
  - inversion Hk as [|? ? Hkv Hk']; subst. simpl in Hkv. rewrite Hkv.
    assert (G : JS.get m1 k = None).
    { apply get_absent_keys. intros Hin.
      rewrite map_app in Hd. apply NoDup_remove_2 in Hd. apply Hd.
      apply in_or_app. now left. }
    rewrite (set_fresh _ _ _ G).
    change ((k, v) :: m2) with ([(k, v)] ++ m2)%list in Hd.
    rewrite app_assoc in Hd. rewrite (IH _ Hk' Hd).
    now rewrite <- app_assoc.
Qed.

(** X4. Importing what a store exports rebuilds that store, whatever the
    importing store held before: records, keys and iteration order are
    the same. This holds of a store that keeps each record under its own
    id, with no id twice. *)
Theorem export_import_round_trip (s s0 : InMemoryStorage.t) :
  InMemoryStorage.keyed s -> InMemoryStorage.distinct s ->
  InMemoryStorage.importData s0 (InMemoryStorage.exportData s) = s.
Proof.
  intros (Ki & Ks & Kc & Ke) (Di & Ds & Dc & De).
  unfold InMemoryStorage.importData, InMemoryStorage.exportData,
    InMemoryStorage.importInto. simpl.
  rewrite !setAll_rebuilds by assumption. now destruct s.
Qed.

Lemma export_import_round_trip_witness :
  InMemoryStorage.importData InMemoryStorage.empty
    (InMemoryStorage.exportData Sample.store) = Sample.store.
Proof.
  apply export_import_round_trip;
    [exact sample_store_keyed | exact sample_store_distinct].
Defined.

End StoreFacts.

(* ================================================================== *)
(** * The store: listings and search results                            *)
(* ================================================================== *)

Section ListingFacts.

Lemma sort_ext {A : Type} (cmp1 cmp2 : A -> A -> Z) (l : list A) :
  (forall a b, cmp1 a b = cmp2 a b) -> JS.sort cmp1 l = JS.sort cmp2 l.
Proof.
  intros H. induction l as [|x l IH]; [reflexivity|].
  simpl. rewrite IH. generalize (JS.sort cmp2 l). intros l'.
  induction l' as [|y l' IH']; simpl; [reflexivity|].
  now rewrite H, IH'.
Qed.

Lemma sorted_weaken {A : Type} (R R' : A -> A -> Prop) (l : list A) :
  (forall a b, R a b -> R' a b) -> StronglySorted R l -> StronglySorted R' l.
Proof.
  intros H. induction 1 as [|x l Hs IH Hx]; constructor; auto.
  eapply Forall_impl; [|exact Hx]. auto.
Qed.

Lemma slice_incl {A : Type} (l : list A) (a b : Z) (x : A) :
  In x (JS.slice l a b) -> In x l.
Proof.
  unfold JS.slice. intros H.
  set (k := Z.to_nat (JS.relativeIndex (Z.of_nat (List.length l)) a)) in *.
  set (n := Z.to_nat _) in H.
  rewrite <- (firstn_skipn k l). apply in_or_app. right.
  rewrite <- (firstn_skipn n (skipn k l)). apply in_or_app. now left.
Qed.

Lemma slice_length {A : Type} (l : list A) (a n : Z) :
  0 <= a -> 0 < n -> Z.of_nat (List.length (JS.slice l a (a + n))) <= n.
Proof.
  intros Ha Hn. rewrite slice_skip_take by lia.
  rewrite length_firstn. lia.
Qed.

(** X5. [listCollections] returns the stored collections, each once,
    oldest first; collections created at the same time stay in the
    order in which they were first stored. *)
Theorem listCollections_oldest_first (s : InMemoryStorage.t) :
  let listed := InMemoryStorage.listCollections s in
  Permutation listed (JS.values (InMemoryStorage.collections s)) /\
  StronglySorted (fun a b => Collection.createdAt a <= Collection.createdAt b) listed /\
  forall k, filter (fun c => Collection.createdAt c =? k) listed
            = filter (fun c => Collection.createdAt c =? k)
                     (JS.values (InMemoryStorage.collections s)).
Proof.
  unfold InMemoryStorage.listCollections. cbv zeta. split; [apply sort_perm|].
  set (l := JS.values (InMemoryStorage.collections s)).
  rewrite (sort_ext _ (fun a b => - Collection.createdAt b - - Collection.createdAt a))
    by (intros; lia).
  split.
  - eapply sorted_weaken; [|apply (sort_desc (fun c => - Collection.createdAt c))].
    simpl. intros; lia.
  - intros k.
    pose proof (sort_stable (fun c => - Collection.createdAt c) (- k) l) as H.
    rewrite (filter_ext (fun c => Collection.createdAt c =? k)
                        (fun c => - Collection.createdAt c =? - k)).
    + rewrite H. apply filter_ext. intros c.
      destruct (Z.eqb_spec (- Collection.createdAt c) (- k)),
               (Z.eqb_spec (Collection.createdAt c) k); auto; lia.
    + intros c.
      destruct (Z.eqb_spec (- Collection.createdAt c) (- k)),
               (Z.eqb_spec (Collection.createdAt c) k); auto; lia.
Qed.

(** X6. [listEntries] of the store returns exactly the stored entries of
    the collection, most recently saved first; entries saved at the same
    time stay in the order in which their ids were first stored. *)
Theorem listEntries_of_collection (s : InMemoryStorage.t) (collectionId : string) :
  let listed := InMemoryStorage.listEntries s collectionId in
  (forall e, In e listed <->
             In e (JS.values (InMemoryStorage.entries s)) /\
             Entry.collectionId e = collectionId) /\
  StronglySorted (fun a b => Entry.savedAt b <= Entry.savedAt a) listed /\
  forall k, filter (fun e => Entry.savedAt e =? k) listed
            = filter (fun e => (Entry.savedAt e =? k)
                               && String.eqb (Entry.collectionId e) collectionId)
                     (JS.values (InMemoryStorage.entries s)).
Proof.
  unfold InMemoryStorage.listEntries. cbv zeta. split; [|split].
  - intros e. rewrite (Permutation_in' (eq_refl e) (sort_perm _ _)).
    rewrite filter_In, String.eqb_eq. tauto.
  - apply (sort_desc Entry.savedAt).
  - intros k. unfold InMemoryStorage.bySavedAtDesc.
    rewrite (sort_stable Entry.savedAt), filter_twice.
    apply filter_ext. intros e. apply andb_comm.
Qed.

(** X7. What [searchEntries] of the store finds. Every entry returned is
    stored, belongs to the requested collection (when a non-empty id is
    given), matches the query as [Entry.matchesQuery] decides it (when
    the query is not empty) and has every requested tag as
    [Entry.hasTags] decides it. When neither an offset nor a limit is
    given, every stored entry of that kind is returned. A limit above 0,
    with an offset that is a count, bounds the number returned. *)
Theorem searchEntries_finds (s : InMemoryStorage.t) (o : SearchOptions.t) :
  let wanted (e : Entry.t) :=
    In e (JS.values (InMemoryStorage.entries s)) /\
    (forall c, SearchOptions.collectionId o = Some c -> c <> "" ->
               Entry.collectionId e = c) /\
    (SearchOptions.query o <> "" ->
     Entry.matchesQuery e (SearchOptions.query o) = true) /\
    (forall tags, SearchOptions.tags o = Some tags -> Entry.hasTags e tags = true) in
  (forall e, In e (InMemoryStorage.searchEntries s o) -> wanted e) /\
  (SearchOptions.offset o = None -> SearchOptions.limit o = None ->
   forall e, wanted e -> In e (InMemoryStorage.searchEntries s o)) /\
  (forall n a, SearchOptions.limit o = Some n -> 0 < n ->
               JS.numberOr (SearchOptions.offset o) 0 = a -> 0 <= a ->
               Z.of_nat (List.length (InMemoryStorage.searchEntries s o)) <= n).
Proof.
  destruct o as [query collectionId tags limit offset]. cbv zeta.
  unfold InMemoryStorage.searchEntries.
  cbn [SearchOptions.query SearchOptions.collectionId SearchOptions.tags
       SearchOptions.limit SearchOptions.offset].
  set (l0 := JS.values (InMemoryStorage.entries s)).
  set (l1 := match collectionId with
             | Some c => if JS.truthy c then filter _ l0 else l0
             | None => l0
             end).
  set (l2 := if JS.truthy query then filter _ l1 else l1).
  set (l3 := match tags with
             | Some tgs => if Z.of_nat (List.length tgs) >? 0 then filter _ l2 else l2
             | None => l2
             end).
  assert (H1 : forall e, In e l1 <->
                 In e l0 /\ (forall c, collectionId = Some c -> c <> "" ->
                                       Entry.collectionId e = c)).
  { intros e. subst l1. destruct collectionId as [c|].
    - unfold JS.truthy. destruct (String.eqb_spec c "") as [->|Hc]; simpl.
      + split; [intros H; split; [exact H|] | tauto].
        intros c E. inversion E; subst. congruence.
      + rewrite filter_In, String.eqb_eq. split.
        * intros [H E]. split; [exact H|]. intros c' E'. inversion E'; subst. auto.
        * intros [H E]. split; [exact H|]. now apply E.
    - split; [intros H; split; [exact H|]; discriminate | tauto]. }
  assert (H2 : forall e, In e l2 <->
                 In e l1 /\ (query <> "" -> Entry.matchesQuery e query = true)).
  { intros e. subst l2. unfold JS.truthy.
    destruct (String.eqb_spec query "") as [->|Hq]; simpl.
    - tauto.
    - rewrite filter_In, <- matchesQuery_queryMatches. tauto. }
  assert (H3 : forall e, In e l3 <->
                 In e l2 /\ (forall tgs, tags = Some tgs -> Entry.hasTags e tgs = true)).
  { intros e. subst l3. destruct tags as [[|t tgs]|].
    - simpl. split; [intros H; split; [exact H|] | tauto].
      intros tgs E. inversion E. reflexivity.
    - change (Z.of_nat (List.length (t :: tgs)) >? 0) with true. cbv iota.
      rewrite filter_In. split.
      + intros [H E]. split; [exact H|]. intros tgs' E'. inversion E'; subst. exact E.
      + intros [H E]. split; [exact H|]. exact (E _ eq_refl).
    - split; [intros H; split; [exact H|]; discriminate | tauto]. }
  assert (Hs : forall e, In e (JS.sort InMemoryStorage.bySavedAtDesc l3) <-> In e l3).
  { intros e. apply (Permutation_in' (eq_refl e) (sort_perm _ _)). }
  split; [|split].
  - intros e H. apply slice_incl, Hs, H3 in H. destruct H as [H Ht].
    apply H2 in H. destruct H as [H Hq]. apply H1 in H. tauto.
  - intros -> -> e (Hin & Hc & Hq & Ht). simpl JS.numberOr.
    rewrite (slice_skip_all _ 0) by lia. simpl skipn.
    apply Hs, H3. split; [|exact Ht]. apply H2. split; [|exact Hq].
    apply H1. tauto.
  - intros n a -> Hn Ha Ha0. rewrite Ha.
    replace (JS.numberOr (Some n) _) with n
      by (simpl; destruct (Z.eqb_spec n 0); [lia | reflexivity]).
    now apply slice_length.
Qed.

Lemma searchEntries_finds_witness :
  In Sample.entry1 (InMemoryStorage.searchEntries Sample.store Sample.byTag) /\
  Z.of_nat (List.length (InMemoryStorage.searchEntries Sample.store Sample.page)) <= 1.
Proof.
  destruct (searchEntries_finds Sample.store Sample.byTag) as (_ & Hall & _).
  destruct (searchEntries_finds Sample.store Sample.page) as (_ & _ & Hlim).
  split.
  - apply Hall; [reflexivity | reflexivity|].
    split; [simpl; auto|]. split; [|split].
    + intros c E. inversion E; subst. reflexivity.
    + reflexivity.
    + intros tags E. inversion E; subst. reflexivity.
  - apply (Hlim 1 1); [reflexivity | lia | reflexivity | lia].
Defined.

End ListingFacts.

(* ================================================================== *)
(** * The engine: collections, deletion, tag updates, search            *)
(* ================================================================== *)

Section EngineOutcomes.

Lemma listCollections_In (s : InMemoryStorage.t) (c : Collection.t) :
  In c (InMemoryStorage.listCollections s)
  <-> In c (JS.values (InMemoryStorage.collections s)).
Proof.
  unfold InMemoryStorage.listCollections.
  apply (Permutation_in' (eq_refl c) (sort_perm _ _)).
Qed.

(** X8. [createCollection]: a name that trims to the empty string is
    refused with "Collection name cannot be empty" and nothing changes;
    any other name gives a collection that carries the trimmed name,
    passes its own [isValidName], displays as its name, resolves under
    its id and is listed by [listCollections]. *)
Theorem createCollection_outcomes (w : VocaEngine.t) (name : string) :
  (JS.trim name = "" ->
   VocaEngine.createCollection name w = (Throw CollectionNameEmpty, w)) /\
  (JS.trim name <> "" ->
   exists c w',
     VocaEngine.createCollection name w = (Ok c, w') /\
     Collection.name c = JS.trim name /\
     Collection.isValidName c = true /\
     Collection.getDisplayName c = Collection.name c /\
     InMemoryStorage.getCollection (VocaEngine.storage w') (Collection.id c) = Some c /\
     In c (InMemoryStorage.listCollections (VocaEngine.storage w'))).
Proof.
  unfold VocaEngine.createCollection. split; intros H.
  - now rewrite (proj2 (blank_true name) H).
  - rewrite (proj2 (blank_false name) H). engine_unfold.
    unfold Collection.new, Host.idOr, Host.uuidv4, Host.now. simpl.
    eexists _, _. split; [reflexivity|]. simpl.
    unfold Collection.isValidName, Collection.getDisplayName. simpl.
    rewrite trim_idem, length_positive.
    apply String.eqb_neq in H. rewrite H.
    assert (G : forall m k v, @JS.get Collection.t (JS.set m k v) k = Some v)
      by (intros; apply get_set_same).
    repeat split.
    + apply G.
    + apply listCollections_In. eapply get_values. apply G.
Qed.

Lemma createCollection_outcomes_witness :
  VocaEngine.createCollection Sample.spaces Sample.engine
  = (Throw CollectionNameEmpty, Sample.engine) /\
  exists c w',
    VocaEngine.createCollection "  Daily  " Sample.engine = (Ok c, w') /\
    Collection.name c = "Daily".
Proof.
  destruct (createCollection_outcomes Sample.engine Sample.spaces) as [Hb _].
  destruct (createCollection_outcomes Sample.engine "  Daily  ") as [_ Hok].
  split; [now apply Hb|].
  destruct Hok as (c & w' & E & Hn & _); [discriminate|].
  exists c, w'. split; [exact E | exact Hn].
Defined.

(** X9. [deleteEntry] of the engine: an id that does not resolve is
    refused with "Entry with id ... not found" and nothing changes. An
    id that resolves is deleted: in a store whose entry ids are distinct
    it no longer resolves, so that deleting it a second time is refused;
    every other entry id resolves as before, and inputs, suggestions and
    collections are untouched. *)
Theorem deleteEntry_outcomes (w : VocaEngine.t) (entryId : string) :
  (InMemoryStorage.getEntry (VocaEngine.storage w) entryId = None ->
   VocaEngine.deleteEntry entryId w = (Throw (EntryNotFound entryId), w)) /\
  (InMemoryStorage.getEntry (VocaEngine.storage w) entryId <> None ->
   JS.distinctKeys (InMemoryStorage.entries (VocaEngine.storage w)) ->
   exists w',
     VocaEngine.deleteEntry entryId w = (Ok tt, w') /\
     InMemoryStorage.getEntry (VocaEngine.storage w') entryId = None /\
     VocaEngine.deleteEntry entryId w' = (Throw (EntryNotFound entryId), w') /\
     (forall i, i <> entryId ->
                InMemoryStorage.getEntry (VocaEngine.storage w') i
                = InMemoryStorage.getEntry (VocaEngine.storage w) i) /\
     InMemoryStorage.inputs (VocaEngine.storage w')
     = InMemoryStorage.inputs (VocaEngine.storage w) /\
     InMemoryStorage.suggestions (VocaEngine.storage w')
     = InMemoryStorage.suggestions (VocaEngine.storage w) /\
     InMemoryStorage.collections (VocaEngine.storage w')
     = InMemoryStorage.collections (VocaEngine.storage w)).
Proof.
  unfold VocaEngine.deleteEntry. engine_unfold. split.
  - now intros ->.
  - intros Hsome Hd.
    destruct (InMemoryStorage.getEntry (VocaEngine.storage w) entryId) eqn:G;
      [|congruence].
    eexists. split; [reflexivity|]. simpl.
    assert (G' : InMemoryStorage.getEntry
                   (InMemoryStorage.deleteEntry (VocaEngine.storage w) entryId) entryId
                 = None) by (apply get_delete_same; exact Hd).
    rewrite G'. repeat split; auto.
    intros i Hi. now apply get_delete_other.
Qed.

Lemma deleteEntry_outcomes_witness :
  VocaEngine.deleteEntry "e9" Sample.engine = (Throw (EntryNotFound "e9"), Sample.engine)
  /\ exists w',
       VocaEngine.deleteEntry "e2" Sample.engine = (Ok tt, w') /\
       VocaEngine.deleteEntry "e2" w' = (Throw (EntryNotFound "e2"), w').
Proof.
  destruct (deleteEntry_outcomes Sample.engine "e9") as [Hn _].
  destruct (deleteEntry_outcomes Sample.engine "e2") as [_ Hd].
  split; [now apply Hn|].
  destruct Hd as (w' & E & _ & E2 & _).
  - discriminate.
  - exact (proj2 (proj2 (proj2 sample_store_distinct))).
  - exists w'. split; [exact E | exact E2].
Defined.

(** X10. [renameCollection]: the name is checked before the collection
    is looked up, so a name that trims to the empty string is refused
    with "Collection name cannot be empty" whether or not the id
    resolves; a good name for an id that does not resolve is refused with
    "Collection with id ... not found"; in both cases nothing changes.
    Otherwise the collection now resolves with the trimmed name, the
    collections keep their keys and order, every other collection id
    resolves as before, and the host is not touched: no id is generated
    and the clock is not read. *)
Theorem renameCollection_outcomes (w : VocaEngine.t) (collectionId newName : string) :
  (JS.trim newName = "" ->
   VocaEngine.renameCollection collectionId newName w = (Throw CollectionNameEmpty, w)) /\
  (JS.trim newName <> "" ->
   InMemoryStorage.getCollection (VocaEngine.storage w) collectionId = None ->
   VocaEngine.renameCollection collectionId newName w
   = (Throw (CollectionNotFound collectionId), w)) /\
  (JS.trim newName <> "" ->
   InMemoryStorage.getCollection (VocaEngine.storage w) collectionId <> None ->
   exists c w',
     VocaEngine.renameCollection collectionId newName w = (Ok c, w') /\
     Collection.name c = JS.trim newName /\
     InMemoryStorage.getCollection (VocaEngine.storage w') collectionId = Some c /\
     map fst (InMemoryStorage.collections (VocaEngine.storage w'))
     = map fst (InMemoryStorage.collections (VocaEngine.storage w)) /\
     (forall i, i <> collectionId ->
                InMemoryStorage.getCollection (VocaEngine.storage w') i
                = InMemoryStorage.getCollection (VocaEngine.storage w) i) /\
     VocaEngine.host w' = VocaEngine.host w).
Proof.
  unfold VocaEngine.renameCollection. split; [|split].
  - intros H. now rewrite (proj2 (blank_true newName) H).
  - intros H G. rewrite (proj2 (blank_false newName) H). engine_unfold.
    rewrite G. reflexivity.
  - intros H G. rewrite (proj2 (blank_false newName) H). engine_unfold.
    unfold InMemoryStorage.updateCollection, InMemoryStorage.getCollection in *.
    destruct (JS.get (InMemoryStorage.collections (VocaEngine.storage w)) collectionId)
      as [existing|] eqn:E; [|congruence].
    cbv beta. rewrite E.
    eexists _, _. split; [reflexivity|]. simpl. repeat split.
    + apply get_set_same.
    + apply set_keys_present. congruence.
    + intros i Hi. now apply get_set_other.
Qed.

Lemma renameCollection_outcomes_witness :
  VocaEngine.renameCollection "c9" "  " Sample.engine
  = (Throw CollectionNameEmpty, Sample.engine) /\
  VocaEngine.renameCollection "c9" "New" Sample.engine
  = (Throw (CollectionNotFound "c9"), Sample.engine) /\
  exists c w',
    VocaEngine.renameCollection "c1" " New " Sample.engine = (Ok c, w') /\
    Collection.name c = "New".
Proof.
  destruct (renameCollection_outcomes Sample.engine "c9" "  ") as (H1 & _ & _).
  destruct (renameCollection_outcomes Sample.engine "c9" "New") as (_ & H2 & _).
  destruct (renameCollection_outcomes Sample.engine "c1" " New ") as (_ & _ & H3).
  split; [now apply H1|]. split; [apply H2; [discriminate | reflexivity]|].
  destruct H3 as (c & w' & E & Hn & _); [discriminate | discriminate|].
  exists c, w'. split; [exact E | exact Hn].
Defined.

(** X11. [updateEntryTags]: an id that does not resolve is refused with
    "Entry with id ... not found" and nothing changes. For an entry that
    has an id, the entry returned keeps that id, the input, the
    suggestion and the collection, carries the given tags normalized,
    and is stamped with the current time in place of the time it was
    saved; it replaces the stored entry, so that the entry ids of the
    store and their order are as before. *)
Theorem updateEntryTags_outcomes (w : VocaEngine.t) (entryId : string)
        (tags : list string) :
  (InMemoryStorage.getEntry (VocaEngine.storage w) entryId = None ->
   VocaEngine.updateEntryTags entryId tags w = (Throw (EntryNotFound entryId), w)) /\
  (forall entry,
     InMemoryStorage.getEntry (VocaEngine.storage w) entryId = Some entry ->
     Entry.id entry = entryId -> entryId <> "" ->
     exists updated w',
       VocaEngine.updateEntryTags entryId tags w = (Ok updated, w') /\
       Entry.id updated = entryId /\
       Entry.input updated = Entry.input entry /\
       Entry.suggestion updated = Entry.suggestion entry /\
       Entry.collectionId updated = Entry.collectionId entry /\
       Entry.tags updated = Spec.normalizeTags tags /\
       Entry.savedAt updated
       = Host.times (VocaEngine.host w) (Host.clockReads (VocaEngine.host w)) /\
       InMemoryStorage.getEntry (VocaEngine.storage w') entryId = Some updated /\
       map fst (InMemoryStorage.entries (VocaEngine.storage w'))
       = map fst (InMemoryStorage.entries (VocaEngine.storage w))).
Proof.
  unfold VocaEngine.updateEntryTags. engine_unfold. split.
  - now intros ->.
  - intros entry G Hid Hne. rewrite G.
    unfold Entry.new. rewrite Hid, (idOr_given _ _ Hne).
    unfold Host.now. simpl.
    eexists _, _. split; [reflexivity|]. simpl.
    rewrite cleanTags_normalizeTags. repeat split.
    + apply get_set_same.
    + apply set_keys_present. unfold InMemoryStorage.getEntry in G. congruence.
Qed.

Lemma updateEntryTags_outcomes_witness :
  exists updated w',
    VocaEngine.updateEntryTags "e1" [" a "; "a"; ""] Sample.engine = (Ok updated, w') /\
    Entry.tags updated = ["a"] /\ Entry.savedAt updated = 5000.
Proof.
  destruct (updateEntryTags_outcomes Sample.engine "e1" [" a "; "a"; ""]) as [_ H].
  destruct (H Sample.entry1 eq_refl eq_refl) as (u & w' & E & _ & _ & _ & _ & Ht & Hs & _);
    [discriminate|].
  exists u, w'. split; [exact E|]. split; [rewrite Ht | rewrite Hs]; reflexivity.
Defined.

End EngineOutcomes.

Section SearchAndListing.

Context {A : Type} (key : A -> Z).

Let desc (a b : A) : Z := key b - key a.

Lemma insertSorted_front (x : A) (l : list A) :
  Forall (fun z => key z <= key x) l -> JS.insertSorted desc x l = x :: l.
Proof.
  intros H. destruct l as [|y l]; [reflexivity|].
  inversion H; subst. simpl. unfold desc at 1.
  destruct (Z.leb_spec (key y - key x) 0); [reflexivity | lia].
Qed.

Lemma filter_insertSorted (p : A -> bool) (x : A) (l : list A) :
  StronglySorted (fun a b => key b <= key a) l ->
  filter p (JS.insertSorted desc x l)
  = if p x then JS.insertSorted desc x (filter p l) else filter p l.
Proof.
  induction 1 as [|y l Hs IH Hy]; simpl.
  - now destruct (p x).
  - unfold desc at 1. destruct (Z.leb_spec (key y - key x) 0) as [Hle|Hgt].
    + simpl. destruct (p x); [|reflexivity].
      rewrite insertSorted_front; [reflexivity|].
      assert (Hall : Forall (fun z => key z <= key x) (y :: l)).
      { constructor; [lia|]. eapply Forall_impl; [|exact Hy]. simpl. intros; lia. }
      apply Forall_forall. intros z Hz.
      rewrite Forall_forall in Hall. apply Hall.
      change (In z (filter p (y :: l))) in Hz. now apply filter_In in Hz.
    + simpl. rewrite IH. destruct (p y), (p x); simpl; try reflexivity.
      change (desc x y) with (key y - key x).
      destruct (Z.leb_spec (key y - key x) 0); [lia | reflexivity].
Qed.

(** Filtering commutes with sorting by a key. *)
Lemma filter_sort (p : A -> bool) (l : list A) :
  filter p (JS.sort desc l) = JS.sort desc (filter p l).
Proof.
  induction l as [|x l IH]; [reflexivity|].
  change (JS.sort desc (x :: l)) with (JS.insertSorted desc x (JS.sort desc l)).
  rewrite filter_insertSorted by apply sort_desc.
  simpl. rewrite IH. now destruct (p x).
Qed.

End SearchAndListing.

Section EngineSearch.

(** X12. For a collection that resolves under a non-empty id and a query
    that is not blank, [searchEntries] of the engine returns the entries
    of [listEntries] that match the trimmed query, in the order of the
    listing: searching never reorders and never finds an entry the
    listing does not show. *)
Theorem searchEntries_filters_listing (w : VocaEngine.t) (collectionId query : string) :
  InMemoryStorage.getCollection (VocaEngine.storage w) collectionId <> None ->
  collectionId <> "" -> JS.trim query <> "" ->
  VocaEngine.searchEntries collectionId query w
  = (Ok (filter (fun e => Entry.matchesQuery e (JS.trim query))
                (InMemoryStorage.listEntries (VocaEngine.storage w) collectionId)), w).
Proof.
  intros G Hc Hq. unfold VocaEngine.searchEntries.
  rewrite (proj2 (blank_false query) Hq). engine_unfold.
  destruct (InMemoryStorage.getCollection _ _); [|congruence].
  f_equal. f_equal.
  unfold InMemoryStorage.searchEntries, InMemoryStorage.listEntries.
  cbn [SearchOptions.query SearchOptions.collectionId SearchOptions.tags
       SearchOptions.limit SearchOptions.offset JS.numberOr].
  unfold JS.truthy.
  apply String.eqb_neq in Hc, Hq. rewrite Hc, Hq. cbn [negb].
  rewrite (slice_skip_all _ 0) by lia. simpl skipn.
  unfold InMemoryStorage.bySavedAtDesc.
  rewrite (filter_sort Entry.savedAt). reflexivity.
Qed.

Lemma searchEntries_filters_listing_witness :
  VocaEngine.searchEntries "c1" " HELLO " Sample.engine
  = (Ok [Sample.entry2; Sample.entry1], Sample.engine).
Proof.
  rewrite (searchEntries_filters_listing Sample.engine "c1" " HELLO ");
    [reflexivity | discriminate | discriminate | discriminate].
Defined.

(** X13. Listing or searching a collection whose id does not resolve is
    refused with "Collection with id ... not found", whatever the query,
    and nothing changes. *)
Theorem queries_need_the_collection (w : VocaEngine.t) (collectionId query : string) :
  InMemoryStorage.getCollection (VocaEngine.storage w) collectionId = None ->
  VocaEngine.listEntries collectionId w = (Throw (CollectionNotFound collectionId), w) /\
  VocaEngine.searchEntries collectionId query w
  = (Throw (CollectionNotFound collectionId), w) /\
  kindOf (CollectionNotFound collectionId) = NotFoundError.
Proof.
  intros G.
  assert (L : VocaEngine.listEntries collectionId w
              = (Throw (CollectionNotFound collectionId), w)).
  { unfold VocaEngine.listEntries. engine_unfold. now rewrite G. }
  split; [exact L|]. split; [|reflexivity].
  unfold VocaEngine.searchEntries.
  destruct (VocaEngine.blank query); [exact L|].
  engine_unfold. now rewrite G.
Qed.

Lemma queries_need_the_collection_witness :
  VocaEngine.searchEntries "c9" "hello" Sample.engine
  = (Throw (CollectionNotFound "c9"), Sample.engine).
Proof.
  destruct (queries_need_the_collection Sample.engine "c9" "hello") as (_ & H & _);
    [reflexivity | exact H].
Defined.

End EngineSearch.

(* ================================================================== *)
(** * What each call does to the engine                                 *)
(* ================================================================== *)

Section CallCases.

Lemma addInput_cases (w : VocaEngine.t) (type : InputType) (content : string) :
  VocaEngine.addInput type content w =
  if VocaEngine.blank content then (Throw InputContentEmpty, w)
  else
    let '(input, h) := ExpressionInput.new type (JS.trim content) None (VocaEngine.host w) in
    (Ok input,
     VocaEngine.mk h (VocaEngine.llmProvider w)
       (snd (InMemoryStorage.saveInput (VocaEngine.storage w) input))).
Proof.
  unfold VocaEngine.addInput. destruct (VocaEngine.blank content); [reflexivity|].
  engine_unfold. now destruct (ExpressionInput.new _ _ _ _).
Qed.

Lemma createCollection_cases (w : VocaEngine.t) (name : string) :
  VocaEngine.createCollection name w =
  if VocaEngine.blank name then (Throw CollectionNameEmpty, w)
  else
    let '(c, h) := Collection.new (JS.trim name) None (VocaEngine.host w) in
    (Ok c,
     VocaEngine.mk h (VocaEngine.llmProvider w)
       (snd (InMemoryStorage.saveCollection (VocaEngine.storage w) c))).
Proof.
  unfold VocaEngine.createCollection. destruct (VocaEngine.blank name); [reflexivity|].
  engine_unfold. now destruct (Collection.new _ _ _).
Qed.

Lemma generateSuggestions_cases (w : VocaEngine.t) (inputId : string) :
  VocaEngine.generateSuggestions inputId w =
  match InMemoryStorage.getInput (VocaEngine.storage w) inputId with
  | None => (Throw (InputNotFound inputId), w)
  | Some input =>
      let '(o, p) :=
        LLMProvider.generateVocabularySuggestions (VocaEngine.llmProvider w) input in
      let asked := VocaEngine.mk (VocaEngine.host w) p (VocaEngine.storage w) in
      match o with
      | LLMProvider.Rejects shown => (Throw (GenerationFailed shown), asked)
      | LLMProvider.Resolves None | LLMProvider.Resolves (Some []) =>
          (Throw (GenerationFailed (show NoSuggestionsGenerated)), asked)
      | LLMProvider.Resolves (Some candidates) =>
          let '(sg, h) := Suggestion.new inputId candidates None (VocaEngine.host w) in
          (Ok sg, VocaEngine.mk h p
                    (snd (InMemoryStorage.saveSuggestion (VocaEngine.storage w) sg)))
      end
  end.
Proof.
  unfold VocaEngine.generateSuggestions. engine_unfold.
  destruct (InMemoryStorage.getInput _ _) as [input|]; [|reflexivity].
  simpl. destruct (LLMProvider.answers _ _ input) as [[[|c cs]|]|shown];
    reflexivity.
Qed.

Lemma deleteEntry_cases (w : VocaEngine.t) (entryId : string) :
  VocaEngine.deleteEntry entryId w =
  match InMemoryStorage.getEntry (VocaEngine.storage w) entryId with
  | None => (Throw (EntryNotFound entryId), w)
  | Some _ =>
      (Ok tt, VocaEngine.mk (VocaEngine.host w) (VocaEngine.llmProvider w)
                (InMemoryStorage.deleteEntry (VocaEngine.storage w) entryId))
  end.
Proof.
  unfold VocaEngine.deleteEntry. engine_unfold.
  now destruct (InMemoryStorage.getEntry _ _).
Qed.

Lemma renameCollection_cases (w : VocaEngine.t) (collectionId newName : string) :
  VocaEngine.renameCollection collectionId newName w =
  if VocaEngine.blank newName then (Throw CollectionNameEmpty, w)
  else
    match InMemoryStorage.getCollection (VocaEngine.storage w) collectionId with
    | None => (Throw (CollectionNotFound collectionId), w)
    | Some _ =>
        let '(r, s) :=
          InMemoryStorage.updateCollection (VocaEngine.storage w) collectionId
            (Collection.mkPartial None (Some (JS.trim newName)) None) in
        (r, VocaEngine.mk (VocaEngine.host w) (VocaEngine.llmProvider w) s)
    end.
Proof.
  unfold VocaEngine.renameCollection. destruct (VocaEngine.blank newName); [reflexivity|].
  engine_unfold. now destruct (InMemoryStorage.getCollection _ _).
Qed.

Lemma updateEntryTags_cases (w : VocaEngine.t) (entryId : string) (tags : list string) :
  VocaEngine.updateEntryTags entryId tags w =
  match InMemoryStorage.getEntry (VocaEngine.storage w) entryId with
  | None => (Throw (EntryNotFound entryId), w)
  | Some entry =>
      let '(updated, h) :=
        Entry.new (Entry.input entry) (Entry.suggestion entry) (Entry.collectionId entry)
                  (Some (VocaEngine.cleanTags tags)) (Some (Entry.id entry))
                  (VocaEngine.host w) in
      (Ok updated,
       VocaEngine.mk h (VocaEngine.llmProvider w)
         (snd (InMemoryStorage.saveEntry (VocaEngine.storage w) updated)))
  end.
Proof.
  unfold VocaEngine.updateEntryTags. engine_unfold.
  destruct (InMemoryStorage.getEntry _ _) as [entry|]; [|reflexivity].
  now destruct (Entry.new _ _ _ _ _ _).
Qed.

Lemma listEntries_cases (w : VocaEngine.t) (collectionId : string) :
  VocaEngine.listEntries collectionId w =
  match InMemoryStorage.getCollection (VocaEngine.storage w) collectionId with
  | None => (Throw (CollectionNotFound collectionId), w)
  | Some _ => (Ok (InMemoryStorage.listEntries (VocaEngine.storage w) collectionId), w)
  end.
Proof.
  unfold VocaEngine.listEntries. engine_unfold.
  now destruct (InMemoryStorage.getCollection _ _).
Qed.

Lemma searchEntries_state (w : VocaEngine.t) (collectionId query : string) :
  snd (VocaEngine.searchEntries collectionId query w) = w.
Proof.
  unfold VocaEngine.searchEntries.
  destruct (VocaEngine.blank query).
  - rewrite listEntries_cases. now destruct (InMemoryStorage.getCollection _ _).
  - engine_unfold. now destruct (InMemoryStorage.getCollection _ _).
Qed.

Lemma updateCollection_failure (s : InMemoryStorage.t) (i : string)
      (u : Collection.partial) (e : Error) (s' : InMemoryStorage.t) :
  InMemoryStorage.updateCollection s i u = (Throw e, s') -> s' = s.
Proof.
  unfold InMemoryStorage.updateCollection.
  destruct (JS.get _ _); intros E; inversion E; reflexivity.
Qed.

End CallCases.

Section CallEffects.

Lemma answer_parts {A : Type} (wrap : Result A -> Session.response)
      (m : VocaEngine.M A) (w : VocaEngine.t) :
  Session.answer wrap m w = (wrap (fst (m w)), snd (m w)).
Proof. unfold Session.answer. now destruct (m w). Qed.

Ltac split_call :=
  repeat match goal with
         | |- context [match ?x with _ => _ end] => destruct x eqn:?
         | |- context [if ?x then _ else _] => destruct x eqn:?
         end.

(** X14. A call of the engine that ends in an error has written nothing:
    the store is as it was, no id was generated and the clock was not
    read. This holds of every request of a session. *)
Theorem failed_calls_write_nothing (rq : Session.request) (w : VocaEngine.t) :
  Integrity.failed (fst (Session.perform rq w)) ->
  VocaEngine.storage (snd (Session.perform rq w)) = VocaEngine.storage w /\
  VocaEngine.host (snd (Session.perform rq w)) = VocaEngine.host w.
Proof.
  destruct rq; unfold Session.perform; rewrite answer_parts;
    cbn [fst snd Integrity.failed].
  - rewrite addInput_cases. split_call; simpl in *; try tauto; congruence.
  - rewrite generateSuggestions_cases. unfold LLMProvider.generateVocabularySuggestions.
    split_call; simpl in *; try tauto; congruence.
  - rewrite createCollection_cases. split_call; simpl in *; try tauto; congruence.
  - simpl. tauto.
  - rewrite saveEntry_cases. split_call; simpl in *; try tauto; congruence.
  - rewrite listEntries_cases. split_call; simpl in *; try tauto; congruence.
  - rewrite deleteEntry_cases. split_call; simpl in *; try tauto; congruence.
  - rewrite searchEntries_state. tauto.
  - rewrite renameCollection_cases. split_call; simpl in *; try tauto; try congruence.
    intros _. split; [|reflexivity]. subst. eapply updateCollection_failure. eassumption.
  - rewrite updateEntryTags_cases. split_call; simpl in *; try tauto; congruence.
  - simpl. tauto.
Qed.

Lemma failed_calls_write_nothing_witness :
  VocaEngine.storage
    (snd (Session.perform (Session.SaveEntry "i2" "s1" "c1" None) Sample.engine))
  = Sample.store.
Proof.
  destruct (failed_calls_write_nothing (Session.SaveEntry "i2" "s1" "c1" None)
              Sample.engine) as [H _]; [exact I | exact H].
Defined.

Lemma statsLoop_state (collections : list Collection.t) :
  forall (a b : Z) (w : VocaEngine.t),
    snd (VocaEngine.statsLoop collections a b w) = w.
Proof.
  induction collections as [|c cs IH]; intros a b w; [reflexivity|].
  simpl. unfold VocaEngine.bind. rewrite listEntries_cases.
  destruct (InMemoryStorage.getCollection _ _); [apply IH | reflexivity].
Qed.

(** X15. The calls that answer questions change nothing, whether they
    succeed or fail: after [listCollections], [listEntries],
    [searchEntries], [searchAllEntries], the four lookups by id,
    [getStats] and [exportData] the engine is as it was. *)
Theorem queries_change_nothing (w : VocaEngine.t) :
  (forall rq, Integrity.readOnly rq = true -> snd (Session.perform rq w) = w) /\
  (forall i, snd (VocaEngine.getInputById i w) = w /\
             snd (VocaEngine.getSuggestionById i w) = w /\
             snd (VocaEngine.getCollectionById i w) = w /\
             snd (VocaEngine.getEntryById i w) = w) /\
  snd (VocaEngine.getStats w) = w /\
  snd (VocaEngine.exportData w) = w.
Proof.
  split; [|split; [|split]].
  - intros rq Hr. destruct rq; try discriminate;
      unfold Session.perform; rewrite answer_parts; cbn [snd].
    + reflexivity.
    + rewrite listEntries_cases. now destruct (InMemoryStorage.getCollection _ _).
    + apply searchEntries_state.
    + reflexivity.
  - intros i. repeat split.
  - unfold VocaEngine.getStats, VocaEngine.listCollections. engine_unfold.
    pose proof (statsLoop_state (InMemoryStorage.listCollections (VocaEngine.storage w))
                  0 0 w) as H.
    destruct (VocaEngine.statsLoop _ 0 0 w) as [[t|e] w']; simpl in *; congruence.
  - reflexivity.
Qed.

Lemma queries_change_nothing_witness :
  snd (Session.perform (Session.SearchEntries "c9" "x") Sample.engine) = Sample.engine.
Proof.
  destruct (queries_change_nothing Sample.engine) as [H _].
  now apply H.
Defined.

End CallEffects.

(* ================================================================== *)
(** * What sessions keep                                                *)
(* ================================================================== *)

Section SessionInvariants.

Lemma entry_new_fields inp sug cid tgs i h :
  let e := fst (Entry.new inp sug cid (Some tgs) i h) in
  Entry.input e = inp /\ Entry.suggestion e = sug /\
  Entry.collectionId e = cid /\ Entry.tags e = tgs.
Proof.
  unfold Entry.new. destruct (Host.idOr i h) as [i' h1]. simpl. auto.
Qed.

Lemma intact_step (s s' : InMemoryStorage.t) :
  InMemoryStorage.keyed s' ->
  (forall i, InMemoryStorage.getCollection s i <> None ->
             InMemoryStorage.getCollection s' i <> None) ->
  (forall e, In e (JS.values (InMemoryStorage.entries s')) ->
             In e (JS.values (InMemoryStorage.entries s)) \/ Integrity.entryIntact s' e) ->
  Integrity.intact s -> Integrity.intact s'.
Proof.
  intros Hk Hc He [_ Hall]. split; [exact Hk|].
  apply Forall_forall. intros e Hin.
  destruct (He e Hin) as [Hold|Hnew]; [|exact Hnew].
  rewrite Forall_forall in Hall. destruct (Hall e Hold) as (H1 & H2 & H3).
  split; [exact H1 | split; [now apply Hc | exact H3]].
Qed.

Lemma empty_intact : Integrity.intact InMemoryStorage.empty.
Proof. split; [apply empty_keyed | constructor]. Qed.

Lemma perform_intact (rq : Session.request) (w : VocaEngine.t) :
  Integrity.intact (VocaEngine.storage w) ->
  Integrity.intact (VocaEngine.storage (snd (Session.perform rq w))).
Proof.
  intros Hi. pose proof Hi as [Hk Hall].
  pose proof (perform_keyed rq w Hk) as Hk'.
  revert Hk'. destruct rq; unfold Session.perform; rewrite answer_parts; cbn [snd].
  - rewrite addInput_cases. destruct (VocaEngine.blank content); [auto|].
    destruct (ExpressionInput.new _ _ _ _) as [x h]. simpl. intros Hk'.
    apply (intact_step (VocaEngine.storage w)); auto.
  - rewrite generateSuggestions_cases.
    destruct (InMemoryStorage.getInput _ _) as [input|]; [|auto].
    unfold LLMProvider.generateVocabularySuggestions.
    destruct (LLMProvider.answers _ _ input) as [[[|c cs]|]|shown]; auto.
    destruct (Suggestion.new _ _ _ _) as [x h]. simpl. intros Hk'.
    apply (intact_step (VocaEngine.storage w)); auto.
  - rewrite createCollection_cases. destruct (VocaEngine.blank name); [auto|].
    destruct (Collection.new _ _ _) as [x h]. simpl. intros Hk'.
    apply (intact_step (VocaEngine.storage w)); auto.
    intros i. apply set_present.
  - auto.
  - rewrite saveEntry_cases.
    destruct (InMemoryStorage.getInput _ _) as [input|] eqn:Gi; [|auto].
    destruct (InMemoryStorage.getSuggestion _ _) as [sg|]; [|auto].
    destruct (InMemoryStorage.getCollection _ collectionId) as [c|] eqn:Gc; [|auto].
    destruct (String.eqb_spec (Suggestion.inputId sg) inputId) as [Eq|]; [|auto].
    match goal with
    | |- context [Entry.new ?a ?b ?c (Some ?t) ?i ?h] =>
        pose proof (entry_new_fields a b c t i h) as Hf;
        destruct (Entry.new a b c (Some t) i h) as [x h']
    end.
    simpl in Hf. destruct Hf as (F1 & F2 & F3 & F4). simpl. intros Hk'.
    apply (intact_step (VocaEngine.storage w)); auto.
    intros e Hin. apply values_set in Hin. destruct Hin as [->|Hin]; [right | now left].
    split; [|split].
    + rewrite F1, F2, Eq. symmetry.
      destruct Hk as (Hki & _). eapply get_keyed; eassumption.
    + rewrite F3. unfold InMemoryStorage.getCollection in *. simpl. congruence.
    + rewrite F4. destruct tags; [rewrite cleanTags_normalizeTags|].
      * apply normalizeTags_tagSet.
      * apply (normalizeTags_tagSet []).
  - rewrite listEntries_cases. destruct (InMemoryStorage.getCollection _ _); auto.
  - rewrite deleteEntry_cases. destruct (InMemoryStorage.getEntry _ _); [|auto].
    simpl. intros Hk'. apply (intact_step (VocaEngine.storage w)); auto.
    intros e Hin. left. unfold InMemoryStorage.deleteEntry in Hin. simpl in Hin.
    eapply values_delete. eassumption.
  - rewrite searchEntries_state. auto.
  - rewrite renameCollection_cases. destruct (VocaEngine.blank newName); [auto|].
    destruct (InMemoryStorage.getCollection _ _); [|auto].
    unfold InMemoryStorage.updateCollection.
    destruct (JS.get _ _); [|auto]. simpl. intros Hk'.
    apply (intact_step (VocaEngine.storage w)); auto.
    intros i. apply set_present.
  - rewrite updateEntryTags_cases.
    destruct (InMemoryStorage.getEntry _ _) as [entry|] eqn:Ge; [|auto].
    match goal with
    | |- context [Entry.new ?a ?b ?c (Some ?t) ?i ?h] =>
        pose proof (entry_new_fields a b c t i h) as Hf;
        destruct (Entry.new a b c (Some t) i h) as [x h']
    end.
    simpl in Hf. destruct Hf as (F1 & F2 & F3 & F4). simpl. intros Hk'.
    apply (intact_step (VocaEngine.storage w)); auto.
    intros e Hin. apply values_set in Hin. destruct Hin as [->|Hin]; [right | now left].
    apply get_values in Ge. rewrite Forall_forall in Hall.
    destruct (Hall entry Ge) as (E1 & E2 & E3).
    split; [|split].
    + now rewrite F1, F2.
    + now rewrite F3.
    + rewrite F4, cleanTags_normalizeTags. apply normalizeTags_tagSet.
  - auto.
Qed.

Lemma run_intact (rqs : list Session.request) :
  forall w, Integrity.intact (VocaEngine.storage w) ->
            Integrity.intact (VocaEngine.storage (snd (Session.run rqs w))).
Proof.
  induction rqs as [|rq rqs IH]; intros w Hw; [exact Hw|].
  rewrite run_cons. simpl snd. apply IH. now apply perform_intact.
Qed.

End SessionInvariants.

Section SessionGuarantees.

Lemma retains_refl (s : InMemoryStorage.t) : Integrity.retains s s.
Proof. repeat split; auto. Qed.

Lemma retains_trans (s1 s2 s3 : InMemoryStorage.t) :
  Integrity.retains s1 s2 -> Integrity.retains s2 s3 -> Integrity.retains s1 s3.
Proof. intros (A1 & B1 & C1) (A2 & B2 & C2). repeat split; auto. Qed.

Lemma perform_retains (rq : Session.request) (w : VocaEngine.t) :
  Integrity.retains (VocaEngine.storage w)
                    (VocaEngine.storage (snd (Session.perform rq w))).
Proof.
  assert (R := retains_refl (VocaEngine.storage w)).
  destruct rq; unfold Session.perform; rewrite answer_parts; cbn [snd].
  - rewrite addInput_cases. destruct (VocaEngine.blank content); [exact R|].
    destruct (ExpressionInput.new _ _ _ _) as [x h]. simpl.
    split; [|split]; auto. intros i. apply set_present.
  - rewrite generateSuggestions_cases.
    destruct (InMemoryStorage.getInput _ _) as [input|]; [|exact R].
    unfold LLMProvider.generateVocabularySuggestions.
    destruct (LLMProvider.answers _ _ input) as [[[|c cs]|]|shown]; try exact R.
    destruct (Suggestion.new _ _ _ _) as [x h]. simpl.
    split; [|split]; auto. intros i. apply set_present.
  - rewrite createCollection_cases. destruct (VocaEngine.blank name); [exact R|].
    destruct (Collection.new _ _ _) as [x h]. simpl.
    split; [|split]; auto. intros i. apply set_present.
  - exact R.
  - rewrite saveEntry_cases.
    destruct (InMemoryStorage.getInput _ _); [|exact R].
    destruct (InMemoryStorage.getSuggestion _ _); [|exact R].
    destruct (InMemoryStorage.getCollection _ _); [|exact R].
    destruct (String.eqb _ _); [|exact R].
    destruct (Entry.new _ _ _ _ _ _). exact R.
  - rewrite listEntries_cases. destruct (InMemoryStorage.getCollection _ _); exact R.
  - rewrite deleteEntry_cases. destruct (InMemoryStorage.getEntry _ _); exact R.
  - rewrite searchEntries_state. exact R.
  - rewrite renameCollection_cases. destruct (VocaEngine.blank newName); [exact R|].
    destruct (InMemoryStorage.getCollection _ _); [|exact R].
    unfold InMemoryStorage.updateCollection.
    destruct (JS.get _ _); [|exact R]. simpl.
    split; [|split]; auto. intros i. apply set_present.
  - rewrite updateEntryTags_cases.
    destruct (InMemoryStorage.getEntry _ _); [|exact R].
    destruct (Entry.new _ _ _ _ _ _). exact R.
  - exact R.
Qed.

(** X16. In a store that keeps each record under its own id, a lookup by
    id returns a record with that id, and every session of calls leaves
    the store so; this holds of the store an engine starts with, which is
    empty. *)
Theorem lookups_return_the_id (rqs : list Session.request) (w : VocaEngine.t) :
  InMemoryStorage.keyed (VocaEngine.storage w) ->
  let s := VocaEngine.storage (snd (Session.run rqs w)) in
  (forall i x, InMemoryStorage.getInput s i = Some x -> ExpressionInput.id x = i) /\
  (forall i x, InMemoryStorage.getSuggestion s i = Some x -> Suggestion.id x = i) /\
  (forall i x, InMemoryStorage.getCollection s i = Some x -> Collection.id x = i) /\
  (forall i x, InMemoryStorage.getEntry s i = Some x -> Entry.id x = i).
Proof.
  intros Hk. destruct (run_keyed rqs w Hk) as (Ki & Ks & Kc & Ke). cbv zeta.
  repeat split; intros i x G; eapply get_keyed; eassumption.
Qed.

Lemma lookups_return_the_id_witness :
  option_map ExpressionInput.id
    (InMemoryStorage.getInput
       (VocaEngine.storage (snd (Session.run Sample.workflow Sample.fresh))) "ui")
  = Some "ui".
Proof.
  destruct (lookups_return_the_id Sample.workflow Sample.fresh empty_keyed) as [H _].
  destruct (InMemoryStorage.getInput _ "ui") as [x|] eqn:E.
  - simpl. f_equal. exact (H _ _ E).
  - vm_compute in E. discriminate.
Defined.




End SessionGuarantees.

Section EntryQueries.

Lemma every_forall {A : Type} (p : A -> bool) (l : list A) :
  JS.every p l = true <-> forall x, In x l -> p x = true.
Proof. unfold JS.every. apply forallb_forall. Qed.

Lemma arrayIncludes_app (l l' : list string) (x : string) :
  JS.arrayIncludes (l ++ l') x = JS.arrayIncludes l x || JS.arrayIncludes l' x.
Proof. unfold JS.arrayIncludes. apply existsb_app. Qed.

Lemma arrayIncludes_filter (l : list string) (x tag : string) :
  JS.arrayIncludes (filter (fun t => negb (String.eqb t tag)) l) x
  = JS.arrayIncludes l x && negb (String.eqb x tag).
Proof.
  apply eq_true_iff_eq.
  rewrite andb_true_iff, !arrayIncludes_In, filter_In, negb_true_iff. tauto.
Qed.

Lemma entry_new_id inp sug cid tgs (i : string) h :
  i <> "" -> Entry.id (fst (Entry.new inp sug cid tgs (Some i) h)) = i.
Proof.
  intros H. unfold Entry.new. now rewrite (idOr_given i h H).
Qed.

(** X19. Membership of tags under the builders of [Entry]: after
    [addTag] the entry has the tags it had and the added one, after
    [removeTag] it has the tags it had except the removed one, and
    adding a tag the entry has returns the entry itself without reading
    the clock. Both keep the input, the suggestion and the collection of
    the entry, and its id when that is not the empty string. *)
Theorem tag_builders_membership (x : Entry.t) (tag : string) (h : Host.t) :
  let added := fst (Entry.addTag x tag h) in
  let removed := fst (Entry.removeTag x tag h) in
  (forall t, Entry.hasTag added t = Entry.hasTag x t || String.eqb t tag) /\
  (forall t, Entry.hasTag removed t = Entry.hasTag x t && negb (String.eqb t tag)) /\
  Entry.addTag added tag h = (added, h) /\
  (Entry.input added, Entry.suggestion added, Entry.collectionId added)
  = (Entry.input x, Entry.suggestion x, Entry.collectionId x) /\
  (Entry.input removed, Entry.suggestion removed, Entry.collectionId removed)
  = (Entry.input x, Entry.suggestion x, Entry.collectionId x) /\
  (Entry.id x <> "" -> Entry.id added = Entry.id x /\ Entry.id removed = Entry.id x).
Proof.
  cbv zeta. unfold Entry.addTag, Entry.removeTag, Entry.hasTag.
  pose proof (entry_new_fields (Entry.input x) (Entry.suggestion x) (Entry.collectionId x)
                (Entry.tags x ++ [tag])%list (Some (Entry.id x)) h) as Ha.
  pose proof (entry_new_fields (Entry.input x) (Entry.suggestion x) (Entry.collectionId x)
                (filter (fun t => negb (String.eqb t tag)) (Entry.tags x))
                (Some (Entry.id x)) h) as Hr.
  pose proof (entry_new_id (Entry.input x) (Entry.suggestion x) (Entry.collectionId x)
                (Some (Entry.tags x ++ [tag])%list) (Entry.id x) h) as Ia.
  pose proof (entry_new_id (Entry.input x) (Entry.suggestion x) (Entry.collectionId x)
                (Some (filter (fun t => negb (String.eqb t tag)) (Entry.tags x)))
                (Entry.id x) h) as Ir.
  destruct (Entry.new _ _ _ (Some (Entry.tags x ++ [tag])%list) _ h) as [a ha].
  destruct (Entry.new _ _ _ (Some (filter _ _)) _ h) as [r hr].
  cbv zeta in Ha, Hr. cbn [fst] in Ha, Hr, Ia, Ir.
  destruct Ha as (A2 & A3 & A4 & Ta). destruct Hr as (R2 & R3 & R4 & Tr).
  assert (Hrem : forall t, JS.arrayIncludes (Entry.tags r) t
                           = JS.arrayIncludes (Entry.tags x) t && negb (String.eqb t tag)).
  { intros t. rewrite Tr. apply arrayIncludes_filter. }
  destruct (JS.arrayIncludes (Entry.tags x) tag) eqn:E; cbn [fst].
  - split; [|split; [|split; [|split; [|split]]]].
    + intros t. destruct (String.eqb t tag) eqn:Et.
      * apply String.eqb_eq in Et. subst t. now rewrite E.
      * now rewrite orb_false_r.
    + exact Hrem.
    + now rewrite E.
    + reflexivity.
    + now rewrite R2, R3, R4.
    + auto.
  - assert (Hself : JS.arrayIncludes (Entry.tags a) tag = true).
    { rewrite Ta. apply arrayIncludes_In, in_or_app. right. now left. }
    split; [|split; [|split; [|split; [|split]]]].
    + intros t. rewrite Ta, arrayIncludes_app. f_equal.
      unfold JS.arrayIncludes. simpl. now rewrite orb_false_r.
    + exact Hrem.
    + now rewrite Hself.
    + now rewrite A2, A3, A4.
    + now rewrite R2, R3, R4.
    + auto.
Qed.

Lemma tag_builders_membership_witness :
  Entry.id (fst (Entry.addTag Sample.entry1 "z" Sample.host)) = Entry.id Sample.entry1 /\
  Entry.id (fst (Entry.removeTag Sample.entry1 "z" Sample.host)) = Entry.id Sample.entry1.
Proof.
  destruct (tag_builders_membership Sample.entry1 "z" Sample.host)
    as (_ & _ & _ & _ & _ & H).
  apply H. discriminate.
Defined.

(** X20. [hasTags] holds exactly when every requested tag is a tag of
    the entry, by string equality; so it holds of no request at all for
    the empty list, and an entry has all of its own tags. *)
Theorem hasTags_is_inclusion (x : Entry.t) (requested : list string) :
  (Entry.hasTags x requested = true <-> incl requested (Entry.tags x)) /\
  Entry.hasTags x [] = true /\
  Entry.hasTags x (Entry.getTags x) = true.
Proof.
  assert (H : forall l, Entry.hasTags x l = true <-> incl l (Entry.tags x)).
  { intros l. unfold Entry.hasTags, Entry.hasTag. rewrite every_forall.
    unfold incl. split; intros H t Ht; apply arrayIncludes_In; auto. }
  split; [apply H | split; [reflexivity|]].
  apply H. unfold Entry.getTags. apply incl_refl.
Qed.

End EntryQueries.

Section QueryFacts.

Lemma lowerChar_idem (c : ascii) : JS.lowerChar (JS.lowerChar c) = JS.lowerChar c.
Proof. destruct c as [[] [] [] [] [] [] [] []]; reflexivity. Qed.

Lemma toLowerCase_idem (s : string) :
  JS.toLowerCase (JS.toLowerCase s) = JS.toLowerCase s.
Proof.
  induction s as [|c s IH]; [reflexivity|].
  simpl. now rewrite lowerChar_idem, IH.
Qed.

Lemma startsWith_prefix (s q : string) :
  JS.startsWith s q = true <-> exists post, s = (q ++ post)%string.
Proof.
  revert s. induction q as [|a q IH]; intros s.
  - split; [intros _; now exists s | now destruct s].
  - destruct s as [|b s]; simpl.
    + split; [discriminate | intros [post H]; discriminate].
    + rewrite andb_true_iff, IH, Ascii.eqb_eq. split.
      * intros [-> [post ->]]. now exists post.
      * intros [post H]. inversion H; subst. split; [reflexivity | now exists post].
Qed.

Lemma includes_substring (s q : string) :
  JS.includes s q = true <-> exists pre post, s = (pre ++ q ++ post)%string.
Proof.
  induction s as [|c s IH].
  - cbn [JS.includes]. rewrite orb_false_r, startsWith_prefix. split.
    + intros [post H]. now exists EmptyString, post.
    + intros (pre & post & H). destruct pre; [now exists post|discriminate].
  - cbn [JS.includes]. rewrite orb_true_iff, startsWith_prefix, IH. split.
    + intros [[post H] | (pre & post & H)].
      * now exists EmptyString, post.
      * exists (String c pre), post. simpl. now rewrite H.
    + intros (pre & post & H). destruct pre as [|c' pre].
      * left. now exists post.
      * right. simpl in H. inversion H; subst. now exists pre, post.
Qed.

Lemma some_exists {A : Type} (p : A -> bool) (l : list A) :
  JS.some p l = true <-> exists x, In x l /\ p x = true.
Proof. unfold JS.some. apply existsb_exists. Qed.

(** X21. [matchesQuery] is a search for a part of the text, without
    regard to letter case: it holds exactly when the query in lower case
    is a part of the lower-case content of the input, of a lower-case
    candidate or of a lower-case tag. *)
Theorem matchesQuery_is_substring_search (x : Entry.t) (query : string) :
  Entry.matchesQuery x query = true <->
  exists field pre post,
    (field = ExpressionInput.content (Entry.input x) \/
     In field (Suggestion.candidates (Entry.suggestion x)) \/
     In field (Entry.tags x)) /\
    JS.toLowerCase field = (pre ++ JS.toLowerCase query ++ post)%string.
Proof.
  unfold Entry.matchesQuery. cbv zeta.
  destruct (JS.includes (JS.toLowerCase (ExpressionInput.content _)) _) eqn:E1.
  { split; [intros _ | reflexivity].
    apply includes_substring in E1. destruct E1 as (pre & post & H).
    exists (ExpressionInput.content (Entry.input x)), pre, post. auto. }
  destruct (JS.some _ (Suggestion.candidates _)) eqn:E2.
  { split; [intros _ | reflexivity].
    apply some_exists in E2. destruct E2 as (c & Hin & H).
    apply includes_substring in H. destruct H as (pre & post & H).
    exists c, pre, post. auto. }
  destruct (JS.some _ (Entry.tags _)) eqn:E3.
  { split; [intros _ | reflexivity].
    apply some_exists in E3. destruct E3 as (c & Hin & H).
    apply includes_substring in H. destruct H as (pre & post & H).
    exists c, pre, post. auto. }
  split; [discriminate|].
  intros (field & pre & post & [-> | [Hin | Hin]] & H).
  - rewrite (proj2 (includes_substring _ _)) in E1; [discriminate | eauto].
  - assert (S : JS.some (fun candidate =>
                           JS.includes (JS.toLowerCase candidate) (JS.toLowerCase query))
                        (Suggestion.candidates (Entry.suggestion x)) = true).
    { apply some_exists. exists field. split; [exact Hin|].
      apply includes_substring. eauto. }
    congruence.
  - assert (S : JS.some (fun tag =>
                           JS.includes (JS.toLowerCase tag) (JS.toLowerCase query))
                        (Entry.tags x) = true).
    { apply some_exists. exists field. split; [exact Hin|].
      apply includes_substring. eauto. }
    congruence.
Qed.

Lemma includes_self (s : string) : JS.includes s s = true.
Proof.
  apply includes_substring. exists EmptyString, EmptyString.
  simpl. clear. induction s as [|c s IH]; simpl; congruence.
Qed.

Lemma includes_empty (s : string) : JS.includes s "" = true.
Proof. apply includes_substring. now exists EmptyString, s. Qed.

(** X22. What every entry matches: the empty query; its own content,
    each of its candidates and each of its tags, in whatever letter case
    the query is written. Writing a query in lower case changes no
    answer. *)
Theorem matchesQuery_own_text (x : Entry.t) (query : string) :
  Entry.matchesQuery x "" = true /\
  Entry.matchesQuery x (JS.toLowerCase query) = Entry.matchesQuery x query /\
  ((JS.toLowerCase query = JS.toLowerCase (ExpressionInput.content (Entry.input x)) \/
    In (JS.toLowerCase query)
       (map JS.toLowerCase (Suggestion.candidates (Entry.suggestion x))) \/
    In (JS.toLowerCase query) (map JS.toLowerCase (Entry.tags x))) ->
   Entry.matchesQuery x query = true).
Proof.
  split; [|split].
  - unfold Entry.matchesQuery. cbv zeta. simpl JS.toLowerCase.
    now rewrite includes_empty.
  - unfold Entry.matchesQuery. cbv zeta. now rewrite toLowerCase_idem.
  - unfold Entry.matchesQuery. cbv zeta. intros [H | [H | H]].
    + now rewrite H, includes_self.
    + apply in_map_iff in H. destruct H as (c & Hc & Hin).
      assert (S : JS.some (fun candidate =>
                             JS.includes (JS.toLowerCase candidate) (JS.toLowerCase query))
                          (Suggestion.candidates (Entry.suggestion x)) = true).
      { apply some_exists. exists c. split; [exact Hin|].
        rewrite Hc. apply includes_self. }
      rewrite S. now destruct (JS.includes _ _).
    + apply in_map_iff in H. destruct H as (c & Hc & Hin).
      assert (S : JS.some (fun tag =>
                             JS.includes (JS.toLowerCase tag) (JS.toLowerCase query))
                          (Entry.tags x) = true).
      { apply some_exists. exists c. split; [exact Hin|].
        rewrite Hc. apply includes_self. }
      rewrite S. destruct (JS.includes _ _); [reflexivity|].
      now destruct (JS.some _ (Suggestion.candidates _)).
Qed.

Lemma matchesQuery_own_text_witness :
  Entry.matchesQuery Sample.entry1 "X" = true.
Proof.
  destruct (matchesQuery_own_text Sample.entry1 "X") as (_ & _ & H).
  apply H. right. right. simpl. auto.
Defined.

End QueryFacts.

Section CommandLine.

Lemma occurs_trimStart (c : ascii) (s : string) :
  JS.occurs c s = false -> JS.occurs c (JS.trimStart s) = false.
Proof.
  induction s as [|a s IH]; [reflexivity|].
  intros H. cbn [JS.trimStart]. destruct (JS.isWhiteSpace a); [|exact H].
  apply IH. simpl in H. now apply orb_false_iff in H.
Qed.

Lemma occurs_trimEnd (c : ascii) (s : string) :
  JS.occurs c s = false -> JS.occurs c (JS.trimEnd s) = false.
Proof.
  induction s as [|a s IH]; [reflexivity|].
  intros H. simpl in H. apply orb_false_iff in H. destruct H as [Ha Hs].
  cbn [JS.trimEnd]. specialize (IH Hs).
  destruct (JS.trimEnd s) as [|b r].
  - destruct (JS.isWhiteSpace a); [reflexivity|]. simpl. now rewrite Ha.
  - change (JS.occurs c (String a (String b r))) with
      (Ascii.eqb a c || JS.occurs c (String b r)).
    now rewrite Ha, IH.
Qed.

Lemma occurs_trim (c : ascii) (s : string) :
  JS.occurs c s = false -> JS.occurs c (JS.trim s) = false.
Proof. intros H. unfold JS.trim. now apply occurs_trimEnd, occurs_trimStart. Qed.

Lemma split_pieces (s : string) (sep : ascii) :
  JS.split s sep <> [] /\ Forall (fun piece => JS.occurs sep piece = false) (JS.split s sep).
Proof.
  induction s as [|c s [IHn IHf]]; simpl.
  - split; [discriminate | now repeat constructor].
  - destruct (Ascii.eqb c sep) eqn:E.
    + split; [discriminate | now constructor].
    + destruct (JS.split s sep) as [|piece pieces]; [contradiction|].
      split; [discriminate|]. inversion IHf; subst.
      constructor; [|assumption]. simpl. now rewrite E.
Qed.

Lemma split_whole (s : string) (sep : ascii) :
  JS.occurs sep s = false -> JS.split s sep = [s].
Proof.
  induction s as [|c s IH]; [reflexivity|].
  simpl. intros H. apply orb_false_iff in H. destruct H as [Hc Hs].
  now rewrite Hc, (IH Hs).
Qed.

Lemma split_append (x rest : string) (sep : ascii) :
  JS.occurs sep x = false ->
  JS.split (x ++ String sep rest) sep = x :: JS.split rest sep.
Proof.
  induction x as [|c x IH]; intros H.
  - simpl. now rewrite Ascii.eqb_refl.
  - simpl in H. apply orb_false_iff in H. destruct H as [Hc Hx].
    simpl. now rewrite Hc, (IH Hx).
Qed.

Lemma split_join (l : list string) (sep : ascii) :
  l <> [] -> Forall (fun x => JS.occurs sep x = false) l ->
  JS.split (JS.join l sep) sep = l.
Proof.
  induction l as [|x l IH]; [congruence|].
  intros _ H. inversion H as [|? ? Hx Hl]; subst.
  destruct l as [|y l].
  - simpl. now apply split_whole.
  - change (JS.join (x :: y :: l) sep) with (x ++ String sep (JS.join (y :: l) sep))%string.
    rewrite split_append by assumption. f_equal. apply IH; [discriminate | assumption].
Qed.

Lemma truthy_length (s : string) :
  (Z.of_nat (String.length s) >? 0) = JS.truthy s.
Proof. now destruct s. Qed.

Lemma map_filter_fixed (l : list string) :
  Forall (fun tag => JS.trim tag = tag /\ tag <> "") l ->
  filter (fun tag => Z.of_nat (String.length tag) >? 0) (map JS.trim l) = l.
Proof.
  induction 1 as [|x l [Ht Hne] _ IH]; [reflexivity|].
  simpl. rewrite Ht, truthy_length. unfold JS.truthy.
  apply String.eqb_neq in Hne. rewrite Hne. simpl. now rewrite IH.
Qed.

(** X23. The tags [parseTags] reads from the command line are trimmed,
    not empty and hold no comma; no argument and the empty argument give
    no tags. On such tags the normalization of [saveEntry] and
    [updateEntryTags] only removes repetitions. *)
Theorem parseTags_results (tagsString : option string) :
  Forall (fun tag => JS.trim tag = tag /\ tag <> "" /\ JS.occurs "," tag = false)
         (Cli.parseTags tagsString) /\
  Cli.parseTags None = [] /\
  Cli.parseTags (Some "") = [] /\
  VocaEngine.cleanTags (Cli.parseTags tagsString)
  = Spec.firstOccurrences (Cli.parseTags tagsString).
Proof.
  assert (H : Forall (fun tag => JS.trim tag = tag /\ tag <> "" /\ JS.occurs "," tag = false)
                     (Cli.parseTags tagsString)).
  { unfold Cli.parseTags. destruct tagsString as [s|]; [|constructor].
    destruct (JS.truthy s); [|constructor]. simpl negb. cbv iota.
    apply Forall_forall. intros tag Hin.
    apply filter_In in Hin. destruct Hin as [Hin Hlen].
    apply in_map_iff in Hin. destruct Hin as (piece & <- & Hin).
    destruct (split_pieces s ",") as [_ Hf]. rewrite Forall_forall in Hf.
    split; [apply trim_idem | split; [|apply occurs_trim; now apply Hf]].
    intros E. rewrite E in Hlen. discriminate. }
  split; [exact H | split; [reflexivity | split; [reflexivity|]]].
  rewrite cleanTags_normalizeTags. unfold Spec.normalizeTags. f_equal.
  rewrite <- (map_filter_fixed (Cli.parseTags tagsString)) at 2.
  - apply filter_ext. intros t. now rewrite truthy_length.
  - eapply Forall_impl; [|exact H]. simpl. tauto.
Qed.

(** X24. [parseTags] reads back tags written with commas between them:
    for a list of tags, not empty, each trimmed, not empty and without a
    comma, it returns the list from the joined string. *)
Theorem parseTags_reads_joined (tags : list string) :
  tags <> [] ->
  Forall (fun tag => JS.trim tag = tag /\ tag <> "" /\ JS.occurs "," tag = false) tags ->
  Cli.parseTags (Some (JS.join tags ",")) = tags.
Proof.
  intros Hne H. unfold Cli.parseTags.
  assert (T : JS.truthy (JS.join tags ",") = true).
  { destruct tags as [|x l]; [congruence|].
    inversion H as [|? ? (_ & Hx & _) _]; subst.
    destruct x; [congruence|]. now destruct l. }
  rewrite T. simpl negb. cbv iota.
  rewrite split_join.
  - apply map_filter_fixed. eapply Forall_impl; [|exact H]. simpl. tauto.
  - exact Hne.
  - eapply Forall_impl; [|exact H]. simpl. tauto.
Qed.

Lemma parseTags_reads_joined_witness :
  Cli.parseTags (Some (JS.join ["x"; "y z"] ",")) = ["x"; "y z"].
Proof.
  apply parseTags_reads_joined; [discriminate|].
  repeat constructor; discriminate.
Defined.

Ltac spelling E ty :=
  rewrite E; destruct ty; simpl; split; intros H;
  try discriminate; try tauto; destruct H; discriminate.

(** X25. [parseInputType] accepts the six spellings, in any letter case,
    and nothing else: it returns a type exactly when the argument in
    lower case is the value of that type or its short form. The value of
    every type is read back as that type. *)
Theorem parseInputType_spellings (type : string) :
  (forall ty, Cli.parseInputType (Cli.inputTypeValue ty) = inr ty) /\
  (forall ty,
     Cli.parseInputType type = inr ty <->
     JS.toLowerCase type = Cli.inputTypeValue ty \/
     JS.toLowerCase type = match ty with
                           | Expression => "expr"
                           | Explanation => "explain"
                           | Image => "img"
                           end) /\
  (forall ty,
     Cli.parseInputType (JS.toLowerCase type) = inr ty <->
     Cli.parseInputType type = inr ty).
Proof.
  assert (C : forall s ty,
             Cli.parseInputType s = inr ty <->
             JS.toLowerCase s = Cli.inputTypeValue ty \/
             JS.toLowerCase s = match ty with
                                | Expression => "expr"
                                | Explanation => "explain"
                                | Image => "img"
                                end).
  { intros s ty. unfold Cli.parseInputType. cbv zeta.
    destruct (String.eqb_spec (JS.toLowerCase s) "expression") as [E|N1]; [spelling E ty|].
    destruct (String.eqb_spec (JS.toLowerCase s) "expr") as [E|N2]; [spelling E ty|].
    destruct (String.eqb_spec (JS.toLowerCase s) "explanation") as [E|N3]; [spelling E ty|].
    destruct (String.eqb_spec (JS.toLowerCase s) "explain") as [E|N4]; [spelling E ty|].
    destruct (String.eqb_spec (JS.toLowerCase s) "image") as [E|N5]; [spelling E ty|].
    destruct (String.eqb_spec (JS.toLowerCase s) "img") as [E|N6]; [spelling E ty|].
    simpl. split; [discriminate|]. destruct ty; simpl; tauto. }
  split; [|split].
  - now intros [].
  - intros ty. apply C.
  - intros ty. rewrite !C, toLowerCase_idem. reflexivity.
Qed.

End CommandLine.

Section ProviderAnswers.

Variable generic : Z -> string.

Lemma padLoop_grows (suggestionCount : Z) (rounds : nat) :
  forall lines,
    let padded := OpenAIProvider.padLoop generic suggestionCount rounds lines in
    (exists padding, padded = (lines ++ padding)%list) /\
    (Z.of_nat (List.length lines) <= suggestionCount ->
     Z.of_nat (List.length padded) <= suggestionCount) /\
    ((5 <= Z.of_nat rounds + Z.of_nat (List.length lines)) ->
     (Z.of_nat (List.length padded) <? suggestionCount)
     && (Z.of_nat (List.length padded) <? 5) = false).
Proof.
  induction rounds as [|r IH]; intros lines; cbv zeta.
  - simpl. split; [exists []; now rewrite app_nil_r|]. split; [auto|].
    intros H. apply andb_false_iff. right. apply Z.ltb_ge. lia.
  - cbn [OpenAIProvider.padLoop]. cbv zeta.
    destruct ((Z.of_nat (List.length lines) <? suggestionCount)
              && (Z.of_nat (List.length lines) <? 5)) eqn:E.
    + apply andb_true_iff in E. destruct E as [E1 E2].
      apply Z.ltb_lt in E1. apply Z.ltb_lt in E2.
      destruct (IH (lines ++ [generic (Z.of_nat (List.length lines) + 1)])%list)
        as ([padding Hp] & Hle & Hexit).
      rewrite length_app in Hle, Hexit. simpl List.length in Hle, Hexit.
      split; [|split].
      * rewrite Hp, <- app_assoc. eauto.
      * intros _. apply Hle. lia.
      * intros H. apply Hexit. lia.
    + split; [exists []; now rewrite app_nil_r|]. split; [auto|]. intros _. exact E.
Qed.

Lemma keptLines_kept (suggestionCount : Z) (content : string) :
  1 <= suggestionCount ->
  Z.of_nat (List.length (OpenAIProvider.keptLines suggestionCount content))
  <= suggestionCount /\
  Forall (fun line => JS.trim line = line /\ line <> "" /\
                      OpenAIProvider.numbered line = false /\
                      JS.occurs ":" line = false)
         (OpenAIProvider.keptLines suggestionCount content).
Proof.
  intros Hn. unfold OpenAIProvider.keptLines. split.
  - apply (slice_length _ 0 suggestionCount); lia.
  - apply Forall_forall. intros line Hin. apply slice_incl in Hin.
    apply filter_In in Hin. destruct Hin as [Hin Hcolon].
    apply filter_In in Hin. destruct Hin as [Hin Hnum].
    apply filter_In in Hin. destruct Hin as [Hin Hlen].
    apply in_map_iff in Hin. destruct Hin as (piece & <- & _).
    split; [apply trim_idem|]. split; [intros E; rewrite E in Hlen; discriminate|].
    split; [now apply negb_true_iff|].
    apply negb_true_iff in Hcolon.
    destruct (JS.occurs ":" (JS.trim piece)) eqn:O; [|reflexivity].
    rewrite <- Hcolon. symmetry. apply includes_substring.
    clear -O. induction (JS.trim piece) as [|c s IH]; [discriminate|].
    simpl in O. destruct (Ascii.eqb_spec c ":") as [->|Hne].
    + now exists EmptyString, s.
    + destruct (IH O) as (pre & post & ->). now exists (String c pre), post.
Qed.

(** X26. How many lines [parseSuggestions] returns, for a suggestion
    count of at least 1 (as [setSuggestionCount] stores it) and an answer
    of code units below 256: at most the count, and at least the count
    or 5, whichever is smaller, so never none; the padding loop has
    ended by then. The lines come first that were kept from the answer:
    each trimmed, not empty, not starting as a numbered item and without
    a colon; generic lines follow. *)
Theorem parseSuggestions_count (suggestionCount : Z) (content : string) :
  1 <= suggestionCount ->
  let kept := OpenAIProvider.keptLines suggestionCount content in
  let result := OpenAIProvider.parseSuggestions generic suggestionCount content in
  let len := Z.of_nat (List.length result) in
  Z.min suggestionCount 5 <= len <= suggestionCount /\
  result <> [] /\
  (len <? suggestionCount) && (len <? 5) = false /\
  (exists padding, result = (kept ++ padding)%list) /\
  Forall (fun line => JS.trim line = line /\ line <> "" /\
                      OpenAIProvider.numbered line = false /\
                      JS.occurs ":" line = false) kept.
Proof.
  intros Hn. cbv zeta. unfold OpenAIProvider.parseSuggestions.
  destruct (keptLines_kept suggestionCount content Hn) as [Hlen Hall].
  destruct (padLoop_grows suggestionCount 5
              (OpenAIProvider.keptLines suggestionCount content))
    as (Hpre & Hle & Hexit).
  cbv zeta in Hpre, Hle, Hexit.
  specialize (Hle Hlen).
  assert (Hx := Hexit ltac:(lia)).
  set (result := OpenAIProvider.padLoop _ _ _ _) in *.
  assert (Hmin : Z.min suggestionCount 5 <= Z.of_nat (List.length result)).
  { apply andb_false_iff in Hx. destruct Hx as [Hx|Hx]; apply Z.ltb_ge in Hx; lia. }
  split; [lia|]. split; [|split; [exact Hx | split; [exact Hpre | exact Hall]]].
  intros E. rewrite E in Hmin. simpl in Hmin. lia.
Qed.

End ProviderAnswers.

Lemma parseSuggestions_count_witness :
  OpenAIProvider.parseSuggestions (fun _ => "more") (OpenAIProvider.clampSuggestionCount 0)
    "1. first" <> [].
Proof.
  destruct (parseSuggestions_count (fun _ => "more")
              (OpenAIProvider.clampSuggestionCount 0) "1. first") as (_ & H & _).
  - vm_compute. discriminate.
  - exact H.
Defined.

Section Totals.

Context {A : Type}.
Variable g : A -> Z.

Lemma sum_shift (l : list A) :
  forall a, fold_left (fun sum x => sum + g x) l a
            = a + fold_left (fun sum x => sum + g x) l 0.
Proof.
  induction l as [|x l IH]; intros a; simpl; [lia|].
  rewrite (IH (a + g x)), (IH (g x)). lia.
Qed.

Lemma sum_cons (x : A) (l : list A) :
  fold_left (fun sum x => sum + g x) (x :: l) 0
  = g x + fold_left (fun sum x => sum + g x) l 0.
Proof. simpl. apply sum_shift. Qed.

Lemma sum_perm (l l' : list A) :
  Permutation l l' ->
  fold_left (fun sum x => sum + g x) l 0 = fold_left (fun sum x => sum + g x) l' 0.
Proof.
  induction 1 as [|x l l' _ IH|x y l|l l' l'' _ IH1 _ IH2].
  - reflexivity.
  - now rewrite !sum_cons, IH.
  - rewrite !sum_cons. lia.
  - congruence.
Qed.

Lemma sum_filter_or (p q : A -> bool) (l : list A) :
  (forall x, p x = true -> q x = true -> False) ->
  fold_left (fun sum x => sum + g x) (filter (fun x => p x || q x) l) 0
  = fold_left (fun sum x => sum + g x) (filter p l) 0
    + fold_left (fun sum x => sum + g x) (filter q l) 0.
Proof.
  intros D. induction l as [|x l IH]; [reflexivity|].
  cbn [filter]. specialize (D x).
  destruct (p x), (q x); cbn [orb]; rewrite ?sum_cons, ?IH;
    solve [lia | exfalso; now apply D].
Qed.

End Totals.

Section Statistics.

Lemma length_sum {A : Type} (l : list A) :
  Z.of_nat (List.length l) = fold_left (fun sum _ => sum + 1) l 0.
Proof.
  induction l as [|x l IH]; [reflexivity|].
  rewrite (sum_cons (fun _ => 1)). simpl List.length. lia.
Qed.

Lemma filter_all_in {A : Type} (f : A -> bool) (l : list A) :
  (forall x, In x l -> f x = true) -> filter f l = l.
Proof.
  intros H. induction l as [|x l IH]; simpl; [reflexivity|].
  rewrite H by now left. f_equal. apply IH. intros y Hy. apply H. now right.
Qed.

Lemma keyed_ids {V : Type} (id : V -> string) (m : JS.Map V) :
  InMemoryStorage.keyedBy id m -> map id (JS.values m) = map fst m.
Proof.
  unfold InMemoryStorage.keyedBy, JS.values.
  induction 1 as [|[k v] m Hk _ IH]; [reflexivity|].
  simpl in *. now rewrite Hk, IH.
Qed.

(** The loop of [getStats] over collections of distinct ids that all
    resolve counts the entries of these collections. *)
Lemma statsLoop_totals (w : VocaEngine.t) (collections : list Collection.t) :
  NoDup (map Collection.id collections) ->
  (forall c, In c collections ->
             InMemoryStorage.getCollection (VocaEngine.storage w) (Collection.id c)
             <> None) ->
  forall a b,
    let counted :=
      filter (fun e => existsb (String.eqb (Entry.collectionId e))
                               (map Collection.id collections))
             (JS.values (InMemoryStorage.entries (VocaEngine.storage w))) in
    VocaEngine.statsLoop collections a b w
    = (Ok (a + Z.of_nat (List.length counted), b + VocaEngine.candidateTotal counted), w).
Proof.
  induction collections as [|c cs IH]; intros Hnd Hres a b; cbv zeta.
  - cbn [map existsb VocaEngine.statsLoop].
    replace (filter (fun _ => false) _) with (@nil Entry.t)
      by (induction (JS.values _); auto).
    unfold VocaEngine.ret. simpl. now rewrite !Z.add_0_r.
  - cbn [VocaEngine.statsLoop]. unfold VocaEngine.bind at 1.
    rewrite listEntries_cases.
    destruct (InMemoryStorage.getCollection _ (Collection.id c)) eqn:G;
      [|exfalso; apply (Hres c); [now left | exact G]].
    inversion Hnd as [|? ? Hnin Hnd']; subst.
    rewrite (IH Hnd' (fun c' H => Hres c' (or_intror H))). cbv zeta.
    set (es := JS.values (InMemoryStorage.entries (VocaEngine.storage w))).
    set (here := fun e => String.eqb (Entry.collectionId e) (Collection.id c)).
    set (later := fun e => existsb (String.eqb (Entry.collectionId e))
                                   (map Collection.id cs)).
    assert (D : forall e, here e = true -> later e = true -> False).
    { intros e H1 H2. apply String.eqb_eq in H1.
      apply existsb_exists in H2. destruct H2 as (k & Hin & Hk).
      apply String.eqb_eq in Hk. apply Hnin. congruence. }
    assert (P : Permutation (InMemoryStorage.listEntries (VocaEngine.storage w)
                               (Collection.id c)) (filter here es))
      by apply sort_perm.
    change (filter _ es) with (filter (fun e => here e || later e) es) at 3 4.
    unfold VocaEngine.candidateTotal.
    rewrite (sum_perm _ _ _ P), !length_sum.
    rewrite (sum_perm _ _ _ P).
    rewrite !(sum_filter_or _ here later es D).
    now rewrite !Z.add_assoc.
Qed.

(** X27. [getStats] of the engine on a store that keeps its records
    under their ids, one under each: it does not fail, it reports the
    number of collections, and it counts the entries, and the candidates
    of their suggestions, of the entries whose collection resolves. When
    every entry lies in a collection of the store, as in every store the
    engine builds, its count of entries is the count of the store's own
    [getStats]. *)
Theorem getStats_counts (w : VocaEngine.t) :
  let s := VocaEngine.storage w in
  InMemoryStorage.keyed s -> InMemoryStorage.distinct s ->
  let counted :=
    filter (fun e => match InMemoryStorage.getCollection s (Entry.collectionId e) with
                     | Some _ => true
                     | None => false
                     end)
           (JS.values (InMemoryStorage.entries s)) in
  VocaEngine.getStats w
  = (Ok (VocaEngine.mkStats
           (InMemoryStorage.stats_collections (InMemoryStorage.getStats s))
           (Z.of_nat (List.length counted))
           (VocaEngine.candidateTotal counted)), w) /\
  (Forall (Integrity.entryIntact s) (JS.values (InMemoryStorage.entries s)) ->
   Z.of_nat (List.length counted)
   = InMemoryStorage.stats_entries (InMemoryStorage.getStats s)).
Proof.
  cbv zeta. intros (_ & _ & Kc & _) (_ & _ & Dc & _).
  set (s := VocaEngine.storage w) in *.
  assert (P : Permutation (InMemoryStorage.listCollections s)
                          (JS.values (InMemoryStorage.collections s)))
    by apply sort_perm.
  assert (Hnd : NoDup (map Collection.id (InMemoryStorage.listCollections s))).
  { apply (Permutation_NoDup (Permutation_sym (Permutation_map Collection.id P))).
    rewrite (keyed_ids _ _ Kc). exact Dc. }
  assert (Hres : forall c, In c (InMemoryStorage.listCollections s) ->
                           InMemoryStorage.getCollection s (Collection.id c) <> None).
  { intros c Hin. apply (values_get Collection.id); [exact Kc|].
    now apply listCollections_In. }
  assert (Hsame : forall e,
             existsb (String.eqb (Entry.collectionId e))
                     (map Collection.id (InMemoryStorage.listCollections s))
             = match InMemoryStorage.getCollection s (Entry.collectionId e) with
               | Some _ => true
               | None => false
               end).
  { intros e. apply eq_true_iff_eq. rewrite existsb_exists. split.
    - intros (k & Hin & Hk). apply String.eqb_eq in Hk. subst k.
      apply in_map_iff in Hin. destruct Hin as (c & Hc & Hin).
      specialize (Hres c Hin). rewrite Hc in Hres.
      now destruct (InMemoryStorage.getCollection s (Entry.collectionId e)).
    - intros H. exists (Entry.collectionId e). split; [|apply String.eqb_refl].
      rewrite (Permutation_in' (eq_refl _) (Permutation_map Collection.id P)).
      rewrite (keyed_ids _ _ Kc).
      destruct (InMemoryStorage.getCollection s (Entry.collectionId e)) eqn:G;
        [|discriminate].
      destruct (in_dec string_dec (Entry.collectionId e)
                       (map fst (InMemoryStorage.collections s))) as [Hin|Hnin];
        [exact Hin|].
      apply get_absent_keys in Hnin. unfold InMemoryStorage.getCollection in G.
      congruence. }
  split.
  - unfold VocaEngine.getStats, VocaEngine.listCollections.
    unfold VocaEngine.bind at 1. unfold VocaEngine.reading.
    unfold VocaEngine.bind. fold s.
    rewrite (statsLoop_totals w _ Hnd Hres 0 0). cbv zeta. fold s.
    rewrite (filter_ext _ _ Hsame). unfold VocaEngine.ret. cbn [fst snd].
    rewrite !Z.add_0_l. do 3 f_equal.
    rewrite (Permutation_length P). unfold JS.values.
    now rewrite length_map.
  - intros Hall. rewrite filter_all_in.
    + unfold JS.values. now rewrite length_map.
    + intros e Hin. rewrite Forall_forall in Hall.
      destruct (Hall e Hin) as (_ & Hc & _).
      now destruct (InMemoryStorage.getCollection s (Entry.collectionId e)).
Qed.

Lemma getStats_counts_witness :
  fst (VocaEngine.getStats Sample.engine)
  = Ok (VocaEngine.mkStats 1 2 4).
Proof.
  destruct (getStats_counts Sample.engine sample_store_keyed sample_store_distinct)
    as [H _].
  exact (f_equal fst H).
Defined.

End Statistics.

Section Workflow.

(** X28. The calls of the usual workflow succeed one after the other:
    when the content and the collection name are not blank and the
    provider answers with at least one candidate, [addInput],
    [generateSuggestions] for the new input, [createCollection] and
    [saveEntry] of the three all return, on any engine. The entry pairs
    the new input with the new suggestion, lies in the new collection,
    resolves under its id and is listed by [listEntries] of that
    collection. *)
Theorem workflow_saves_the_entry (w : VocaEngine.t) (type : InputType)
        (content name : string) (tags : option (list string)) :
  JS.trim content <> "" ->
  JS.trim name <> "" ->
  (forall input, exists c cs,
      LLMProvider.answers (VocaEngine.llmProvider w)
        (LLMProvider.calls (VocaEngine.llmProvider w)) input
      = LLMProvider.Resolves (Some (c :: cs))) ->
  exists input suggestion collection entry listed w',
    VocaEngine.bind (VocaEngine.addInput type content) (fun input =>
    VocaEngine.bind (VocaEngine.generateSuggestions (ExpressionInput.id input))
      (fun suggestion =>
    VocaEngine.bind (VocaEngine.createCollection name) (fun collection =>
    VocaEngine.bind (VocaEngine.saveEntry (ExpressionInput.id input)
                       (Suggestion.id suggestion) (Collection.id collection) tags)
      (fun entry =>
    VocaEngine.bind (VocaEngine.listEntries (Collection.id collection)) (fun listed =>
    VocaEngine.ret (input, suggestion, collection, entry, listed)))))) w
    = (Ok (input, suggestion, collection, entry, listed), w') /\
    ExpressionInput.content input = JS.trim content /\
    Suggestion.inputId suggestion = ExpressionInput.id input /\
    Suggestion.candidates suggestion <> [] /\
    Collection.name collection = JS.trim name /\
    Entry.input entry = input /\
    Entry.suggestion entry = suggestion /\
    Entry.collectionId entry = Collection.id collection /\
    InMemoryStorage.getEntry (VocaEngine.storage w') (Entry.id entry) = Some entry /\
    In entry listed.
Proof.
  intros Hc Hn Hp.
  assert (G : forall V (m : JS.Map V) k v, JS.get (JS.set m k v) k = Some v)
    by (intros; apply get_set_same).
  unfold VocaEngine.bind at 1. rewrite addInput_cases.
  rewrite (proj2 (blank_false content) Hc).
  destruct (ExpressionInput.new type (JS.trim content) None (VocaEngine.host w))
    as [input h1] eqn:Ei.
  assert (Hcontent : ExpressionInput.content input = JS.trim content).
  { unfold ExpressionInput.new in Ei. simpl in Ei. now inversion Ei. }
  unfold VocaEngine.bind at 1. rewrite generateSuggestions_cases.
  cbn [VocaEngine.storage VocaEngine.host VocaEngine.llmProvider
       InMemoryStorage.saveInput snd].
  unfold InMemoryStorage.getInput at 1. cbn [InMemoryStorage.inputs]. rewrite G.
  unfold LLMProvider.generateVocabularySuggestions.
  destruct (Hp input) as (c & cs & Ea). rewrite Ea.
  destruct (Suggestion.new (ExpressionInput.id input) (c :: cs) None h1)
    as [suggestion h2] eqn:Es.
  assert (Hsug : Suggestion.inputId suggestion = ExpressionInput.id input /\
                 Suggestion.candidates suggestion = c :: cs).
  { unfold Suggestion.new in Es. simpl in Es. now inversion Es. }
  destruct Hsug as [Hin Hcs].
  unfold VocaEngine.bind at 1. rewrite createCollection_cases.
  rewrite (proj2 (blank_false name) Hn).
  cbn [VocaEngine.storage VocaEngine.host VocaEngine.llmProvider
       InMemoryStorage.saveSuggestion snd].
  destruct (Collection.new (JS.trim name) None h2) as [collection h3] eqn:Ec.
  assert (Hname : Collection.name collection = JS.trim name).
  { unfold Collection.new in Ec. simpl in Ec. now inversion Ec. }
  unfold VocaEngine.bind at 1. rewrite saveEntry_cases.
  cbn [VocaEngine.storage VocaEngine.host VocaEngine.llmProvider
       InMemoryStorage.saveCollection snd].
  unfold InMemoryStorage.getInput, InMemoryStorage.getSuggestion,
    InMemoryStorage.getCollection.
  cbn [InMemoryStorage.inputs InMemoryStorage.suggestions InMemoryStorage.collections].
  rewrite !G, Hin, String.eqb_refl.
  match goal with
  | |- context [Entry.new input suggestion ?cid (Some ?t) None h3] =>
      pose proof (entry_new_fields input suggestion cid t None h3) as He;
      destruct (Entry.new input suggestion cid (Some t) None h3) as [entry h4]
  end.
  cbv zeta in He. cbn [fst] in He. destruct He as (E1 & E2 & E3 & _).
  unfold VocaEngine.bind at 1. rewrite listEntries_cases.
  cbn [VocaEngine.storage InMemoryStorage.saveEntry snd].
  unfold InMemoryStorage.getCollection. cbn [InMemoryStorage.collections].
  rewrite G. unfold VocaEngine.ret.
  eexists _, _, _, _, _, _. split; [reflexivity|].
  repeat (split; [first [assumption | congruence]|]).
  cbn [VocaEngine.storage].
  assert (Hget : JS.get (JS.set (InMemoryStorage.entries (VocaEngine.storage w))
                           (Entry.id entry) entry) (Entry.id entry) = Some entry)
    by apply G.
  split; [exact Hget|].
  unfold InMemoryStorage.listEntries. cbn [InMemoryStorage.entries].
  apply (Permutation_in' (eq_refl entry) (sort_perm _ _)).
  apply filter_In. split; [eapply get_values; exact Hget|].
  rewrite E3. apply String.eqb_refl.
Qed.

Lemma workflow_saves_the_entry_witness :
  exists input entry w',
    ExpressionInput.content input = "hello" /\
    Entry.input entry = input /\
    InMemoryStorage.getEntry (VocaEngine.storage w') (Entry.id entry) = Some entry.
Proof.
  destruct (workflow_saves_the_entry Sample.fresh Expression " hello " "Daily" None)
    as (input & suggestion & collection & entry & listed & w'
        & _ & H1 & _ & _ & _ & H2 & _ & _ & H3 & _).
  - discriminate.
  - discriminate.
  - intros input. vm_compute. eauto.
  - exists input, entry, w'. split; [exact H1 | split; [exact H2 | exact H3]].
Defined.

End Workflow.

Section SuggestionBuilders.

Lemma suggestion_new_fields inp cs (i : string) h :
  let x := fst (Suggestion.new inp cs (Some i) h) in
  Suggestion.inputId x = inp /\ Suggestion.candidates x = cs /\
  Suggestion.generatedAt x = Host.times h (Host.clockReads h) /\
  (i <> "" -> Suggestion.id x = i).
Proof.
  cbv zeta. unfold Suggestion.new, Host.idOr, JS.truthy.
  destruct (String.eqb_spec i ""); simpl; repeat split; congruence.
Qed.

(** X29. The builders of [Suggestion]: [addCandidate] gives one
    candidate more, so a suggestion that has candidates;
    [filterCandidates] keeps exactly the candidates that pass the test,
    in their order. Both keep the input the suggestion belongs to, and
    its id when that is not the empty string, and both stamp the result
    with the time of the call. *)
Theorem suggestion_builders (x : Suggestion.t) (candidate : string)
        (predicate : string -> bool) (h : Host.t) :
  let added := fst (Suggestion.addCandidate x candidate h) in
  let kept := fst (Suggestion.filterCandidates x predicate h) in
  Suggestion.getCandidateCount added = Suggestion.getCandidateCount x + 1 /\
  Suggestion.hasCandidates added = true /\
  Suggestion.candidates kept = filter predicate (Suggestion.candidates x) /\
  (forall c, In c (Suggestion.candidates kept) <->
             In c (Suggestion.candidates x) /\ predicate c = true) /\
  Suggestion.getCandidateCount kept <= Suggestion.getCandidateCount x /\
  Suggestion.inputId added = Suggestion.inputId x /\
  Suggestion.inputId kept = Suggestion.inputId x /\
  Suggestion.generatedAt added = Host.times h (Host.clockReads h) /\
  Suggestion.generatedAt kept = Host.times h (Host.clockReads h) /\
  (Suggestion.id x <> "" ->
   Suggestion.id added = Suggestion.id x /\ Suggestion.id kept = Suggestion.id x).
Proof.
  cbv zeta. unfold Suggestion.addCandidate, Suggestion.filterCandidates.
  destruct (suggestion_new_fields (Suggestion.inputId x)
              (Suggestion.candidates x ++ [candidate])%list (Suggestion.id x) h)
    as (A1 & A2 & A3 & A4).
  destruct (suggestion_new_fields (Suggestion.inputId x)
              (filter predicate (Suggestion.candidates x)) (Suggestion.id x) h)
    as (K1 & K2 & K3 & K4).
  unfold Suggestion.hasCandidates, Suggestion.getCandidateCount.
  rewrite A2, K2, length_app. simpl List.length.
  split; [lia|]. split; [apply Z.gtb_lt; lia|]. split; [reflexivity|].
  split; [intros c; apply filter_In|].
  split; [pose proof (filter_length_le predicate (Suggestion.candidates x)); lia|].
  auto 10.
Qed.

Lemma suggestion_builders_witness :
  Suggestion.id (fst (Suggestion.addCandidate Sample.suggestion1 "c" Sample.host))
  = Suggestion.id Sample.suggestion1 /\
  Suggestion.id (fst (Suggestion.filterCandidates Sample.suggestion1
                        (fun c => String.eqb c "a") Sample.host))
  = Suggestion.id Sample.suggestion1.
Proof.
  destruct (suggestion_builders Sample.suggestion1 "c" (fun c => String.eqb c "a")
              Sample.host) as (_ & _ & _ & _ & _ & _ & _ & _ & _ & H).
  apply H. discriminate.
Defined.

End SuggestionBuilders.

Section SuggestionCounts.

(** X30. The suggestion count that [setDefaultSuggestionCount] of the
    engine and [setSuggestionCount] of the provider store for an integer
    is between 1 and 10, and is the given count when that lies between 1
    and 10. With a count stored so, [parseSuggestions] returns at least
    one line and at most ten, whatever the answer it reads. *)
Theorem stored_suggestion_count (generic : Z -> string) (count : Z) (content : string) :
  let stored := OpenAIProvider.clampSuggestionCount count in
  let lines := OpenAIProvider.parseSuggestions generic stored content in
  1 <= stored <= 10 /\
  VocaEngine.clampSuggestionCount count = stored /\
  (1 <= count <= 10 -> stored = count) /\
  1 <= Z.of_nat (List.length lines) <= 10.
Proof.
  cbv zeta. unfold VocaEngine.clampSuggestionCount, OpenAIProvider.clampSuggestionCount.
  set (stored := Z.max 1 (Z.min 10 count)).
  assert (Hs : 1 <= stored <= 10) by (subst stored; lia).
  split; [exact Hs|]. split; [reflexivity|]. split; [subst stored; lia|].
  unfold OpenAIProvider.parseSuggestions.
  destruct (keptLines_kept stored content (proj1 Hs)) as [Hlen _].
  destruct (padLoop_grows generic stored 5 (OpenAIProvider.keptLines stored content))
    as (_ & Hle & Hexit).
  cbv zeta in Hle, Hexit. specialize (Hle Hlen).
  assert (Hx := Hexit ltac:(lia)).
  apply andb_false_iff in Hx. destruct Hx as [Hx|Hx]; apply Z.ltb_ge in Hx; lia.
Qed.

Lemma stored_suggestion_count_witness :
  OpenAIProvider.clampSuggestionCount 7 = 7.
Proof.
  destruct (stored_suggestion_count (fun _ => "more") 7 "") as (_ & _ & H & _).
  apply H. lia.
Defined.

End SuggestionCounts.
